(** * tunnel-core: a shallow embedding of the multiplexing and routing plane

    The development follows the Go packages of the repository:
    - [quota]      (internal/quota/limiter.go): token bucket and quota limiter;
    - [registry]   (internal/registry/tunnel.go): domain -> tunnel registry;
    - [connection] (internal/connection/manager.go): connections, streams,
                   frame loop;
    - [handshake]  (internal/handshake/auth.go): the authentication
                   handshake;
    - [router]     (internal/router/router.go): the public HTTP handler.

    Modelling conventions.
    - A Go method is a computation in the monad [go S], a function from the
      receiver's state to an [outcome]: it returns ([Done]), parks its
      goroutine for ever ([Blocked]), or aborts the process with a runtime
      error ([Fatal]).  The outcome always carries the state reached.
    - Every [sync.Mutex] / [sync.RWMutex] of the source is a field of the
      record that owns it, and every Lock/Unlock call of the source is a
      step of the model.  A [defer] is written out at the return points.
    - Objects reached through pointers that are shared between tables or
      goroutines ([*Tunnel], [*Stream], [*Connection]) live in an explicit
      store indexed by address; tables hold addresses.
    - [time.Time] and [time.Duration] are integers (nanoseconds); the clock
      reading [time.Now()] is an argument of the operation that reads it.
    - Go [int] is a 64-bit two's complement integer, [uint32] a 32-bit
      unsigned one; increments wrap as in Go.
    - A [float64] is an IEEE 754 binary64 number, computed with the
      executable specification [SpecFloat] of the Standard Library. *)

From Stdlib Require Import ZArith Lia String.
From Stdlib.Floats Require Import SpecFloat.
From stdpp Require Import base option gmap strings list fin_maps.

Open Scope Z_scope.

(** ** Goroutine outcomes and the state monad of a method call *)

Inductive outcome (S A : Type) : Type :=
| Done (a : A) (s : S)   (* the call returned [a] *)
| Blocked (s : S)        (* the goroutine waits for ever *)
| Fatal (s : S).         (* runtime fatal error or panic *)
Arguments Done {S A} a s.
Arguments Blocked {S A} s.
Arguments Fatal {S A} s.

Definition go (S A : Type) : Type := S → outcome S A.

#[global] Instance go_ret {S} : MRet (go S) := λ A a s, Done a s.
#[global] Instance go_bind {S} : MBind (go S) := λ A B f c s,
  match c s with
  | Done a s' => f a s'
  | Blocked s' => Blocked s'
  | Fatal s' => Fatal s'
  end.

Definition gets {S A} (f : S → A) : go S A := λ s, Done (f s) s.
Definition modify {S} (f : S → S) : go S unit := λ s, Done tt (f s).

(** Run a computation on a component of the state (a field, or the object
    behind a pointer). *)
Definition zoom {S T A} (get : S → T) (set : T → S → S) (c : go T A) : go S A :=
  λ s, match c (get s) with
       | Done a t => Done a (set t s)
       | Blocked t => Blocked (set t s)
       | Fatal t => Fatal (set t s)
       end.

(** The state an outcome carries, and the value of a normal return. *)
Definition final {S A} (o : outcome S A) : S :=
  match o with Done _ s | Blocked s | Fatal s => s end.

Definition returned {S A} (o : outcome S A) : option A :=
  match o with Done a _ => Some a | _ => None end.

(** ** Machine integers and time *)

Definition wrap_int (z : Z) : Z := (z + 2 ^ 63) mod 2 ^ 64 - 2 ^ 63.
Definition wrap_uint32 (z : Z) : Z := z mod 2 ^ 32.
Definition int_range (z : Z) : Prop := - 2 ^ 63 ≤ z < 2 ^ 63.

Definition Time := Z.
Definition Duration := Z.
Definition Second : Duration := 1000000000.
Definition Millisecond : Duration := 1000000.

(** [t.Sub(u)]. *)
Definition Sub (t u : Time) : Duration := t - u.

(** ** float64

    The operations of binary64, each rounded to nearest-even on its own,
    as the gc compiler emits them for amd64 (no fused multiply-add). *)
Definition float64 : Type := spec_float.

Module f64.
Definition prec : Z := 53.
Definition emax : Z := 1024.
(** The conversion [float64(z)] of an integer value. *)
Definition of_int (z : Z) : float64 := binary_normalize prec emax z 0 false.
Definition add : float64 → float64 → float64 := SFadd prec emax.
Definition sub : float64 → float64 → float64 := SFsub prec emax.
Definition mul : float64 → float64 → float64 := SFmul prec emax.
Definition div : float64 → float64 → float64 := SFdiv prec emax.
Definition ltb : float64 → float64 → bool := SFltb.   (* a < b *)
Definition leb : float64 → float64 → bool := SFleb.   (* a <= b *)
End f64.

(** [d.Seconds()], as package time computes it:
      sec := d / Second; nsec := d % Second
      return float64(sec) + float64(nsec)/1e9 *)
Definition Seconds (d : Duration) : float64 :=
  let sec := Z.quot d Second in
  let nsec := Z.rem d Second in
  f64.add (f64.of_int sec) (f64.div (f64.of_int nsec) (f64.of_int 1000000000)).

(** ** package sync *)

Module Mutex.
Record t := { locked : bool }.
Definition free : t := {| locked := false |}.
Definition Lock : go t unit := λ m,
  if locked m then Blocked m else Done tt {| locked := true |}.
(** Unlock of an unlocked mutex is a fatal error. *)
Definition Unlock : go t unit := λ m,
  if locked m then Done tt {| locked := false |} else Fatal m.
End Mutex.

Module RWMutex.
Record t := { writer : bool; readers : nat }.
Definition free : t := {| writer := false; readers := 0 |}.
Definition Lock : go t unit := λ m,
  if writer m || negb (Nat.eqb (readers m) 0) then Blocked m
  else Done tt {| writer := true; readers := readers m |}.
(** "It is a run-time error if rw is not locked for writing on entry to
    Unlock." *)
Definition Unlock : go t unit := λ m,
  if writer m then Done tt {| writer := false; readers := readers m |}
  else Fatal m.
Definition RLock : go t unit := λ m,
  if writer m then Blocked m
  else Done tt {| writer := false; readers := S (readers m) |}.
(** "It is a run-time error if rw is not locked for reading on entry to
    RUnlock." *)
Definition RUnlock : go t unit := λ m,
  match readers m with
  | O => Fatal m
  | S n => Done tt {| writer := writer m; readers := n |}
  end.
End RWMutex.

(** ** package quota (internal/quota/limiter.go) *)

Module quota.

Inductive error :=
| ErrAgentStreamLimitExceeded
| ErrDomainStreamLimitExceeded
| ErrAgentRateLimitExceeded
| ErrDomainRateLimitExceeded
| ErrGlobalStreamLimitExceeded
| ErrGlobalConnectionLimitExceeded.

(** [err.Error()] *)
Definition error_string (e : error) : string :=
  match e with
  | ErrAgentStreamLimitExceeded => "agent stream limit exceeded"
  | ErrDomainStreamLimitExceeded => "domain stream limit exceeded"
  | ErrAgentRateLimitExceeded => "agent rate limit exceeded"
  | ErrDomainRateLimitExceeded => "domain rate limit exceeded"
  | ErrGlobalStreamLimitExceeded => "global stream limit exceeded"
  | ErrGlobalConnectionLimitExceeded => "global connection limit exceeded"
  end.

(** [func min(a, b float64) float64] *)
Definition min (a b : float64) : float64 :=
  if f64.ltb a b then a else b.

Module TokenBucket.
Record t := {
  capacity : Z;        (* int *)
  tokens : float64;
  refillRate : float64;
  lastRefill : Time;
  mu : Mutex.t
}.

Definition set_tokens (x : float64) (tb : t) : t :=
  {| capacity := capacity tb; tokens := x; refillRate := refillRate tb;
     lastRefill := lastRefill tb; mu := mu tb |}.
Definition set_lastRefill (x : Time) (tb : t) : t :=
  {| capacity := capacity tb; tokens := tokens tb;
     refillRate := refillRate tb; lastRefill := x; mu := mu tb |}.
Definition set_mu (x : Mutex.t) (tb : t) : t :=
  {| capacity := capacity tb; tokens := tokens tb;
     refillRate := refillRate tb; lastRefill := lastRefill tb; mu := x |}.
Definition on_mu {A} : go Mutex.t A → go t A := zoom mu set_mu.

(** The three "Refill tokens" lines that open the critical section of
    [Allow], [AllowN] and [GetStats]:
      elapsed := now.Sub(tb.lastRefill).Seconds()
      tb.tokens = min(float64(tb.capacity), tb.tokens+elapsed*tb.refillRate)
      tb.lastRefill = now *)
Definition refill (now : Time) : go t unit :=
  elapsed ← gets (λ tb, Seconds (Sub now (lastRefill tb)));
  _ ← modify (λ tb,
        set_tokens (min (f64.of_int (capacity tb))
                        (f64.add (tokens tb)
                                 (f64.mul elapsed (refillRate tb)))) tb);
  modify (set_lastRefill now).

Definition Allow (now : Time) : go t bool :=
  _ ← on_mu Mutex.Lock;
  _ ← refill now;
  tk ← gets tokens;
  r ← (if f64.leb (f64.of_int 1) tk (* tb.tokens >= 1.0 *)
       then _ ← modify (set_tokens (f64.sub tk (f64.of_int 1))); mret true
       else mret false);
  _ ← on_mu Mutex.Unlock;
  mret r.

Definition AllowN (now : Time) (n : Z) : go t bool :=
  _ ← on_mu Mutex.Lock;
  _ ← refill now;
  tk ← gets tokens;
  r ← (if f64.leb (f64.of_int n) tk (* tb.tokens >= float64(n) *)
       then _ ← modify (set_tokens (f64.sub tk (f64.of_int n))); mret true
       else mret false);
  _ ← on_mu Mutex.Unlock;
  mret r.

Definition GetStats (now : Time) : go t (float64 * Z) :=
  _ ← on_mu Mutex.Lock;
  _ ← refill now;
  r ← gets (λ tb, (tokens tb, capacity tb));
  _ ← on_mu Mutex.Unlock;
  mret r.
End TokenBucket.

Definition NewTokenBucket (now : Time) (capacity refillRate : Z)
  : TokenBucket.t :=
  {| TokenBucket.capacity := capacity;
     TokenBucket.tokens := f64.of_int capacity;
     TokenBucket.refillRate := f64.of_int refillRate;
     TokenBucket.lastRefill := now;
     TokenBucket.mu := Mutex.free |}.

Module AgentLimit.
Record t := {
  AgentID : string;
  MaxStreams : Z;            (* int *)
  MaxBandwidth : Z;          (* int64 *)
  RateLimit : Z;             (* int *)
  TokenBucket : TokenBucket.t;
  CurrentStreams : Z;        (* int *)
  LastReset : Time;
  mu : RWMutex.t
}.

Definition set_TokenBucket (x : quota.TokenBucket.t) (a : t) : t :=
  {| AgentID := AgentID a; MaxStreams := MaxStreams a;
     MaxBandwidth := MaxBandwidth a; RateLimit := RateLimit a;
     TokenBucket := x; CurrentStreams := CurrentStreams a;
     LastReset := LastReset a; mu := mu a |}.
Definition set_CurrentStreams (x : Z) (a : t) : t :=
  {| AgentID := AgentID a; MaxStreams := MaxStreams a;
     MaxBandwidth := MaxBandwidth a; RateLimit := RateLimit a;
     TokenBucket := TokenBucket a; CurrentStreams := x;
     LastReset := LastReset a; mu := mu a |}.
Definition set_LastReset (x : Time) (a : t) : t :=
  {| AgentID := AgentID a; MaxStreams := MaxStreams a;
     MaxBandwidth := MaxBandwidth a; RateLimit := RateLimit a;
     TokenBucket := TokenBucket a; CurrentStreams := CurrentStreams a;
     LastReset := x; mu := mu a |}.
Definition set_mu (x : RWMutex.t) (a : t) : t :=
  {| AgentID := AgentID a; MaxStreams := MaxStreams a;
     MaxBandwidth := MaxBandwidth a; RateLimit := RateLimit a;
     TokenBucket := TokenBucket a; CurrentStreams := CurrentStreams a;
     LastReset := LastReset a; mu := x |}.
Definition on_mu {A} : go RWMutex.t A → go t A := zoom mu set_mu.
Definition on_TokenBucket {A} : go quota.TokenBucket.t A → go t A :=
  zoom TokenBucket set_TokenBucket.
End AgentLimit.

Module DomainLimit.
Record t := {
  Domain : string;
  MaxStreams : Z;
  RateLimit : Z;
  TokenBucket : TokenBucket.t;
  CurrentStreams : Z;
  LastReset : Time;
  mu : RWMutex.t
}.

Definition set_TokenBucket (x : quota.TokenBucket.t) (d : t) : t :=
  {| Domain := Domain d; MaxStreams := MaxStreams d;
     RateLimit := RateLimit d; TokenBucket := x;
     CurrentStreams := CurrentStreams d; LastReset := LastReset d;
     mu := mu d |}.
Definition set_CurrentStreams (x : Z) (d : t) : t :=
  {| Domain := Domain d; MaxStreams := MaxStreams d;
     RateLimit := RateLimit d; TokenBucket := TokenBucket d;
     CurrentStreams := x; LastReset := LastReset d; mu := mu d |}.
Definition set_LastReset (x : Time) (d : t) : t :=
  {| Domain := Domain d; MaxStreams := MaxStreams d;
     RateLimit := RateLimit d; TokenBucket := TokenBucket d;
     CurrentStreams := CurrentStreams d; LastReset := x; mu := mu d |}.
Definition set_mu (x : RWMutex.t) (d : t) : t :=
  {| Domain := Domain d; MaxStreams := MaxStreams d;
     RateLimit := RateLimit d; TokenBucket := TokenBucket d;
     CurrentStreams := CurrentStreams d; LastReset := LastReset d;
     mu := x |}.
Definition on_mu {A} : go RWMutex.t A → go t A := zoom mu set_mu.
Definition on_TokenBucket {A} : go quota.TokenBucket.t A → go t A :=
  zoom TokenBucket set_TokenBucket.
End DomainLimit.

Module Limiter.
(** [agentLimits] and [domainLimits] are maps to pointers; every limit
    object is referenced from exactly one key of one table, so the
    object is stored at its key. *)
Record t := {
  agentLimits : gmap string AgentLimit.t;
  agentMu : RWMutex.t;
  domainLimits : gmap string DomainLimit.t;
  domainMu : RWMutex.t;
  maxConnections : Z;
  maxStreams : Z
}.

Definition set_agentLimits (x : gmap string AgentLimit.t) (l : t) : t :=
  {| agentLimits := x; agentMu := agentMu l;
     domainLimits := domainLimits l; domainMu := domainMu l;
     maxConnections := maxConnections l; maxStreams := maxStreams l |}.
Definition set_agentMu (x : RWMutex.t) (l : t) : t :=
  {| agentLimits := agentLimits l; agentMu := x;
     domainLimits := domainLimits l; domainMu := domainMu l;
     maxConnections := maxConnections l; maxStreams := maxStreams l |}.
Definition set_domainLimits (x : gmap string DomainLimit.t) (l : t) : t :=
  {| agentLimits := agentLimits l; agentMu := agentMu l;
     domainLimits := x; domainMu := domainMu l;
     maxConnections := maxConnections l; maxStreams := maxStreams l |}.
Definition set_domainMu (x : RWMutex.t) (l : t) : t :=
  {| agentLimits := agentLimits l; agentMu := agentMu l;
     domainLimits := domainLimits l; domainMu := x;
     maxConnections := maxConnections l; maxStreams := maxStreams l |}.

Definition on_agentMu {A} : go RWMutex.t A → go t A :=
  zoom agentMu set_agentMu.
Definition on_domainMu {A} : go RWMutex.t A → go t A :=
  zoom domainMu set_domainMu.

(** A method call or field access through the pointer stored at a key.
    The pointer was read from the table by the caller; a nil
    dereference would panic. *)
Definition at_agent {A} (agentID : string) (c : go AgentLimit.t A)
  : go t A := λ l,
  match agentLimits l !! agentID with
  | Some limit =>
      zoom (λ _, limit)
           (λ limit' l, set_agentLimits (<[agentID := limit']> (agentLimits l)) l)
           c l
  | None => Fatal l
  end.
Definition at_domain {A} (domain : string) (c : go DomainLimit.t A)
  : go t A := λ l,
  match domainLimits l !! domain with
  | Some limit =>
      zoom (λ _, limit)
           (λ limit' l, set_domainLimits (<[domain := limit']> (domainLimits l)) l)
           c l
  | None => Fatal l
  end.

Definition SetAgentLimit (now : Time) (agentID : string)
    (maxStreams maxBandwidth rateLimit : Z) : go t unit :=
  _ ← on_agentMu RWMutex.Lock;
  let limit :=
    {| AgentLimit.AgentID := agentID;
       AgentLimit.MaxStreams := maxStreams;
       AgentLimit.MaxBandwidth := maxBandwidth;
       AgentLimit.RateLimit := rateLimit;
       AgentLimit.TokenBucket := NewTokenBucket now rateLimit rateLimit;
       AgentLimit.CurrentStreams := 0;
       AgentLimit.LastReset := now;
       AgentLimit.mu := RWMutex.free |} in
  _ ← modify (λ l, set_agentLimits (<[agentID := limit]> (agentLimits l)) l);
  on_agentMu RWMutex.Unlock.

Definition SetDomainLimit (now : Time) (domain : string)
    (maxStreams rateLimit : Z) : go t unit :=
  _ ← on_domainMu RWMutex.Lock;
  let limit :=
    {| DomainLimit.Domain := domain;
       DomainLimit.MaxStreams := maxStreams;
       DomainLimit.RateLimit := rateLimit;
       DomainLimit.TokenBucket := NewTokenBucket now rateLimit rateLimit;
       DomainLimit.CurrentStreams := 0;
       DomainLimit.LastReset := now;
       DomainLimit.mu := RWMutex.free |} in
  _ ← modify (λ l, set_domainLimits (<[domain := limit]> (domainLimits l)) l);
  on_domainMu RWMutex.Unlock.

Definition CheckAgentStreamLimit (agentID : string)
  : go t (option error) :=
  _ ← on_agentMu RWMutex.RLock;
  limit ← gets (λ l, agentLimits l !! agentID);
  _ ← on_agentMu RWMutex.RUnlock;
  match limit with
  | None => mret None (* No limit set, allow *)
  | Some _ =>
      at_agent agentID (
        _ ← AgentLimit.on_mu RWMutex.Lock;
        full ← gets (λ limit : AgentLimit.t,
                 AgentLimit.MaxStreams limit <=? AgentLimit.CurrentStreams limit);
        _ ← AgentLimit.on_mu RWMutex.Unlock;
        mret (if (full : bool) then Some ErrAgentStreamLimitExceeded else None))
  end.

Definition CheckDomainStreamLimit (domain : string)
  : go t (option error) :=
  _ ← on_domainMu RWMutex.RLock;
  limit ← gets (λ l, domainLimits l !! domain);
  _ ← on_domainMu RWMutex.RUnlock;
  match limit with
  | None => mret None
  | Some _ =>
      at_domain domain (
        _ ← DomainLimit.on_mu RWMutex.Lock;
        full ← gets (λ limit : DomainLimit.t,
                 DomainLimit.MaxStreams limit <=? DomainLimit.CurrentStreams limit);
        _ ← DomainLimit.on_mu RWMutex.Unlock;
        mret (if (full : bool) then Some ErrDomainStreamLimitExceeded else None))
  end.

Definition CheckAgentRateLimit (now : Time) (agentID : string)
  : go t (option error) :=
  _ ← on_agentMu RWMutex.RLock;
  limit ← gets (λ l, agentLimits l !! agentID);
  _ ← on_agentMu RWMutex.RUnlock;
  match limit with
  | None => mret None
  | Some _ =>
      ok ← at_agent agentID
             (AgentLimit.on_TokenBucket (TokenBucket.Allow now));
      mret (if (ok : bool) then None else Some ErrAgentRateLimitExceeded)
  end.

Definition CheckDomainRateLimit (now : Time) (domain : string)
  : go t (option error) :=
  _ ← on_domainMu RWMutex.RLock;
  limit ← gets (λ l, domainLimits l !! domain);
  _ ← on_domainMu RWMutex.RUnlock;
  match limit with
  | None => mret None
  | Some _ =>
      ok ← at_domain domain
             (DomainLimit.on_TokenBucket (TokenBucket.Allow now));
      mret (if (ok : bool) then None else Some ErrDomainRateLimitExceeded)
  end.

Definition AcquireStream (agentID domain : string)
  : go t (option error) :=
  (* Check agent limit *)
  err ← CheckAgentStreamLimit agentID;
  if err is Some e then mret (Some e) else
  (* Check domain limit *)
  err ← CheckDomainStreamLimit domain;
  if err is Some e then mret (Some e) else
  (* Acquire *)
  _ ← on_agentMu RWMutex.Lock;
  limit ← gets (λ l, agentLimits l !! agentID);
  _ ← (if limit is Some _ then
         at_agent agentID (
           _ ← AgentLimit.on_mu RWMutex.Lock;
           _ ← modify (λ limit : AgentLimit.t, AgentLimit.set_CurrentStreams
                  (wrap_int (AgentLimit.CurrentStreams limit + 1)) limit);
           AgentLimit.on_mu RWMutex.Unlock)
       else mret tt);
  _ ← on_agentMu RWMutex.Unlock;
  _ ← on_domainMu RWMutex.Lock;
  limit ← gets (λ l, domainLimits l !! domain);
  _ ← (if limit is Some _ then
         at_domain domain (
           _ ← DomainLimit.on_mu RWMutex.Lock;
           _ ← modify (λ limit : DomainLimit.t, DomainLimit.set_CurrentStreams
                  (wrap_int (DomainLimit.CurrentStreams limit + 1)) limit);
           DomainLimit.on_mu RWMutex.Unlock)
       else mret tt);
  _ ← on_domainMu RWMutex.Unlock;
  mret None.

Definition ReleaseStream (agentID domain : string) : go t unit :=
  _ ← on_agentMu RWMutex.Lock;
  limit ← gets (λ l, agentLimits l !! agentID);
  _ ← (if limit is Some _ then
         at_agent agentID (
           _ ← AgentLimit.on_mu RWMutex.Lock;
           _ ← modify (λ limit : AgentLimit.t,
                  if 0 <? AgentLimit.CurrentStreams limit
                  then AgentLimit.set_CurrentStreams
                         (wrap_int (AgentLimit.CurrentStreams limit - 1)) limit
                  else limit);
           AgentLimit.on_mu RWMutex.Unlock)
       else mret tt);
  _ ← on_agentMu RWMutex.Unlock;
  _ ← on_domainMu RWMutex.Lock;
  limit ← gets (λ l, domainLimits l !! domain);
  _ ← (if limit is Some _ then
         at_domain domain (
           _ ← DomainLimit.on_mu RWMutex.Lock;
           _ ← modify (λ limit : DomainLimit.t,
                  if 0 <? DomainLimit.CurrentStreams limit
                  then DomainLimit.set_CurrentStreams
                         (wrap_int (DomainLimit.CurrentStreams limit - 1)) limit
                  else limit);
           DomainLimit.on_mu RWMutex.Unlock)
       else mret tt);
  on_domainMu RWMutex.Unlock.

(** [now1] and [now2] are the clock readings of the two rate checks. *)
Definition CheckRequest (now1 now2 : Time) (agentID domain : string)
  : go t (option error) :=
  err ← CheckAgentRateLimit now1 agentID;
  if err is Some e then mret (Some e) else
  err ← CheckDomainRateLimit now2 domain;
  if err is Some e then mret (Some e) else
  err ← CheckAgentStreamLimit agentID;
  if err is Some e then mret (Some e) else
  err ← CheckDomainStreamLimit domain;
  if err is Some e then mret (Some e) else
  mret None.

Definition GetAgentLimit (agentID : string)
  : go t (option AgentLimit.t) :=
  _ ← on_agentMu RWMutex.RLock;
  limit ← gets (λ l, agentLimits l !! agentID);
  _ ← on_agentMu RWMutex.RUnlock;   (* defer l.agentMu.RUnlock() *)
  mret limit.

Definition GetDomainLimit (domain : string)
  : go t (option DomainLimit.t) :=
  _ ← on_domainMu RWMutex.RLock;
  limit ← gets (λ l, domainLimits l !! domain);
  _ ← on_domainMu RWMutex.Unlock;   (* defer l.domainMu.Unlock() *)
  mret limit.

Definition ResetAgentLimits (now : Time) (agentID : string) : go t unit :=
  _ ← on_agentMu RWMutex.Lock;
  limit ← gets (λ l, agentLimits l !! agentID);
  _ ← (if limit is Some _ then
         at_agent agentID (
           _ ← AgentLimit.on_mu RWMutex.Lock;
           _ ← modify (AgentLimit.set_CurrentStreams 0);
           _ ← modify (λ limit : AgentLimit.t, AgentLimit.set_TokenBucket
                  (NewTokenBucket now (AgentLimit.RateLimit limit)
                                      (AgentLimit.RateLimit limit)) limit);
           _ ← modify (AgentLimit.set_LastReset now);
           AgentLimit.on_mu RWMutex.Unlock)
       else mret tt);
  on_agentMu RWMutex.Unlock.

Definition ResetDomainLimits (now : Time) (domain : string) : go t unit :=
  _ ← on_domainMu RWMutex.Lock;
  limit ← gets (λ l, domainLimits l !! domain);
  _ ← (if limit is Some _ then
         at_domain domain (
           _ ← DomainLimit.on_mu RWMutex.Lock;
           _ ← modify (DomainLimit.set_CurrentStreams 0);
           _ ← modify (λ limit : DomainLimit.t, DomainLimit.set_TokenBucket
                  (NewTokenBucket now (DomainLimit.RateLimit limit)
                                      (DomainLimit.RateLimit limit)) limit);
           _ ← modify (DomainLimit.set_LastReset now);
           DomainLimit.on_mu RWMutex.Unlock)
       else mret tt);
  on_domainMu RWMutex.Unlock.
End Limiter.

Definition NewLimiter (maxConnections maxStreams : Z) : Limiter.t :=
  {| Limiter.agentLimits := ∅; Limiter.agentMu := RWMutex.free;
     Limiter.domainLimits := ∅; Limiter.domainMu := RWMutex.free;
     Limiter.maxConnections := maxConnections;
     Limiter.maxStreams := maxStreams |}.

End quota.

(** ** Helpers shared by the packages below *)

(** Addresses of heap objects. *)
Definition addr := positive.

(** [for _, x := range xs { f(x) }] *)
Fixpoint for_each {S A} (xs : list A) (f : A → go S unit) : go S unit :=
  match xs with
  | [] => mret tt
  | x :: rest => _ ← f x; for_each rest f
  end.

(** ** package registry (internal/registry/tunnel.go) *)

Module registry.

(** The error values of the registry, declared at the end of
    src/unnamed/part_001. *)
Inductive error :=
| ErrDomainMismatch
| ErrDomainAlreadyRegistered
| ErrTunnelNotFound.

Module Tunnel.
Record t := {
  Domain : string;
  Subdomain : string;
  FullDomain : string;
  ConnectionID : string;
  AgentID : string;
  CreatedAt : Time;
  LastAccess : Time;
  Metadata : gmap string string
}.
Definition set_LastAccess (x : Time) (tn : t) : t :=
  {| Domain := Domain tn; Subdomain := Subdomain tn;
     FullDomain := FullDomain tn; ConnectionID := ConnectionID tn;
     AgentID := AgentID tn; CreatedAt := CreatedAt tn;
     LastAccess := x; Metadata := Metadata tn |}.
Definition set_Metadata (x : gmap string string) (tn : t) : t :=
  {| Domain := Domain tn; Subdomain := Subdomain tn;
     FullDomain := FullDomain tn; ConnectionID := ConnectionID tn;
     AgentID := AgentID tn; CreatedAt := CreatedAt tn;
     LastAccess := LastAccess tn; Metadata := x |}.
End Tunnel.

Module Registry.
(** [mem] holds the [Tunnel] objects; [tunnels] and the inner maps of
    [connTunnels] hold pointers into it, and the same pointer is stored
    in both indices. *)
Record t := {
  mem : gmap addr Tunnel.t;
  tunnels : gmap string addr;                  (* fullDomain -> *Tunnel *)
  tunnelsMu : RWMutex.t;
  connTunnels : gmap string (gmap string addr); (* connectionID -> fullDomain -> *Tunnel *)
  connTunnelsMu : RWMutex.t;
  baseDomain : string
}.

Definition set_mem (x : gmap addr Tunnel.t) (r : t) : t :=
  {| mem := x; tunnels := tunnels r; tunnelsMu := tunnelsMu r;
     connTunnels := connTunnels r; connTunnelsMu := connTunnelsMu r;
     baseDomain := baseDomain r |}.
Definition set_tunnels (x : gmap string addr) (r : t) : t :=
  {| mem := mem r; tunnels := x; tunnelsMu := tunnelsMu r;
     connTunnels := connTunnels r; connTunnelsMu := connTunnelsMu r;
     baseDomain := baseDomain r |}.
Definition set_tunnelsMu (x : RWMutex.t) (r : t) : t :=
  {| mem := mem r; tunnels := tunnels r; tunnelsMu := x;
     connTunnels := connTunnels r; connTunnelsMu := connTunnelsMu r;
     baseDomain := baseDomain r |}.
Definition set_connTunnels (x : gmap string (gmap string addr)) (r : t) : t :=
  {| mem := mem r; tunnels := tunnels r; tunnelsMu := tunnelsMu r;
     connTunnels := x; connTunnelsMu := connTunnelsMu r;
     baseDomain := baseDomain r |}.
Definition set_connTunnelsMu (x : RWMutex.t) (r : t) : t :=
  {| mem := mem r; tunnels := tunnels r; tunnelsMu := tunnelsMu r;
     connTunnels := connTunnels r; connTunnelsMu := x;
     baseDomain := baseDomain r |}.

Definition on_tunnelsMu {A} : go RWMutex.t A → go t A :=
  zoom tunnelsMu set_tunnelsMu.
Definition on_connTunnelsMu {A} : go RWMutex.t A → go t A :=
  zoom connTunnelsMu set_connTunnelsMu.

(** Access through a [*Tunnel]. *)
Definition at_tunnel {A} (p : addr) (c : go Tunnel.t A) : go t A := λ r,
  match mem r !! p with
  | Some tn => zoom (λ _, tn) (λ tn' r, set_mem (<[p := tn']> (mem r)) r) c r
  | None => Fatal r
  end.

(** [&Tunnel{...}]: a fresh object. *)
Definition new_tunnel (tn : Tunnel.t) : go t addr := λ r,
  let p := fresh (dom (mem r)) in
  Done p (set_mem (<[p := tn]> (mem r)) r).

Definition buildFullDomain (r : t) (subdomain : string) : string :=
  if bool_decide (subdomain = EmptyString) then baseDomain r
  else subdomain +:+ "." +:+ baseDomain r.

Definition RegisterTunnel (now : Time)
    (domain subdomain connectionID agentID : string)
    (metadata : gmap string string) : go t (error + addr) :=
  (* Build full domain *)
  fullDomain ← gets (λ r, buildFullDomain r subdomain);
  (* Validate *)
  if bool_decide (domain ≠ EmptyString) && bool_decide (domain ≠ fullDomain)
  then mret (inl ErrDomainMismatch) else
  _ ← on_tunnelsMu RWMutex.Lock;
  (* Check duplicate *)
  existing ← gets (λ r, tunnels r !! fullDomain);
  match existing with
  | Some p =>
      cid ← at_tunnel p (gets Tunnel.ConnectionID);
      if bool_decide (cid ≠ connectionID) then
        _ ← on_tunnelsMu RWMutex.Unlock;
        mret (inl ErrDomainAlreadyRegistered)
      else
        (* Same connection, update metadata *)
        _ ← at_tunnel p (modify (Tunnel.set_Metadata metadata));
        _ ← at_tunnel p (modify (Tunnel.set_LastAccess now));
        _ ← on_tunnelsMu RWMutex.Unlock;
        mret (inr p)
  | None =>
      (* Create tunnel *)
      tunnel ← new_tunnel
        {| Tunnel.Domain := domain; Tunnel.Subdomain := subdomain;
           Tunnel.FullDomain := fullDomain;
           Tunnel.ConnectionID := connectionID;
           Tunnel.AgentID := agentID; Tunnel.CreatedAt := now;
           Tunnel.LastAccess := now; Tunnel.Metadata := metadata |};
      _ ← modify (λ r, set_tunnels (<[fullDomain := tunnel]> (tunnels r)) r);
      (* Track by connection *)
      _ ← on_connTunnelsMu RWMutex.Lock;
      _ ← modify (λ r,
            if connTunnels r !! connectionID is None
            then set_connTunnels (<[connectionID := ∅]> (connTunnels r)) r
            else r);
      _ ← modify (λ r,
            set_connTunnels
              (<[connectionID :=
                   <[fullDomain := tunnel]>
                     (default ∅ (connTunnels r !! connectionID))]>
                 (connTunnels r)) r);
      _ ← on_connTunnelsMu RWMutex.Unlock;
      _ ← on_tunnelsMu RWMutex.Unlock;
      mret (inr tunnel)
  end.

(** [GetTunnel] without the goroutine it spawns; that goroutine is
    [GetTunnel_refresh], run by the scheduler at some later point. *)
Definition GetTunnel (domain : string) : go t (option addr) :=
  _ ← on_tunnelsMu RWMutex.RLock;
  tunnel ← gets (λ r, tunnels r !! domain);
  _ ← on_tunnelsMu RWMutex.RUnlock;
  mret tunnel.


Definition UnregisterTunnel (domain : string) : go t (option error) :=
  _ ← on_tunnelsMu RWMutex.Lock;
  tunnel ← gets (λ r, tunnels r !! domain);
  _ ← (if tunnel is Some _
       then modify (λ r, set_tunnels (delete domain (tunnels r)) r)
       else mret tt);
  _ ← on_tunnelsMu RWMutex.Unlock;
  match tunnel with
  | None => mret (Some ErrTunnelNotFound)
  | Some p =>
      (* Remove from connection tracking *)
      _ ← on_connTunnelsMu RWMutex.Lock;
      cid ← at_tunnel p (gets Tunnel.ConnectionID);
      _ ← modify (λ r,
            match connTunnels r !! cid with
            | Some connTunnels_cid =>
                let m := delete domain connTunnels_cid in
                if bool_decide (size m = 0%nat)
                then set_connTunnels (delete cid (connTunnels r)) r
                else set_connTunnels (<[cid := m]> (connTunnels r)) r
            | None => r
            end);
      _ ← on_connTunnelsMu RWMutex.Unlock;
      mret None
  end.

(** The body of the final loop, for any order in which the snapshot of
    domains is visited. *)
Definition unregister_each (domains : list string) : go t unit :=
  for_each domains (λ domain, _ ← UnregisterTunnel domain; mret tt).

(** The snapshot is taken in the iteration order of the inner map; Go
    leaves that order unspecified, [map_to_list] fixes one. *)
Definition UnregisterConnectionTunnels (connectionID : string)
  : go t unit :=
  _ ← on_connTunnelsMu RWMutex.RLock;
  connTunnels_cid ← gets (λ r, connTunnels r !! connectionID);
  match connTunnels_cid with
  | None => on_connTunnelsMu RWMutex.RUnlock
  | Some m =>
      (* Copy domains to unlock early *)
      let domains := (map_to_list m).*1 in
      _ ← on_connTunnelsMu RWMutex.RUnlock;
      unregister_each domains
  end.


(** A nil slice is the empty list. *)
Definition GetConnectionTunnels (connectionID : string)
  : go t (list addr) :=
  _ ← on_connTunnelsMu RWMutex.RLock;
  connTunnels_cid ← gets (λ r, connTunnels r !! connectionID);
  match connTunnels_cid with
  | None => _ ← on_connTunnelsMu RWMutex.RUnlock; mret []
  | Some m =>
      let listed := (map_to_list m).*2 in
      _ ← on_connTunnelsMu RWMutex.RUnlock;
      mret listed
  end.

Definition GetBaseDomain : go t string := gets baseDomain.
End Registry.

Definition NewRegistry (baseDomain : string) : Registry.t :=
  {| Registry.mem := ∅;
     Registry.tunnels := ∅; Registry.tunnelsMu := RWMutex.free;
     Registry.connTunnels := ∅; Registry.connTunnelsMu := RWMutex.free;
     Registry.baseDomain := baseDomain |}.

End registry.

(** ** Byte slices and channels *)

(** [[]byte]: a byte sequence, written as a string. *)
Definition bytes := string.

(** A Go channel: its capacity, the values queued in it, and whether it
    has been closed. *)
Record chan (A : Type) := { cap : nat; buf : list A; chan_closed : bool }.
Arguments cap {A} _.
Arguments buf {A} _.
Arguments chan_closed {A} _.

Definition make_chan {A} (n : nat) : chan A :=
  {| cap := n; buf := []; chan_closed := false |}.

(** [close(ch)]; closing a closed channel panics. *)
Definition close {A} : go (chan A) unit := λ ch,
  if chan_closed ch then Fatal ch
  else Done tt {| cap := cap ch; buf := buf ch; chan_closed := true |}.

(** A send that does not have to wait: there is room in the buffer. *)
Definition can_send {A} (ch : chan A) : bool :=
  bool_decide (length (buf ch) < cap ch)%nat.
Definition enqueue {A} (x : A) (ch : chan A) : chan A :=
  {| cap := cap ch; buf := buf ch ++ [x]; chan_closed := chan_closed ch |}.

(** ** package v1 of the wire protocol *)

(** Modelled from the spec: the frame envelope of the protocol module
    (github.com/hydragon2m/tunnel-protocol/go/v1), whose sources are not
    part of this repository.  Fields [version, type, flags, stream_id,
    payload]; the types the core needs are AUTH, HEARTBEAT, CLOSE,
    OPEN_STREAM and DATA, the flags NONE, END_STREAM and ACK; stream id 0
    denotes a control frame. *)

Module v1.
Inductive FrameType :=
| FrameAuth | FrameHeartbeat | FrameClose | FrameOpenStream | FrameData
| FrameOther (code : Z).

Record Flags := { EndStream : bool; Ack : bool }.
Definition FlagNone : Flags := {| EndStream := false; Ack := false |}.
Definition FlagEndStream : Flags := {| EndStream := true; Ack := false |}.
Definition FlagAck : Flags := {| EndStream := false; Ack := true |}.

Definition Version : Z := 1.
Definition StreamIDControl : Z := 0.

Record Frame := {
  FVersion : Z;
  Type_ : FrameType;
  FFlags : Flags;
  StreamID : Z;          (* uint32 *)
  Payload : bytes
}.

Definition IsControlFrame (f : Frame) : bool := StreamID f =? StreamIDControl.
Definition IsEndStream (f : Frame) : bool := EndStream (FFlags f).
End v1.

(** ** package connection (internal/connection/manager.go) *)

Module connection.

Inductive error :=
| ErrMaxConnections
| ErrConnectionExists
| ErrConnectionNotFound
| ErrConnectionClosed
| ErrConnectionClosedByAgent
| ErrStreamExists
| ErrStreamNotFound
| ErrStreamClosed
| ErrInvalidControlFrame
| ErrInvalidStreamFrame
| ErrContextCanceled     (* c.ctx.Err() *)
| ErrIO.                 (* an error of the socket or of the codec *)

(** [err.Error()] *)
Definition error_string (e : error) : string :=
  match e with
  | ErrMaxConnections => "max connections reached"
  | ErrConnectionExists => "connection already exists"
  | ErrConnectionNotFound => "connection not found"
  | ErrConnectionClosed => "connection closed"
  | ErrConnectionClosedByAgent => "connection closed by agent"
  | ErrStreamExists => "stream already exists"
  | ErrStreamNotFound => "stream not found"
  | ErrStreamClosed => "stream closed"
  | ErrInvalidControlFrame => "invalid control frame"
  | ErrInvalidStreamFrame => "invalid stream frame"
  | ErrContextCanceled => "context canceled"
  | ErrIO => "i/o error"
  end.

(** The [Conn] interface: the socket of one agent.  [written] collects
    the frames encoded to it; [write_errors] is the environment's script
    for the next writes ([true]: the write fails). *)
Module Conn.
Record t := {
  sock_closed : bool;
  written : list v1.Frame;
  write_errors : list bool
}.
Definition Close : go t (option error) := λ s,
  if sock_closed s then Done (Some ErrIO) s
  else Done None {| sock_closed := true; written := written s;
                    write_errors := write_errors s |}.
(** Modelled from the spec: [v1.Encode(conn, frame)], the encoder of the
    protocol module.  It writes the frame to the socket or fails; the
    connection treats any encoder error as fatal for the call. *)
Definition Encode (frame : v1.Frame) : go t (option error) := λ s,
  if sock_closed s then Done (Some ErrIO) s else
  match write_errors s with
  | true :: rest =>
      Done (Some ErrIO) {| sock_closed := false; written := written s;
                           write_errors := rest |}
  | false :: rest =>
      Done None {| sock_closed := false; written := written s ++ [frame];
                   write_errors := rest |}
  | [] =>
      Done None {| sock_closed := false; written := written s ++ [frame];
                   write_errors := [] |}
  end.
End Conn.

Inductive StreamState :=
| StreamStateInit
| StreamStateOpen
| StreamStateData
| StreamStateClosed
| StreamStateError.

Module Stream.
Record t := {
  ID : Z;                      (* uint32 *)
  State : StreamState;
  CreatedAt : Time;
  Metadata : gmap string string;
  dataIn : chan bytes;
  dataOut : chan bytes;
  closeCh : chan unit;
  mu : RWMutex.t
}.

Definition set_State (x : StreamState) (s : t) : t :=
  {| ID := ID s; State := x; CreatedAt := CreatedAt s;
     Metadata := Metadata s; dataIn := dataIn s; dataOut := dataOut s;
     closeCh := closeCh s; mu := mu s |}.
Definition set_dataIn (x : chan bytes) (s : t) : t :=
  {| ID := ID s; State := State s; CreatedAt := CreatedAt s;
     Metadata := Metadata s; dataIn := x; dataOut := dataOut s;
     closeCh := closeCh s; mu := mu s |}.
Definition set_closeCh (x : chan unit) (s : t) : t :=
  {| ID := ID s; State := State s; CreatedAt := CreatedAt s;
     Metadata := Metadata s; dataIn := dataIn s; dataOut := dataOut s;
     closeCh := x; mu := mu s |}.
Definition set_mu (x : RWMutex.t) (s : t) : t :=
  {| ID := ID s; State := State s; CreatedAt := CreatedAt s;
     Metadata := Metadata s; dataIn := dataIn s; dataOut := dataOut s;
     closeCh := closeCh s; mu := x |}.
Definition on_mu {A} : go RWMutex.t A → go t A := zoom mu set_mu.
Definition on_closeCh {A} : go (chan unit) A → go t A :=
  zoom closeCh set_closeCh.

Definition setState (state : StreamState) : go t unit :=
  _ ← on_mu RWMutex.Lock;
  _ ← modify (set_State state);
  on_mu RWMutex.Unlock.

Definition DataIn (s : t) : chan bytes := dataIn s.
Definition CloseCh (s : t) : chan unit := closeCh s.

Definition GetState : go t StreamState :=
  _ ← on_mu RWMutex.RLock;
  st ← gets State;
  _ ← on_mu RWMutex.RUnlock;
  mret st.
End Stream.

(** The cases of the [select] in the DATA branch of [handleStreamFrame],
    in source order. *)
Inductive select_case := SelSend | SelStreamClosed | SelCtxDone.

Module Connection.
(** [mem] holds the [Stream] objects; [streams] maps a stream id to the
    pointer.  [cancelled] is the state of [ctx] ([cancel] sets it). *)
Record t := {
  ID : string;
  Conn : Conn.t;
  AgentID : string;
  Metadata : gmap string string;
  CreatedAt : Time;
  LastHeartbeat : Time;
  mem : gmap addr Stream.t;
  streams : gmap Z addr;
  streamsMu : RWMutex.t;
  nextStreamID : Z;            (* uint32 *)
  cancelled : bool;
  closed : bool;
  closedMu : RWMutex.t
}.

Definition set_Conn (x : Conn.t) (c : t) : t :=
  {| ID := ID c; Conn := x; AgentID := AgentID c; Metadata := Metadata c;
     CreatedAt := CreatedAt c; LastHeartbeat := LastHeartbeat c;
     mem := mem c; streams := streams c; streamsMu := streamsMu c;
     nextStreamID := nextStreamID c; cancelled := cancelled c;
     closed := closed c; closedMu := closedMu c |}.
Definition set_LastHeartbeat (x : Time) (c : t) : t :=
  {| ID := ID c; Conn := Conn c; AgentID := AgentID c;
     Metadata := Metadata c; CreatedAt := CreatedAt c;
     LastHeartbeat := x; mem := mem c; streams := streams c;
     streamsMu := streamsMu c; nextStreamID := nextStreamID c;
     cancelled := cancelled c; closed := closed c;
     closedMu := closedMu c |}.
Definition set_mem (x : gmap addr Stream.t) (c : t) : t :=
  {| ID := ID c; Conn := Conn c; AgentID := AgentID c;
     Metadata := Metadata c; CreatedAt := CreatedAt c;
     LastHeartbeat := LastHeartbeat c; mem := x; streams := streams c;
     streamsMu := streamsMu c; nextStreamID := nextStreamID c;
     cancelled := cancelled c; closed := closed c;
     closedMu := closedMu c |}.
Definition set_streams (x : gmap Z addr) (c : t) : t :=
  {| ID := ID c; Conn := Conn c; AgentID := AgentID c;
     Metadata := Metadata c; CreatedAt := CreatedAt c;
     LastHeartbeat := LastHeartbeat c; mem := mem c; streams := x;
     streamsMu := streamsMu c; nextStreamID := nextStreamID c;
     cancelled := cancelled c; closed := closed c;
     closedMu := closedMu c |}.
Definition set_streamsMu (x : RWMutex.t) (c : t) : t :=
  {| ID := ID c; Conn := Conn c; AgentID := AgentID c;
     Metadata := Metadata c; CreatedAt := CreatedAt c;
     LastHeartbeat := LastHeartbeat c; mem := mem c;
     streams := streams c; streamsMu := x;
     nextStreamID := nextStreamID c; cancelled := cancelled c;
     closed := closed c; closedMu := closedMu c |}.
Definition set_nextStreamID (x : Z) (c : t) : t :=
  {| ID := ID c; Conn := Conn c; AgentID := AgentID c;
     Metadata := Metadata c; CreatedAt := CreatedAt c;
     LastHeartbeat := LastHeartbeat c; mem := mem c;
     streams := streams c; streamsMu := streamsMu c; nextStreamID := x;
     cancelled := cancelled c; closed := closed c;
     closedMu := closedMu c |}.
Definition set_cancelled (x : bool) (c : t) : t :=
  {| ID := ID c; Conn := Conn c; AgentID := AgentID c;
     Metadata := Metadata c; CreatedAt := CreatedAt c;
     LastHeartbeat := LastHeartbeat c; mem := mem c;
     streams := streams c; streamsMu := streamsMu c;
     nextStreamID := nextStreamID c; cancelled := x; closed := closed c;
     closedMu := closedMu c |}.
Definition set_closed (x : bool) (c : t) : t :=
  {| ID := ID c; Conn := Conn c; AgentID := AgentID c;
     Metadata := Metadata c; CreatedAt := CreatedAt c;
     LastHeartbeat := LastHeartbeat c; mem := mem c;
     streams := streams c; streamsMu := streamsMu c;
     nextStreamID := nextStreamID c; cancelled := cancelled c;
     closed := x; closedMu := closedMu c |}.
Definition set_closedMu (x : RWMutex.t) (c : t) : t :=
  {| ID := ID c; Conn := Conn c; AgentID := AgentID c;
     Metadata := Metadata c; CreatedAt := CreatedAt c;
     LastHeartbeat := LastHeartbeat c; mem := mem c;
     streams := streams c; streamsMu := streamsMu c;
     nextStreamID := nextStreamID c; cancelled := cancelled c;
     closed := closed c; closedMu := x |}.
Definition on_streamsMu {A} : go RWMutex.t A → go t A :=
  zoom streamsMu set_streamsMu.
Definition on_closedMu {A} : go RWMutex.t A → go t A :=
  zoom closedMu set_closedMu.
Definition on_Conn {A} : go Conn.t A → go t A := zoom Conn set_Conn.

(** Access through a [*Stream]. *)
Definition at_stream {A} (p : addr) (k : go Stream.t A) : go t A := λ c,
  match mem c !! p with
  | Some s => zoom (λ _, s) (λ s' c, set_mem (<[p := s']> (mem c)) c) k c
  | None => Fatal c
  end.

(** [&Stream{...}]: a fresh object. *)
Definition new_stream (s : Stream.t) : go t addr := λ c,
  let p := fresh (dom (mem c)) in
  Done p (set_mem (<[p := s]> (mem c)) c).

Definition createStream (now : Time) (streamID : Z) : go t addr :=
  _ ← on_streamsMu RWMutex.Lock;
  stream ← new_stream
    {| Stream.ID := streamID; Stream.State := StreamStateInit;
       Stream.CreatedAt := now; Stream.Metadata := ∅;
       Stream.dataIn := make_chan 10; Stream.dataOut := make_chan 10;
       Stream.closeCh := make_chan 0; Stream.mu := RWMutex.free |};
  _ ← modify (λ c, set_streams (<[streamID := stream]> (streams c)) c);
  _ ← on_streamsMu RWMutex.Unlock;
  mret stream.

Definition closeStream (streamID : Z) : go t unit :=
  _ ← on_streamsMu RWMutex.Lock;
  stream ← gets (λ c, streams c !! streamID);
  match stream with
  | None => on_streamsMu RWMutex.Unlock
  | Some p =>
      _ ← at_stream p (Stream.on_closeCh close);
      _ ← modify (λ c, set_streams (delete streamID (streams c)) c);
      on_streamsMu RWMutex.Unlock
  end.

Definition GetStream (streamID : Z) : go t (option addr) :=
  _ ← on_streamsMu RWMutex.RLock;
  stream ← gets (λ c, streams c !! streamID);
  _ ← on_streamsMu RWMutex.RUnlock;
  mret stream.

Definition AllocateStreamID : go t Z :=
  _ ← on_streamsMu RWMutex.Lock;
  streamID ← gets nextStreamID;
  _ ← modify (λ c, set_nextStreamID (wrap_uint32 (nextStreamID c + 1)) c);
  _ ← on_streamsMu RWMutex.Unlock;
  mret streamID.

Definition SendFrame (frame : v1.Frame) : go t (option error) :=
  _ ← on_closedMu RWMutex.RLock;
  cl ← gets closed;
  if (cl : bool) then
    _ ← on_closedMu RWMutex.RUnlock;
    mret (Some ErrConnectionClosed)
  else
    _ ← on_closedMu RWMutex.RUnlock;
    on_Conn (Conn.Encode frame).

(** The loop [for streamID := range c.streams] visits the keys of the
    table in an unspecified order; [map_to_list] fixes one.  The body
    deletes only the key it is visiting. *)
Definition Close : go t (option error) :=
  _ ← on_closedMu RWMutex.Lock;
  cl ← gets closed;
  if (cl : bool) then
    _ ← on_closedMu RWMutex.Unlock;
    mret None
  else
    _ ← modify (set_closed true);
    _ ← on_closedMu RWMutex.Unlock;
    _ ← modify (set_cancelled true);          (* c.cancel() *)
    (* Close all streams *)
    _ ← on_streamsMu RWMutex.Lock;
    ids ← gets (λ c, (map_to_list (streams c)).*1);
    _ ← for_each ids closeStream;
    _ ← on_streamsMu RWMutex.Unlock;
    on_Conn Conn.Close.

Definition updateHeartbeat (now : Time) : go t unit :=
  _ ← on_closedMu RWMutex.Lock;
  _ ← modify (set_LastHeartbeat now);
  on_closedMu RWMutex.Unlock.

(** The [select] that forwards a DATA payload to the stream behind
    [p].  A case is ready when its channel operation can proceed; the
    scheduler's choice among the ready cases is [pick], and when
    [pick] is not ready the first ready case in source order is taken.
    With no case ready the goroutine waits. *)
Definition ready (p : addr) (k : select_case) (c : t) : bool :=
  match k with
  | SelSend => if mem c !! p is Some s then can_send (Stream.dataIn s) else false
  | SelStreamClosed =>
      if mem c !! p is Some s then chan_closed (Stream.closeCh s) else false
  | SelCtxDone => cancelled c
  end.

Definition select_data (p : addr) (payload : bytes) (pick : select_case)
  : go t select_case := λ c,
  let chosen :=
    if ready p pick c then Some pick
    else if ready p SelSend c then Some SelSend
    else if ready p SelStreamClosed c then Some SelStreamClosed
    else if ready p SelCtxDone c then Some SelCtxDone
    else None in
  match chosen with
  | None => Blocked c
  | Some SelSend =>
      at_stream p
        (_ ← modify (λ s, Stream.set_dataIn (enqueue payload (Stream.dataIn s)) s);
         mret SelSend) c
  | Some k => Done k c
  end.
End Connection.

(** An invocation of one of the manager's callbacks. *)
Inductive call :=
| ConnectionClosed (connID : string)
| StreamCreated (connID : string) (streamID : Z)
| StreamClosed (connID : string) (streamID : Z).

(** What the main loop of [handleConnection] receives in one turn of its
    [select]; clock readings are those taken while the turn runs. *)
Inductive event :=
| EvDone                                   (* <-c.ctx.Done() *)
| EvTick (now : Time)                      (* <-ticker.C *)
| EvFrame (now : Time) (frame : v1.Frame) (pick : select_case)
                                           (* frame := <-frameCh *)
| EvError.                                 (* err := <-errCh *)

(** Whether [handleConnection] is still in its loop, waiting for the
    next event, or has returned. *)
Inductive loop_state := Looping | Returned.

Module Manager.
(** [mem] holds the [Connection] objects.  A callback field is [true]
    when a function is installed (non-nil); [calls] records the
    callback invocations in order. *)
Record t := {
  mem : gmap addr Connection.t;
  connections : gmap string addr;
  connsMu : RWMutex.t;
  maxConnections : Z;
  heartbeatTimeout : Duration;
  onConnectionClosed : bool;
  onStreamCreated : bool;
  onStreamClosed : bool;
  calls : list call
}.

Definition set_mem (x : gmap addr Connection.t) (m : t) : t :=
  {| mem := x; connections := connections m; connsMu := connsMu m;
     maxConnections := maxConnections m;
     heartbeatTimeout := heartbeatTimeout m;
     onConnectionClosed := onConnectionClosed m;
     onStreamCreated := onStreamCreated m;
     onStreamClosed := onStreamClosed m; calls := calls m |}.
Definition set_connections (x : gmap string addr) (m : t) : t :=
  {| mem := mem m; connections := x; connsMu := connsMu m;
     maxConnections := maxConnections m;
     heartbeatTimeout := heartbeatTimeout m;
     onConnectionClosed := onConnectionClosed m;
     onStreamCreated := onStreamCreated m;
     onStreamClosed := onStreamClosed m; calls := calls m |}.
Definition set_connsMu (x : RWMutex.t) (m : t) : t :=
  {| mem := mem m; connections := connections m; connsMu := x;
     maxConnections := maxConnections m;
     heartbeatTimeout := heartbeatTimeout m;
     onConnectionClosed := onConnectionClosed m;
     onStreamCreated := onStreamCreated m;
     onStreamClosed := onStreamClosed m; calls := calls m |}.
Definition set_onConnectionClosed (x : bool) (m : t) : t :=
  {| mem := mem m; connections := connections m; connsMu := connsMu m;
     maxConnections := maxConnections m;
     heartbeatTimeout := heartbeatTimeout m; onConnectionClosed := x;
     onStreamCreated := onStreamCreated m;
     onStreamClosed := onStreamClosed m; calls := calls m |}.
Definition set_onStreamCreated (x : bool) (m : t) : t :=
  {| mem := mem m; connections := connections m; connsMu := connsMu m;
     maxConnections := maxConnections m;
     heartbeatTimeout := heartbeatTimeout m;
     onConnectionClosed := onConnectionClosed m; onStreamCreated := x;
     onStreamClosed := onStreamClosed m; calls := calls m |}.
Definition set_onStreamClosed (x : bool) (m : t) : t :=
  {| mem := mem m; connections := connections m; connsMu := connsMu m;
     maxConnections := maxConnections m;
     heartbeatTimeout := heartbeatTimeout m;
     onConnectionClosed := onConnectionClosed m;
     onStreamCreated := onStreamCreated m; onStreamClosed := x;
     calls := calls m |}.
Definition set_calls (x : list call) (m : t) : t :=
  {| mem := mem m; connections := connections m; connsMu := connsMu m;
     maxConnections := maxConnections m;
     heartbeatTimeout := heartbeatTimeout m;
     onConnectionClosed := onConnectionClosed m;
     onStreamCreated := onStreamCreated m;
     onStreamClosed := onStreamClosed m; calls := x |}.
Definition on_connsMu {A} : go RWMutex.t A → go t A :=
  zoom connsMu set_connsMu.

(** Access through a [*Connection]. *)
Definition at_conn {A} (p : addr) (k : go Connection.t A) : go t A := λ m,
  match mem m !! p with
  | Some c => zoom (λ _, c) (λ c' m, set_mem (<[p := c']> (mem m)) m) k m
  | None => Fatal m
  end.

Definition new_conn (c : Connection.t) : go t addr := λ m,
  let p := fresh (dom (mem m)) in
  Done p (set_mem (<[p := c]> (mem m)) m).

(** Invoke a callback. *)
Definition invoke (k : call) : go t unit :=
  modify (λ m, set_calls (calls m ++ [k]) m).

(** [RegisterConnection] up to the [go m.handleConnection(c)] statement;
    the goroutine started there is [handleConnection] below. *)
Definition RegisterConnection (now : Time) (connID agentID : string)
    (conn : Conn.t) (metadata : gmap string string)
  : go t (error + addr) :=
  _ ← on_connsMu RWMutex.Lock;
  full ← gets (λ m, maxConnections m <=? Z.of_nat (size (connections m)));
  if (full : bool) then
    _ ← on_connsMu RWMutex.Unlock; mret (inl ErrMaxConnections)
  else
  dup ← gets (λ m, connections m !! connID);
  if dup is Some _ then
    _ ← on_connsMu RWMutex.Unlock; mret (inl ErrConnectionExists)
  else
  c ← new_conn
    {| Connection.ID := connID; Connection.Conn := conn;
       Connection.AgentID := agentID; Connection.Metadata := metadata;
       Connection.CreatedAt := now; Connection.LastHeartbeat := now;
       Connection.mem := ∅; Connection.streams := ∅;
       Connection.streamsMu := RWMutex.free;
       Connection.nextStreamID := 1;  (* Start from 1, 0 is for control *)
       Connection.cancelled := false; Connection.closed := false;
       Connection.closedMu := RWMutex.free |};
  _ ← modify (λ m, set_connections (<[connID := c]> (connections m)) m);
  _ ← on_connsMu RWMutex.Unlock;
  mret (inr c).

Definition GetConnection (connID : string) : go t (option addr) :=
  _ ← on_connsMu RWMutex.RLock;
  conn ← gets (λ m, connections m !! connID);
  _ ← on_connsMu RWMutex.RUnlock;
  mret conn.

(** The loop [for _, conn := range m.connections] over the connections
    in the order [conns]; the first match is returned. *)
Fixpoint find_agent (agentID : string) (conns : list addr)
  : go t (option addr) :=
  match conns with
  | [] => mret None
  | conn :: rest =>
      id ← at_conn conn (gets Connection.AgentID);
      if bool_decide (id = agentID) then mret (Some conn)
      else find_agent agentID rest
  end.

(** The iteration order of the map is unspecified; [map_to_list] fixes
    one. *)
Definition GetConnectionByAgentID (agentID : string)
  : go t (option addr) :=
  _ ← on_connsMu RWMutex.RLock;
  conns ← gets (λ m, (map_to_list (connections m)).*2);
  found ← find_agent agentID conns;
  _ ← on_connsMu RWMutex.RUnlock;
  mret found.

Definition SetOnConnectionClosed (callback : bool) : go t unit :=
  _ ← on_connsMu RWMutex.Lock;
  _ ← modify (set_onConnectionClosed callback);
  on_connsMu RWMutex.Unlock.

Definition SetOnStreamCreated (callback : bool) : go t unit :=
  _ ← on_connsMu RWMutex.Lock;
  _ ← modify (set_onStreamCreated callback);
  on_connsMu RWMutex.Unlock.

Definition SetOnStreamClosed (callback : bool) : go t unit :=
  _ ← on_connsMu RWMutex.Lock;
  _ ← modify (set_onStreamClosed callback);
  on_connsMu RWMutex.Unlock.

Definition CloseConnection (connID : string) : go t (option error) :=
  _ ← on_connsMu RWMutex.Lock;
  conn ← gets (λ m, connections m !! connID);
  _ ← (if conn is Some _
       then modify (λ m, set_connections (delete connID (connections m)) m)
       else mret tt);
  _ ← on_connsMu RWMutex.Unlock;
  match conn with
  | None => mret (Some ErrConnectionNotFound)
  | Some c =>
      _ ← at_conn c Connection.Close;
      cb ← gets onConnectionClosed;
      _ ← (if (cb : bool) then invoke (ConnectionClosed connID) else mret tt);
      mret None
  end.

Definition handleControlFrame (c : addr) (now : Time) (frame : v1.Frame)
  : go t (option error) :=
  match v1.Type_ frame with
  | v1.FrameAuth =>
      (* Auth was handled by the handshake; only update heartbeat *)
      _ ← at_conn c (Connection.updateHeartbeat now);
      mret None
  | v1.FrameHeartbeat =>
      _ ← at_conn c (Connection.updateHeartbeat now);
      mret None
  | v1.FrameClose => mret (Some ErrConnectionClosedByAgent)
  | _ => mret (Some ErrInvalidControlFrame)
  end.

Definition handleStreamFrame (c : addr) (now : Time) (frame : v1.Frame)
    (pick : select_case) : go t (option error) :=
  let streamID := v1.StreamID frame in
  _ ← at_conn c (Connection.on_streamsMu RWMutex.Lock);
  stream ← at_conn c (gets (λ c, Connection.streams c !! streamID));
  _ ← at_conn c (Connection.on_streamsMu RWMutex.Unlock);
  match v1.Type_ frame with
  | v1.FrameOpenStream =>
      if stream is Some _ then mret (Some ErrStreamExists) else
      (* Create new stream *)
      _ ← at_conn c (Connection.createStream now streamID);
      cb ← gets onStreamCreated;
      id ← at_conn c (gets Connection.ID);
      _ ← (if (cb : bool) then invoke (StreamCreated id streamID) else mret tt);
      mret None
  | v1.FrameData =>
      match stream with
      | None => mret (Some ErrStreamNotFound)
      | Some p =>
          (* Forward data to stream *)
          k ← at_conn c (Connection.select_data p (v1.Payload frame) pick);
          match k with
          | SelStreamClosed => mret (Some ErrStreamClosed)
          | SelCtxDone => mret (Some ErrContextCanceled)
          | SelSend =>
              (* Check EndStream flag *)
              if v1.IsEndStream frame then
                _ ← at_conn c (Connection.at_stream p
                                 (Stream.setState StreamStateClosed));
                _ ← at_conn c (Connection.closeStream streamID);
                cb ← gets onStreamClosed;
                id ← at_conn c (gets Connection.ID);
                _ ← (if (cb : bool) then invoke (StreamClosed id streamID)
                     else mret tt);
                mret None
              else mret None
          end
      end
  | v1.FrameClose =>
      match stream with
      | None => mret None (* Already closed *)
      | Some p =>
          _ ← at_conn c (Connection.at_stream p
                           (Stream.setState StreamStateClosed));
          _ ← at_conn c (Connection.closeStream streamID);
          cb ← gets onStreamClosed;
          id ← at_conn c (gets Connection.ID);
          _ ← (if (cb : bool) then invoke (StreamClosed id streamID)
               else mret tt);
          mret None
      end
  | _ => mret (Some ErrInvalidStreamFrame)
  end.

Definition handleFrame (c : addr) (now : Time) (frame : v1.Frame)
    (pick : select_case) : go t (option error) :=
  (* Control frames (StreamID = 0) *)
  if v1.IsControlFrame frame then handleControlFrame c now frame
  (* Data stream frames (StreamID > 0) *)
  else handleStreamFrame c now frame pick.

(** One turn of the [select] in the main loop of [handleConnection];
    the result tells whether the loop executes [return].  The case
    [<-c.ctx.Done()] is taken only when the context is cancelled. *)
Definition loop_turn (c : addr) (ev : event) : go t bool :=
  match ev with
  | EvDone => at_conn c (gets Connection.cancelled)
  | EvTick now =>
      (* Check heartbeat timeout *)
      last ← at_conn c (gets Connection.LastHeartbeat);
      hb ← gets heartbeatTimeout;
      mret (hb <? Sub now last)
  | EvFrame now frame pick =>
      (* Handle frame *)
      err ← handleFrame c now frame pick;
      mret (if err is Some _ then true (* Protocol error *) else false)
  | EvError => mret true
  end.

Fixpoint main_loop (c : addr) (events : list event) : go t loop_state :=
  match events with
  | [] => mret Looping
  | ev :: rest =>
      stop ← loop_turn c ev;
      if (stop : bool) then mret Returned else main_loop c rest
  end.

(** [handleConnection]: the main loop, then the deferred [c.Close()]. *)
Definition handleConnection (c : addr) (events : list event)
  : go t loop_state :=
  st ← main_loop c events;
  match st with
  | Looping => mret Looping
  | Returned => _ ← at_conn c Connection.Close; mret Returned
  end.
End Manager.

Definition NewManager (maxConnections : Z) (heartbeatTimeout : Duration)
  : Manager.t :=
  {| Manager.mem := ∅; Manager.connections := ∅;
     Manager.connsMu := RWMutex.free;
     Manager.maxConnections := maxConnections;
     Manager.heartbeatTimeout := heartbeatTimeout;
     Manager.onConnectionClosed := false;
     Manager.onStreamCreated := false;
     Manager.onStreamClosed := false;
     Manager.calls := [] |}.

End connection.

(** ** package handshake (internal/handshake/auth.go) *)

Module handshake.

(** The error values of internal/handshake/errors.go; [ErrOther] is any
    other error value, which only a token validator can produce. *)
Inductive error :=
| ErrInvalidFrameType
| ErrAuthMustBeControlFrame
| ErrInvalidAuthPayload
| ErrNoTokenValidator
| ErrInvalidToken
| ErrTokenExpired
| ErrUnauthorized
| ErrOther (msg : string).

(** [err.Error()] *)
Definition error_string (e : error) : string :=
  match e with
  | ErrInvalidFrameType => "invalid frame type for auth"
  | ErrAuthMustBeControlFrame => "auth frame must be control frame"
  | ErrInvalidAuthPayload => "invalid auth payload"
  | ErrNoTokenValidator => "no token validator configured"
  | ErrInvalidToken => "invalid token"
  | ErrTokenExpired => "token expired"
  | ErrUnauthorized => "unauthorized"
  | ErrOther msg => msg
  end.

Module AuthRequest.
Record t := {
  Token : string;
  AgentID : string;
  Version : string;
  Capabilities : list string;
  Metadata : gmap string string
}.
End AuthRequest.

(** [Config] is a [map[string]interface{}]; [value] stands for the
    values behind the interface. *)
Module AuthResponse.
Record t (value : Type) := {
  Success : bool;
  AgentID : string;
  ServerTime : Z;                          (* int64 *)
  Config : option (gmap string value);     (* None: nil *)
  Error : string
}.
Arguments Success {value} _.
Arguments AgentID {value} _.
Arguments ServerTime {value} _.
Arguments Config {value} _.
Arguments Error {value} _.
End AuthResponse.

(** The three uses of encoding/json: [json.Unmarshal] of a payload into
    an [AuthRequest], [json.Marshal] of a [[]string] (which cannot fail)
    and [json.Marshal] of an [AuthResponse] (which fails on a config value
    that has no JSON form).  The functions below are written over any
    such codec. *)
Class JSON (value : Type) := {
  Unmarshal : bytes → option AuthRequest.t;
  MarshalStrings : list string → bytes;
  Marshal : AuthResponse.t value → option bytes
}.

Module Authenticator.
(** [validateToken] returns the agent id and an error; [None] is a nil
    function. *)
Record t := {
  validateToken : option (string → string * option error);
  authTimeout : Duration
}.
End Authenticator.

Definition NewAuthenticator
    (validateToken : option (string → string * option error))
    (authTimeout : Duration) : Authenticator.t :=
  {| Authenticator.validateToken := validateToken;
     Authenticator.authTimeout := authTimeout |}.

(** [t.Unix()] of a clock reading in nanoseconds. *)
Definition Unix (t : Time) : Z := t / Second.

Section codec.
Context {value : Type} `{!JSON value}.

(** Returns the agent id and the metadata, or the error. *)
Definition HandleAuth (a : Authenticator.t) (frame : v1.Frame)
  : error + (string * gmap string string) :=
  (* Validate frame type *)
  if negb (if v1.Type_ frame is v1.FrameAuth then true else false)
  then inl ErrInvalidFrameType else
  (* Validate control frame *)
  if negb (v1.IsControlFrame frame) then inl ErrAuthMustBeControlFrame else
  (* Parse auth request *)
  match Unmarshal (value := value) (v1.Payload frame) with
  | None => inl ErrInvalidAuthPayload
  | Some req =>
      (* Validate token *)
      match Authenticator.validateToken a with
      | None => inl ErrNoTokenValidator
      | Some validate =>
          match validate (AuthRequest.Token req) with
          | (_, Some err) => inl err
          | (validatedAgentID, None) =>
              (* Use validated agent ID (server is source of truth) *)
              let agentID := validatedAgentID in
              (* Build metadata *)
              let metadata : gmap string string := ∅ in
              let metadata :=
                if bool_decide (AuthRequest.AgentID req ≠ EmptyString)
                then <["client_agent_id" := AuthRequest.AgentID req]> metadata
                else metadata in
              let metadata :=
                if bool_decide (AuthRequest.Version req ≠ EmptyString)
                then <["client_version" := AuthRequest.Version req]> metadata
                else metadata in
              (* Add capabilities to metadata *)
              let metadata :=
                if bool_decide (0 < length (AuthRequest.Capabilities req))%nat
                then <["capabilities" :=
                         MarshalStrings (AuthRequest.Capabilities req)]> metadata
                else metadata in
              (* Merge additional metadata *)
              let metadata :=
                map_fold (λ k v acc, <[k := v]> acc) metadata
                         (AuthRequest.Metadata req) in
              inr (agentID, metadata)
          end
      end
  end.

(** [now] is the clock reading of [time.Now()]. *)
Definition CreateAuthResponse (now : Time) (success : bool)
    (agentID : string) (config : option (gmap string value))
    (errMsg : string) : error + v1.Frame :=
  let resp :=
    {| AuthResponse.Success := success;
       AuthResponse.AgentID := agentID;
       AuthResponse.ServerTime := Unix now;
       AuthResponse.Config := config;
       AuthResponse.Error := if negb success then errMsg else EmptyString |} in
  match Marshal resp with
  | None => inl (ErrOther "json: unsupported value")
  | Some payload =>
      inr {| v1.FVersion := v1.Version; v1.Type_ := v1.FrameAuth;
             v1.FFlags := v1.FlagAck; (* Acknowledgment *)
             v1.StreamID := v1.StreamIDControl;
             v1.Payload := payload |}
  end.

Definition CreateAuthSuccessResponse (now : Time) (agentID : string)
    (config : option (gmap string value)) : error + v1.Frame :=
  CreateAuthResponse now true agentID config EmptyString.

Definition CreateAuthErrorResponse (now : Time) (errMsg : string)
  : error + v1.Frame :=
  CreateAuthResponse now false EmptyString None errMsg.
End codec.

End handshake.

(** ** package router (internal/router/router.go) *)

Module router.

Definition StatusOK : Z := 200.
Definition StatusNoContent : Z := 204.
Definition StatusBadRequest : Z := 400.
Definition StatusNotFound : Z := 404.
Definition StatusTooManyRequests : Z := 429.
Definition StatusInternalServerError : Z := 500.
Definition StatusServiceUnavailable : Z := 503.
Definition StatusGatewayTimeout : Z := 504.

Definition LF : string := String (Ascii.ascii_of_nat 10) EmptyString.

(** [http.ResponseWriter]: the status line is fixed by the first
    [WriteHeader]; a [Write] before any [WriteHeader] implies 200. *)
Module ResponseWriter.
Record t := { status : option Z; body : bytes }.
Definition empty : t := {| status := None; body := EmptyString |}.
Definition WriteHeader (code : Z) (w : t) : t :=
  {| status := if status w is Some s then Some s else Some code;
     body := body w |}.
Definition Write (data : bytes) (w : t) : t :=
  {| status := if status w is Some s then Some s else Some StatusOK;
     body := body w +:+ data |}.
(** [http.Error(w, msg, code)] of net/http: the status line, then the
    message and a newline ([fmt.Fprintln(w, msg)]). *)
Definition Error (msg : string) (code : Z) (w : t) : t :=
  Write (msg +:+ LF) (WriteHeader code w).
End ResponseWriter.

(** What [io.ReadAll(req.Body)] yields. *)
Inductive read_result := ReadAll (body : bytes) | ReadFailed.

Record Request := {
  Host : string;
  Method : string;
  Path : string;                                (* req.URL.Path *)
  Proto : string;
  Header : list (string * list string);         (* in iteration order *)
  Body : option read_result                     (* None: req.Body == nil *)
}.

(** The errors [handleRequest] returns: [fmt.Errorf] wrappers around an
    error of the connection, and the error of the request context. *)
Inductive error :=
| ErrSendOpenStream (e : connection.error)
| ErrStreamNotFound
| ErrReadBody
| ErrSendBody (e : connection.error)
| ErrSendEndStream (e : connection.error)
| DeadlineExceeded.                         (* ctx.Err() *)

(** [err.Error()] *)
Definition error_string (e : error) : string :=
  match e with
  | ErrSendOpenStream e =>
      "failed to send open stream frame: " +:+ connection.error_string e
  | ErrStreamNotFound => "stream not found after creation"
  | ErrReadBody => "failed to read request body: i/o error"
  | ErrSendBody e =>
      "failed to send request body: " +:+ connection.error_string e
  | ErrSendEndStream e =>
      "failed to send end stream frame: " +:+ connection.error_string e
  | DeadlineExceeded => "context deadline exceeded"
  end.

(** The case that one turn of the [select] in [waitForResponse] takes,
    with the value received.  The request context is created by
    [context.WithTimeout] and cancelled only by the deferred [cancel], so
    [<-ctx.Done()] fires when the per-request deadline expires. *)
Inductive wait_event :=
| WaitDeadline                        (* <-ctx.Done() *)
| WaitData (data : bytes)             (* data, ok := <-stream.DataIn(), ok *)
| WaitDataClosed                      (* ... with !ok *)
| WaitClose.                          (* <-stream.CloseCh() *)

Definition CRLF : string :=
  String (Ascii.ascii_of_nat 13) (String (Ascii.ascii_of_nat 10) EmptyString).

Module Router.
(** The router holds pointers to the three shared components; the state
    of a handler call is the state of all of them. *)
Record t := {
  registry : registry.Registry.t;
  connManager : connection.Manager.t;
  limiter : option quota.Limiter.t;       (* None: nil *)
  timeout : Duration
}.

Definition set_registry (x : registry.Registry.t) (r : t) : t :=
  {| registry := x; connManager := connManager r; limiter := limiter r;
     timeout := timeout r |}.
Definition set_connManager (x : connection.Manager.t) (r : t) : t :=
  {| registry := registry r; connManager := x; limiter := limiter r;
     timeout := timeout r |}.
Definition set_limiter (x : option quota.Limiter.t) (r : t) : t :=
  {| registry := registry r; connManager := connManager r; limiter := x;
     timeout := timeout r |}.

Definition on_registry {A} : go registry.Registry.t A → go t A :=
  zoom registry set_registry.
Definition on_connManager {A} : go connection.Manager.t A → go t A :=
  zoom connManager set_connManager.
(** A call on [r.limiter], made only under [r.limiter != nil]. *)
Definition on_limiter {A} (k : go quota.Limiter.t A) : go t A := λ r,
  match limiter r with
  | Some l => zoom (λ _, l) (λ l' r, set_limiter (Some l') r) k r
  | None => Fatal r
  end.

Definition buildRequestPayload (req : Request) : bytes :=
  (* Request line *)
  let line := Method req +:+ " " +:+ Path req +:+ " " +:+ Proto req +:+ CRLF in
  (* Headers *)
  let headers :=
    foldr (λ kv acc,
             foldr (λ value acc', kv.1 +:+ ": " +:+ value +:+ CRLF +:+ acc')
                   acc kv.2)
          EmptyString (Header req) in
  line +:+ headers +:+ CRLF.

(** The loop of [waitForResponse] over the turns of its [select]; with
    the events exhausted the handler is still waiting. *)
Fixpoint wait_loop (events : list wait_event) (responseData : bytes)
  : option (error + bytes) :=
  match events with
  | [] => None
  | WaitDeadline :: _ => Some (inl DeadlineExceeded)
  | WaitData data :: rest => wait_loop rest (responseData +:+ data)
  | WaitDataClosed :: _ => Some (inr responseData)
  | WaitClose :: _ => Some (inr responseData)
  end.

Definition waitForResponse {S} (events : list wait_event)
    (w : ResponseWriter.t) : go S (ResponseWriter.t * option error) := λ s,
  match wait_loop events EmptyString with
  | None => Blocked s
  | Some (inl err) => Done (w, Some err) s
  | Some (inr responseData) =>
      if bool_decide (responseData ≠ EmptyString)
      then Done (ResponseWriter.Write responseData
                   (ResponseWriter.WriteHeader StatusOK w), None) s
      else Done (ResponseWriter.WriteHeader StatusNoContent w, None) s
  end.

Definition handleRequest (events : list wait_event) (streamID : Z)
    (w : ResponseWriter.t) (req : Request)
  : go connection.Connection.t (ResponseWriter.t * option error) :=
  (* Build request payload *)
  let requestData := buildRequestPayload req in
  (* Send FrameOpenStream *)
  let openFrame :=
    {| v1.FVersion := v1.Version; v1.Type_ := v1.FrameOpenStream;
       v1.FFlags := v1.FlagNone; v1.StreamID := streamID;
       v1.Payload := requestData |} in
  err ← connection.Connection.SendFrame openFrame;
  if err is Some e then mret (w, Some (ErrSendOpenStream e)) else
  (* Get stream *)
  stream ← connection.Connection.GetStream streamID;
  if stream is None then mret (w, Some ErrStreamNotFound) else
  (* Forward request body if present *)
  let forward_body : go connection.Connection.t (option error) :=
    match Body req with
    | None => mret None
    | Some ReadFailed => mret (Some ErrReadBody)
    | Some (ReadAll body) =>
        if bool_decide (body ≠ EmptyString) then
          let dataFrame :=
            {| v1.FVersion := v1.Version; v1.Type_ := v1.FrameData;
               v1.FFlags := v1.FlagNone; v1.StreamID := streamID;
               v1.Payload := body |} in
          err ← connection.Connection.SendFrame dataFrame;
          mret (if err is Some e then Some (ErrSendBody e) else None)
        else mret None
    end in
  err ← forward_body;
  if err is Some e then mret (w, Some e) else
  (* Send EndStream flag to indicate request complete *)
  let endFrame :=
    {| v1.FVersion := v1.Version; v1.Type_ := v1.FrameData;
       v1.FFlags := v1.FlagEndStream; v1.StreamID := streamID;
       v1.Payload := EmptyString |} in
  err ← connection.Connection.SendFrame endFrame;
  if err is Some e then mret (w, Some (ErrSendEndStream e)) else
  (* Wait for response from stream *)
  waitForResponse events w.

(** [ServeHTTP] from the allocation of the stream id on; runs with the
    stream quota held. *)
Definition serve_on_connection (conn : addr) (events : list wait_event)
    (w : ResponseWriter.t) (req : Request)
  : go t ResponseWriter.t :=
  (* Create new stream *)
  streamID ← on_connManager
    (connection.Manager.at_conn conn connection.Connection.AllocateStreamID);
  (* Handle request *)
  res ← on_connManager
    (connection.Manager.at_conn conn (handleRequest events streamID w req));
  match res with
  | (w, Some err) =>
      mret (ResponseWriter.Error (error_string err)
              StatusInternalServerError w)
  | (w, None) => mret w
  end.

(** [now1], [now2]: the clock readings of the two rate checks;
    [events]: what the [select] of [waitForResponse] receives. *)
Definition ServeHTTP (now1 now2 : Time) (events : list wait_event)
    (req : Request) : go t ResponseWriter.t :=
  let w := ResponseWriter.empty in
  (* Extract domain from Host header *)
  let host := Host req in
  if bool_decide (host = EmptyString) then
    mret (ResponseWriter.Error "Missing Host header" StatusBadRequest w)
  else
  (* Lookup tunnel *)
  tunnel ← on_registry (registry.Registry.GetTunnel host);
  match tunnel with
  | None =>
      mret (ResponseWriter.Error ("Tunnel not found for domain: " +:+ host)
              StatusNotFound w)
  | Some tn =>
  agentID ← on_registry
    (registry.Registry.at_tunnel tn (gets registry.Tunnel.AgentID));
  connectionID ← on_registry
    (registry.Registry.at_tunnel tn (gets registry.Tunnel.ConnectionID));
  (* Check quota/rate limits *)
  lim ← gets limiter;
  err ← (if lim is Some _
         then on_limiter (quota.Limiter.CheckRequest now1 now2 agentID host)
         else mret None);
  if err is Some e then
    mret (ResponseWriter.Error
            ("Rate limit exceeded: " +:+ quota.error_string e)
            StatusTooManyRequests w)
  else
  (* Get connection *)
  conn ← on_connManager (connection.Manager.GetConnection connectionID);
  match conn with
  | None =>
      mret (ResponseWriter.Error "Connection not found"
              StatusServiceUnavailable w)
  | Some conn =>
  (* Acquire stream quota *)
  if lim is Some _ then
    err ← on_limiter (quota.Limiter.AcquireStream agentID host);
    if err is Some e then
      mret (ResponseWriter.Error
              ("Stream limit exceeded: " +:+ quota.error_string e)
              StatusTooManyRequests w)
    else
      w ← serve_on_connection conn events w req;
      (* Release stream quota when done *)
      _ ← on_limiter (quota.Limiter.ReleaseStream agentID host);
      mret w
  else serve_on_connection conn events w req
  end
  end.
End Router.

End router.

(** * Specification vocabulary

    Invariants, specified behaviours and example states that the
    statements below are written with. *)

(** ** Quota *)

(** The sign of a [float64]: [signed s x] when [x] is a zero or carries the
    sign [s] ([true]: negative), [strictly_signed s x] when it carries the
    sign and is not a zero, [nonpositive x] when it is a zero or negative;
    a NaN is in none of them. *)
Definition signed (s : bool) (x : float64) : bool :=
  match x with
  | S754_zero _ => true
  | S754_infinity s' | S754_finite s' _ _ => bool_decide (s' = s)
  | S754_nan => false
  end.
Definition strictly_signed (s : bool) (x : float64) : bool :=
  match x with
  | S754_infinity s' | S754_finite s' _ _ => bool_decide (s' = s)
  | _ => false
  end.
Definition nonpositive (x : float64) : bool := signed true x.

Section quota_vocabulary.
Import quota.

(** The level after the refill lines, and the bucket a call leaves. *)
Definition refill_level (now : Time) (tb : TokenBucket.t) : float64 :=
  min (f64.of_int (TokenBucket.capacity tb))
      (f64.add (TokenBucket.tokens tb)
         (f64.mul (Seconds (Sub now (TokenBucket.lastRefill tb)))
                  (TokenBucket.refillRate tb))).

Definition bucket_after (now : Time) (level : float64) (tb : TokenBucket.t)
  : TokenBucket.t :=
  {| TokenBucket.capacity := TokenBucket.capacity tb;
     TokenBucket.tokens := level;
     TokenBucket.refillRate := TokenBucket.refillRate tb;
     TokenBucket.lastRefill := now;
     TokenBucket.mu := TokenBucket.mu tb |}.

(** Calls of [Allow], one after the other, at the clock readings
    [nows]. *)
Fixpoint allow_at (nows : list Time) : go TokenBucket.t (list bool) :=
  match nows with
  | [] => mret []
  | now :: rest =>
      r ← TokenBucket.Allow now;
      rs ← allow_at rest;
      mret (r :: rs)
  end.

(** [allow_n] as the specification words it: a negative elapsed time
    counts as zero, a bucket of capacity [<= 0] denies, and otherwise the
    call consumes [n] tokens exactly when the refilled level has them. *)
Definition spec_allow_n (now : Time) (n : Z) (tb : TokenBucket.t)
  : bool * TokenBucket.t :=
  let elapsed := Seconds (Sub now (TokenBucket.lastRefill tb)) in
  let elapsed :=
    if f64.leb (f64.of_int 0) elapsed then elapsed else f64.of_int 0 in
  let level :=
    min (f64.of_int (TokenBucket.capacity tb))
        (f64.add (TokenBucket.tokens tb)
                 (f64.mul elapsed (TokenBucket.refillRate tb))) in
  if TokenBucket.capacity tb <=? 0 then (false, bucket_after now level tb)
  else if f64.leb (f64.of_int n) level
       then (true, bucket_after now (f64.sub level (f64.of_int n)) tb)
       else (false, bucket_after now level tb).

(** No lock of the limiter is held: the state between two calls. *)
Definition limiter_quiescent (l : Limiter.t) : Prop :=
  Limiter.agentMu l = RWMutex.free ∧ Limiter.domainMu l = RWMutex.free ∧
  (∀ a lim, Limiter.agentLimits l !! a = Some lim →
     AgentLimit.mu lim = RWMutex.free ∧
     TokenBucket.mu (AgentLimit.TokenBucket lim) = Mutex.free) ∧
  (∀ d lim, Limiter.domainLimits l !! d = Some lim →
     DomainLimit.mu lim = RWMutex.free ∧
     TokenBucket.mu (DomainLimit.TokenBucket lim) = Mutex.free).

(** The [int] fields hold values of the type [int]. *)
Definition limiter_ints (l : Limiter.t) : Prop :=
  (∀ a lim, Limiter.agentLimits l !! a = Some lim →
     int_range (AgentLimit.MaxStreams lim) ∧
     int_range (AgentLimit.CurrentStreams lim)) ∧
  (∀ d lim, Limiter.domainLimits l !! d = Some lim →
     int_range (DomainLimit.MaxStreams lim) ∧
     int_range (DomainLimit.CurrentStreams lim)).

(** [current_streams >= 0] for every configured limit. *)
Definition counters_nonneg (l : Limiter.t) : Prop :=
  (∀ a lim, Limiter.agentLimits l !! a = Some lim →
     0 ≤ AgentLimit.CurrentStreams lim) ∧
  (∀ d lim, Limiter.domainLimits l !! d = Some lim →
     0 ≤ DomainLimit.CurrentStreams lim).

(** The operations of the limiter. *)
Inductive limiter_op :=
| OpSetAgentLimit (now : Time) (agentID : string)
    (maxStreams maxBandwidth rateLimit : Z)
| OpSetDomainLimit (now : Time) (domain : string) (maxStreams rateLimit : Z)
| OpCheckAgentStreamLimit (agentID : string)
| OpCheckDomainStreamLimit (domain : string)
| OpCheckAgentRateLimit (now : Time) (agentID : string)
| OpCheckDomainRateLimit (now : Time) (domain : string)
| OpAcquireStream (agentID domain : string)
| OpReleaseStream (agentID domain : string)
| OpCheckRequest (now1 now2 : Time) (agentID domain : string)
| OpGetAgentLimit (agentID : string)
| OpGetDomainLimit (domain : string)
| OpResetAgentLimits (now : Time) (agentID : string)
| OpResetDomainLimits (now : Time) (domain : string).

Definition discard {S A} (c : go S A) : go S unit := _ ← c; mret tt.

Definition exec_op (o : limiter_op) : go Limiter.t unit :=
  match o with
  | OpSetAgentLimit now a ms mb rl => Limiter.SetAgentLimit now a ms mb rl
  | OpSetDomainLimit now d ms rl => Limiter.SetDomainLimit now d ms rl
  | OpCheckAgentStreamLimit a => discard (Limiter.CheckAgentStreamLimit a)
  | OpCheckDomainStreamLimit d => discard (Limiter.CheckDomainStreamLimit d)
  | OpCheckAgentRateLimit now a => discard (Limiter.CheckAgentRateLimit now a)
  | OpCheckDomainRateLimit now d => discard (Limiter.CheckDomainRateLimit now d)
  | OpAcquireStream a d => discard (Limiter.AcquireStream a d)
  | OpReleaseStream a d => Limiter.ReleaseStream a d
  | OpCheckRequest now1 now2 a d => discard (Limiter.CheckRequest now1 now2 a d)
  | OpGetAgentLimit a => discard (Limiter.GetAgentLimit a)
  | OpGetDomainLimit d => discard (Limiter.GetDomainLimit d)
  | OpResetAgentLimits now a => Limiter.ResetAgentLimits now a
  | OpResetDomainLimits now d => Limiter.ResetDomainLimits now d
  end.

(** The [int] arguments of an operation hold values of the type. *)
Definition op_ints (o : limiter_op) : Prop :=
  match o with
  | OpSetAgentLimit _ _ ms _ _ => int_range ms
  | OpSetDomainLimit _ _ ms _ => int_range ms
  | _ => True
  end.

(** Whether a stream cap is reached. *)
Definition agent_full (l : Limiter.t) (a : string) : bool :=
  match Limiter.agentLimits l !! a with
  | Some lim => AgentLimit.MaxStreams lim <=? AgentLimit.CurrentStreams lim
  | None => false
  end.
Definition domain_full (l : Limiter.t) (d : string) : bool :=
  match Limiter.domainLimits l !! d with
  | Some lim => DomainLimit.MaxStreams lim <=? DomainLimit.CurrentStreams lim
  | None => false
  end.

(** The tables after the increments of [AcquireStream] and after the
    clamped decrements of [ReleaseStream]. *)
Definition incr_agent (a : string) (al : gmap string AgentLimit.t) :=
  match al !! a with
  | Some lim => <[a := AgentLimit.set_CurrentStreams
                         (wrap_int (AgentLimit.CurrentStreams lim + 1)) lim]> al
  | None => al
  end.
Definition incr_domain (d : string) (dl : gmap string DomainLimit.t) :=
  match dl !! d with
  | Some lim => <[d := DomainLimit.set_CurrentStreams
                         (wrap_int (DomainLimit.CurrentStreams lim + 1)) lim]> dl
  | None => dl
  end.
Definition decr_agent (a : string) (al : gmap string AgentLimit.t) :=
  match al !! a with
  | Some lim =>
      <[a := if 0 <? AgentLimit.CurrentStreams lim
             then AgentLimit.set_CurrentStreams
                    (wrap_int (AgentLimit.CurrentStreams lim - 1)) lim
             else lim]> al
  | None => al
  end.
Definition decr_domain (d : string) (dl : gmap string DomainLimit.t) :=
  match dl !! d with
  | Some lim =>
      <[d := if 0 <? DomainLimit.CurrentStreams lim
             then DomainLimit.set_CurrentStreams
                    (wrap_int (DomainLimit.CurrentStreams lim - 1)) lim
             else lim]> dl
  | None => dl
  end.

(** The invariant of the limiter between calls. *)
Definition limiter_inv (l : Limiter.t) : Prop :=
  limiter_quiescent l ∧ limiter_ints l ∧ counters_nonneg l.

(** A call that returns and re-establishes the invariant. *)
Definition keeps_inv {A} (c : go Limiter.t A) : Prop :=
  ∀ l, limiter_inv l → ∃ r l', c l = Done r l' ∧ limiter_inv l'.

Definition agent_limit_ok (lim : AgentLimit.t) : Prop :=
  AgentLimit.mu lim = RWMutex.free ∧
  TokenBucket.mu (AgentLimit.TokenBucket lim) = Mutex.free ∧
  int_range (AgentLimit.MaxStreams lim) ∧
  int_range (AgentLimit.CurrentStreams lim) ∧
  0 ≤ AgentLimit.CurrentStreams lim.
Definition domain_limit_ok (lim : DomainLimit.t) : Prop :=
  DomainLimit.mu lim = RWMutex.free ∧
  TokenBucket.mu (DomainLimit.TokenBucket lim) = Mutex.free ∧
  int_range (DomainLimit.MaxStreams lim) ∧
  int_range (DomainLimit.CurrentStreams lim) ∧
  0 ≤ DomainLimit.CurrentStreams lim.

(** A limiter with one agent limit and one domain limit installed. *)
Definition example_limiter : Limiter.t :=
  final (Limiter.SetDomainLimit 0 "example.localhost" 5 10
    (final (Limiter.SetAgentLimit 0 "agent-1" 2 1048576 10
      (NewLimiter 10 100)))).

(** A bucket that holds one token of three, refilled at second 2. *)
Definition example_bucket : TokenBucket.t :=
  {| TokenBucket.capacity := 3; TokenBucket.tokens := f64.of_int 1;
     TokenBucket.refillRate := f64.of_int 1;
     TokenBucket.lastRefill := 2 * Second;
     TokenBucket.mu := Mutex.free |}.
End quota_vocabulary.

(** ** Registry *)

Section registry_vocabulary.
Import registry.

(** Forward and reverse index agree: a domain of the forward map is in
    the reverse entry of its tunnel's connection, with the same tunnel;
    and a domain of a reverse entry is in the forward map, with the same
    tunnel, whose connection is the key of that entry. *)
Definition registry_consistent (r : Registry.t) : Prop :=
  (∀ d p, Registry.tunnels r !! d = Some p →
     ∃ tn m, Registry.mem r !! p = Some tn ∧
       Registry.connTunnels r !! Tunnel.ConnectionID tn = Some m ∧
       m !! d = Some p) ∧
  (∀ c m d p, Registry.connTunnels r !! c = Some m → m !! d = Some p →
     Registry.tunnels r !! d = Some p ∧
     ∃ tn, Registry.mem r !! p = Some tn ∧ Tunnel.ConnectionID tn = c).

(** The registry between calls: no lock held, indices consistent. *)
Definition registry_inv (r : Registry.t) : Prop :=
  Registry.tunnelsMu r = RWMutex.free ∧
  Registry.connTunnelsMu r = RWMutex.free ∧
  registry_consistent r.

Definition keeps_registry {A} (c : go Registry.t A) : Prop :=
  ∀ r, registry_inv r → ∃ x r', c r = Done x r' ∧ registry_inv r'.

Inductive registry_op :=
| OpRegisterTunnel (now : Time) (domain subdomain connectionID agentID : string)
    (metadata : gmap string string)
| OpUnregisterTunnel (domain : string)
| OpUnregisterConnectionTunnels (connectionID : string).

Definition exec_registry_op (o : registry_op) : go Registry.t unit :=
  match o with
  | OpRegisterTunnel now d s c a md =>
      _ ← Registry.RegisterTunnel now d s c a md; mret tt
  | OpUnregisterTunnel d => _ ← Registry.UnregisterTunnel d; mret tt
  | OpUnregisterConnectionTunnels c => Registry.UnregisterConnectionTunnels c
  end.

(** The connection under which the reverse index lists a domain. *)
Definition listed_under (r : Registry.t) (d c : string) : Prop :=
  ∃ m, Registry.connTunnels r !! c = Some m ∧ is_Some (m !! d).
End registry_vocabulary.

(** ** Connection *)

Section connection_vocabulary.
Import connection.

(** No lock of the connection is held. *)
Definition conn_quiescent (c : Connection.t) : Prop :=
  Connection.streamsMu c = RWMutex.free ∧ Connection.closedMu c = RWMutex.free.

(** The connection after [k] calls of [AllocateStreamID]. *)
Definition after_allocations (k : N) (c : Connection.t) : Connection.t :=
  N.iter k (λ c, final (Connection.AllocateStreamID c)) c.

(** The connection object that [RegisterConnection] builds. *)
Definition fresh_connection (now : Time) (connID agentID : string)
    (conn : Conn.t) : Connection.t :=
  {| Connection.ID := connID; Connection.Conn := conn;
     Connection.AgentID := agentID; Connection.Metadata := ∅;
     Connection.CreatedAt := now; Connection.LastHeartbeat := now;
     Connection.mem := ∅; Connection.streams := ∅;
     Connection.streamsMu := RWMutex.free;
     Connection.nextStreamID := 1;
     Connection.cancelled := false; Connection.closed := false;
     Connection.closedMu := RWMutex.free |}.

Definition open_socket : Conn.t :=
  {| Conn.sock_closed := false; Conn.written := [];
     Conn.write_errors := [] |}.

(** The state in which [Close] is parked when the stream table is not
    empty: flags set, the stream lock write-held, nothing else touched. *)
Definition close_parked (c : Connection.t) : Connection.t :=
  Connection.set_streamsMu {| RWMutex.writer := true; RWMutex.readers := 0 |}
    (Connection.set_cancelled true (Connection.set_closed true c)).

(** The close signal of the stream object at [p] has fired. *)
Definition close_signal_fired (c : Connection.t) (p : addr) : Prop :=
  ∃ s, Connection.mem c !! p = Some s ∧ chan_closed (Stream.closeCh s) = true.

(** How many times [onConnectionClosed] was invoked. *)
Definition is_connection_closed (k : call) : bool :=
  if k is ConnectionClosed _ then true else false.
Definition connection_closed_calls (m : Manager.t) : list call :=
  List.filter is_connection_closed (Manager.calls m).

(** A computation of the manager that never invokes
    [onConnectionClosed], whatever its outcome. *)
Definition silent {A} (k : go Manager.t A) : Prop :=
  ∀ m, connection_closed_calls (final (k m)) = connection_closed_calls m.

Definition DataFrame (streamID : Z) (payload : bytes) : v1.Frame :=
  {| v1.FVersion := v1.Version; v1.Type_ := v1.FrameData;
     v1.FFlags := v1.FlagNone; v1.StreamID := streamID;
     v1.Payload := payload |}.
Definition OpenStreamFrame (streamID : Z) (payload : bytes) : v1.Frame :=
  {| v1.FVersion := v1.Version; v1.Type_ := v1.FrameOpenStream;
     v1.FFlags := v1.FlagNone; v1.StreamID := streamID;
     v1.Payload := payload |}.
Definition HeartbeatFrame : v1.Frame :=
  {| v1.FVersion := v1.Version; v1.Type_ := v1.FrameHeartbeat;
     v1.FFlags := v1.FlagNone; v1.StreamID := v1.StreamIDControl;
     v1.Payload := EmptyString |}.

(** A manager with the close callback installed and one registered
    connection, at address [example_conn]; heartbeat timeout 200 ms. *)
Definition example_manager : Manager.t :=
  final (Manager.RegisterConnection 0 "conn-1" "agent-1" open_socket ∅
    (final (Manager.SetOnConnectionClosed true
      (NewManager 100 (200 * Millisecond))))).
Definition example_conn : addr :=
  default 1%positive (Manager.connections example_manager !! "conn-1").

(** A registered connection on which stream 1 has been created. *)
Definition conn_with_stream : Connection.t :=
  final (Connection.createStream 0 1
           (fresh_connection 0 "conn-1" "agent-1" open_socket)).

(** A control frame of a type the dispatcher rejects. *)
Definition BadControlFrame : v1.Frame :=
  {| v1.FVersion := v1.Version; v1.Type_ := v1.FrameData;
     v1.FFlags := v1.FlagNone; v1.StreamID := v1.StreamIDControl;
     v1.Payload := EmptyString |}.
End connection_vocabulary.

(** ** Router *)

Section router_vocabulary.
Import router.

(** The socket of the connection takes writes: it is open and the
    environment schedules no write error. *)
Definition socket_writable (c : connection.Connection.t) : Prop :=
  connection.Conn.sock_closed (connection.Connection.Conn c) = false ∧
  connection.Conn.write_errors (connection.Connection.Conn c) = [].

(** The connection after a frame has been encoded to its socket. *)
Definition sent (frame : v1.Frame) (c : connection.Connection.t)
  : connection.Connection.t :=
  connection.Connection.set_Conn
    {| connection.Conn.sock_closed := false;
       connection.Conn.written :=
         connection.Conn.written (connection.Connection.Conn c) ++ [frame];
       connection.Conn.write_errors := [] |} c.

(** The turns of the wait in which the deadline expires before the close
    signal fires: payloads, then the deadline. *)
Definition deadline_first (payloads : list bytes) (rest : list wait_event)
  : list wait_event :=
  (WaitData <$> payloads) ++ WaitDeadline :: rest.

(** Every normal return of a computation satisfies [P]. *)
Definition results_in {S A} (P : A → Prop) (k : go S A) : Prop :=
  ∀ s a s', k s = Done a s' → P a.

(** The status codes [ServeHTTP] writes. *)
Definition served_status (w : ResponseWriter.t) : Prop :=
  ResponseWriter.status w = Some StatusOK
  ∨ ResponseWriter.status w = Some StatusNoContent
  ∨ ResponseWriter.status w = Some StatusBadRequest
  ∨ ResponseWriter.status w = Some StatusNotFound
  ∨ ResponseWriter.status w = Some StatusTooManyRequests
  ∨ ResponseWriter.status w = Some StatusInternalServerError
  ∨ ResponseWriter.status w = Some StatusServiceUnavailable.

(** What [handleRequest] returns for a response writer [w] on which
    nothing was written: an error with [w] untouched, or no error with
    status 200 or 204 written. *)
Definition handled (w : ResponseWriter.t)
    (res : ResponseWriter.t * option error) : Prop :=
  (∃ e, res = (w, Some e))
  ∨ (res.2 = None
     ∧ (ResponseWriter.status res.1 = Some StatusOK
        ∨ ResponseWriter.status res.1 = Some StatusNoContent)).

(** The request reaches a connection: it names a host whose tunnel is
    registered, the quota checks admit it, and the tunnel's connection
    [conn], holding the object [c], is in the manager's map. *)
Definition routed (r : Router.t) (now1 now2 : Time) (req : Request)
    (conn : addr) (c : connection.Connection.t) : Prop :=
  Host req ≠ EmptyString ∧
  registry_inv (Router.registry r) ∧
  RWMutex.writer (connection.Manager.connsMu (Router.connManager r)) = false ∧
  connection.Manager.mem (Router.connManager r) !! conn = Some c ∧
  ∃ tn tunnel,
    registry.Registry.tunnels (Router.registry r) !! Host req = Some tn ∧
    registry.Registry.mem (Router.registry r) !! tn = Some tunnel ∧
    connection.Manager.connections (Router.connManager r)
      !! registry.Tunnel.ConnectionID tunnel = Some conn ∧
    match Router.limiter r with
    | None => True
    | Some l =>
        limiter_inv l ∧
        returned (quota.Limiter.CheckRequest now1 now2
                    (registry.Tunnel.AgentID tunnel) (Host req) l) = Some None ∧
        returned (quota.Limiter.AcquireStream
                    (registry.Tunnel.AgentID tunnel) (Host req)
                    (final (quota.Limiter.CheckRequest now1 now2
                              (registry.Tunnel.AgentID tunnel) (Host req) l)))
        = Some None
    end.

(** A routed request: tunnel [example.localhost] on connection [conn-1],
    limits installed for the agent and the domain. *)
Definition example_registry : registry.Registry.t :=
  final (registry.Registry.RegisterTunnel 0 EmptyString "example" "conn-1" "agent-1" ∅
           (registry.NewRegistry "localhost")).

Definition example_router : Router.t :=
  {| Router.registry := example_registry;
     Router.connManager := example_manager;
     Router.limiter := Some example_limiter;
     Router.timeout := 30 * Second |}.

Definition example_request : Request :=
  {| Host := "example.localhost"; Method := "GET"; Path := "/";
     Proto := "HTTP/1.1"; Header := []; Body := None |}.

(** The same router after the agent has opened stream 1 itself. *)
Definition example_router_stream_1 : Router.t :=
  Router.set_connManager
    (final (connection.Manager.handleConnection example_conn
              [connection.EvFrame 1 (OpenStreamFrame 1 EmptyString) connection.SelSend]
              example_manager))
    example_router.
End router_vocabulary.

(** ** Further vocabulary: quota *)

Section quota_vocabulary_2.
Import quota.

(** No configured stream counter is above its cap. *)
Definition within_caps (l : Limiter.t) : Prop :=
  (∀ a lim, Limiter.agentLimits l !! a = Some lim →
     AgentLimit.CurrentStreams lim ≤ AgentLimit.MaxStreams lim) ∧
  (∀ d lim, Limiter.domainLimits l !! d = Some lim →
     DomainLimit.CurrentStreams lim ≤ DomainLimit.MaxStreams lim).

(** The caps an operation installs are values of the type [int] and not
    negative. *)
Definition op_caps (o : limiter_op) : Prop :=
  match o with
  | OpSetAgentLimit _ _ ms _ _ => 0 ≤ ms < 2 ^ 63
  | OpSetDomainLimit _ _ ms _ => 0 ≤ ms < 2 ^ 63
  | _ => True
  end.

(** The limit object that [SetAgentLimit] installs. *)
Definition new_agent_limit (now : Time) (agentID : string)
    (maxStreams maxBandwidth rateLimit : Z) : AgentLimit.t :=
  {| AgentLimit.AgentID := agentID;
     AgentLimit.MaxStreams := maxStreams;
     AgentLimit.MaxBandwidth := maxBandwidth;
     AgentLimit.RateLimit := rateLimit;
     AgentLimit.TokenBucket := NewTokenBucket now rateLimit rateLimit;
     AgentLimit.CurrentStreams := 0;
     AgentLimit.LastReset := now;
     AgentLimit.mu := RWMutex.free |}.

(** The limiters [l] and [l'] count the same streams for every agent and
    every domain. *)
Definition same_streams (l l' : Limiter.t) : Prop :=
  (∀ a, (AgentLimit.CurrentStreams <$> Limiter.agentLimits l' !! a)
        = (AgentLimit.CurrentStreams <$> Limiter.agentLimits l !! a)) ∧
  (∀ d, (DomainLimit.CurrentStreams <$> Limiter.domainLimits l' !! d)
        = (DomainLimit.CurrentStreams <$> Limiter.domainLimits l !! d)).

(** A call that returns, re-establishes the invariant and keeps the
    counters within the caps. *)
Definition keeps_caps {A} (c : go Limiter.t A) : Prop :=
  ∀ l, limiter_inv l → within_caps l →
    ∃ r l', c l = Done r l' ∧ limiter_inv l' ∧ within_caps l'.

(** A call that returns, re-establishes the invariant and leaves the
    stream counters as they were. *)
Definition keeps_streams {A} (c : go Limiter.t A) : Prop :=
  ∀ l, limiter_inv l →
    ∃ x l', c l = Done x l' ∧ limiter_inv l' ∧ same_streams l l'.
End quota_vocabulary_2.

(** ** Further vocabulary: router *)

Section router_vocabulary_2.
Import router.

(** The frame that ends the request: DATA with END_STREAM, no payload. *)
Definition EndStreamFrame (streamID : Z) : v1.Frame :=
  {| v1.FVersion := v1.Version; v1.Type_ := v1.FrameData;
     v1.FFlags := v1.FlagEndStream; v1.StreamID := streamID;
     v1.Payload := EmptyString |}.

(** The payloads in the order received, one after the other. *)
Definition joined (payloads : list bytes) : bytes :=
  foldr String.append EmptyString payloads.

(** The frames that carry the request [req] on stream [streamID]. *)
Definition request_frames (streamID : Z) (req : Request) : list v1.Frame :=
  OpenStreamFrame streamID (Router.buildRequestPayload req)
  :: match Body req with
     | Some (ReadAll body) =>
         if bool_decide (body ≠ EmptyString) then [DataFrame streamID body] else []
     | _ => []
     end
  ++ [EndStreamFrame streamID].
End router_vocabulary_2.

(** ** Further vocabulary: handshake *)

Section handshake_vocabulary.
Import handshake.

(** The metadata keys the server derives from the request. *)
Definition derived_metadata {value : Type} `{!JSON value} (req : AuthRequest.t) (k : string)
  : option string :=
  if bool_decide (k = "capabilities") then
    if bool_decide (0 < length (AuthRequest.Capabilities req))%nat
    then Some (MarshalStrings (AuthRequest.Capabilities req)) else None
  else if bool_decide (k = "client_version") then
    if bool_decide (AuthRequest.Version req ≠ EmptyString)
    then Some (AuthRequest.Version req) else None
  else if bool_decide (k = "client_agent_id") then
    if bool_decide (AuthRequest.AgentID req ≠ EmptyString)
    then Some (AuthRequest.AgentID req) else None
  else None.

(** A codec for the examples: it accepts one payload, the request of an
    agent that calls itself [root], and writes placeholders. *)
Definition example_auth_request : AuthRequest.t :=
  {| AuthRequest.Token := "secret"; AuthRequest.AgentID := "root";
     AuthRequest.Version := "1.0"; AuthRequest.Capabilities := [];
     AuthRequest.Metadata := {["client_agent_id" := "spoofed"; "region" := "eu"]} |}.

#[global] Instance example_codec : JSON unit :=
  {| Unmarshal payload :=
       if bool_decide (payload = "request") then Some example_auth_request
       else None;
     MarshalStrings _ := "[]";
     Marshal _ := Some "{}" |}.

(** A validator that knows one token. *)
Definition example_authenticator : Authenticator.t :=
  NewAuthenticator
    (Some (λ token, if bool_decide (token = "secret") then ("agent-1", None)
                    else (EmptyString, Some ErrInvalidToken)))
    (5 * Second).

Definition AuthFrame (streamID : Z) (payload : bytes) : v1.Frame :=
  {| v1.FVersion := v1.Version; v1.Type_ := v1.FrameAuth;
     v1.FFlags := v1.FlagNone; v1.StreamID := streamID;
     v1.Payload := payload |}.
End handshake_vocabulary.

(** * Properties *)

(** ** binary64: signs of the results *)

Lemma shr_1_m r : 0 ≤ shr_m r → shr_m (shr_1 r) = Z.div2 (shr_m r).
Proof.
  destruct r as [[|[p|p|]|p] b1 b2]; simpl; intros H; try reflexivity; lia.
Qed.

Lemma iter_shr_1_m p : ∀ r,
  0 ≤ shr_m r → shr_m (SpecFloat.iter_pos shr_1 p r) = shr_m r / 2 ^ Z.pos p.
Proof.
  assert (∀ r, 0 ≤ shr_m r → 0 ≤ shr_m (shr_1 r)) as Hnn.
  { intros r H. rewrite shr_1_m by done. rewrite Z.div2_div.
    by apply Z.div_pos. }
  induction p as [p IH|p IH|]; intros r Hr; simpl.
  - assert (0 < 2 ^ Z.pos p) as Hp by (apply Z.pow_pos_nonneg; lia).
    assert (0 ≤ shr_m (SpecFloat.iter_pos shr_1 p (shr_1 r))) as H1.
    { rewrite IH by (by apply Hnn). apply Z.div_pos; [by apply Hnn|done]. }
    rewrite IH by done. rewrite IH by (by apply Hnn). rewrite shr_1_m by done.
    rewrite Z.div2_div, !Z.div_div by lia. f_equal. rewrite Pos2Z.inj_xI.
    replace (2 * Z.pos p + 1) with (1 + Z.pos p + Z.pos p) by lia.
    rewrite (Z.pow_add_r 2 (1 + Z.pos p) (Z.pos p)) by lia.
    rewrite (Z.pow_add_r 2 1 (Z.pos p)) by lia.
    change (2 ^ 1) with 2. lia.
  - assert (0 < 2 ^ Z.pos p) as Hp by (apply Z.pow_pos_nonneg; lia).
    assert (0 ≤ shr_m (SpecFloat.iter_pos shr_1 p r)) as H1.
    { rewrite IH by done. by apply Z.div_pos. }
    rewrite IH by done. rewrite IH by done. rewrite Z.div_div by lia. f_equal.
    replace (Z.pos p~0) with (Z.pos p + Z.pos p) by lia.
    rewrite (Z.pow_add_r 2 (Z.pos p) (Z.pos p)) by lia. lia.
  - rewrite shr_1_m by done. by rewrite Z.div2_div.
Qed.

Lemma digits2_pos_lower m : 2 ^ (Z.pos (digits2_pos m) - 1) ≤ Z.pos m.
Proof.
  induction m as [m IH|m IH|]; simpl; [| |done].
  - rewrite Pos2Z.inj_succ.
    replace (Z.succ (Z.pos (digits2_pos m)) - 1)
      with (Z.succ (Z.pos (digits2_pos m) - 1)) by lia.
    rewrite Z.pow_succ_r by lia. lia.
  - rewrite Pos2Z.inj_succ.
    replace (Z.succ (Z.pos (digits2_pos m)) - 1)
      with (Z.succ (Z.pos (digits2_pos m) - 1)) by lia.
    rewrite Z.pow_succ_r by lia. lia.
Qed.

(** The shift that re-aligns a mantissa to the format leaves it positive,
    when the exponent is in range. *)
Lemma shr_fexp_pos m e l :
  1 ≤ m → emin f64.prec f64.emax ≤ e →
  1 ≤ shr_m (shr_fexp f64.prec f64.emax m e l).1
  ∧ emin f64.prec f64.emax ≤ (shr_fexp f64.prec f64.emax m e l).2.
Proof.
  intros Hm He. unfold shr_fexp, shr.
  assert (shr_m (shr_record_of_loc m l) = m) as Hrec
    by (by destruct l as [|[]]).
  destruct m as [|p|p]; [lia| |lia]. simpl Zdigits2.
  destruct (fexp f64.prec f64.emax (Z.pos (digits2_pos p) + e) - e)
    as [|k|k] eqn:Hk; simpl; rewrite ?Hrec; try (split; lia).
  rewrite iter_shr_1_m by (rewrite Hrec; lia). rewrite Hrec.
  unfold fexp, emin, f64.prec, f64.emax in *.
  assert (Z.pos k = Z.pos (digits2_pos p) - 53) as Hk' by lia.
  split; [|lia].
  pose proof (digits2_pos_lower p) as Hlow.
  apply Z.div_le_lower_bound; [lia|]. rewrite Z.mul_1_r.
  etransitivity; [|exact Hlow]. apply Z.pow_le_mono_r; lia.
Qed.

Lemma shr_fexp_nonneg m e l :
  0 ≤ m → 0 ≤ shr_m (shr_fexp f64.prec f64.emax m e l).1.
Proof.
  intros Hm. unfold shr_fexp, shr.
  assert (shr_m (shr_record_of_loc m l) = m) as Hrec
    by (by destruct l as [|[]]).
  destruct (fexp _ _ _ - e) as [|k|k]; simpl; rewrite ?Hrec; try done.
  rewrite iter_shr_1_m by (rewrite Hrec; lia). rewrite Hrec.
  apply Z.div_pos; lia.
Qed.

Lemma round_nearest_even_ge m l : m ≤ round_nearest_even m l.
Proof. destruct l as [|[]]; simpl; try lia. destruct (Z.even m); lia. Qed.

(** Rounding a non-negative mantissa gives no NaN and keeps the sign. *)
Lemma binary_round_aux_signed s m e l :
  0 ≤ m → signed s (binary_round_aux f64.prec f64.emax s m e l) = true.
Proof.
  intros Hm. unfold binary_round_aux.
  destruct (shr_fexp f64.prec f64.emax m e l) as [r1 e1] eqn:E1.
  pose proof (shr_fexp_nonneg m e l Hm) as H1. rewrite E1 in H1. simpl in H1.
  set (m2 := round_nearest_even (shr_m r1) (loc_of_shr_record r1)).
  assert (0 ≤ m2) as H2
    by (pose proof (round_nearest_even_ge (shr_m r1) (loc_of_shr_record r1)); lia).
  destruct (shr_fexp f64.prec f64.emax m2 e1 loc_Exact) as [r3 e3] eqn:E3.
  pose proof (shr_fexp_nonneg m2 e1 loc_Exact H2) as H3.
  rewrite E3 in H3. simpl in H3.
  destruct (shr_m r3) as [|p|p]; [|destruct (e3 <=? _)|lia]; simpl;
    by destruct s.
Qed.

(** With the exponent in range the result is not zero either. *)
Lemma binary_round_aux_strict s m e :
  1 ≤ m → emin f64.prec f64.emax ≤ e →
  strictly_signed s (binary_round_aux f64.prec f64.emax s m e loc_Exact) = true.
Proof.
  intros Hm He. unfold binary_round_aux.
  destruct (shr_fexp f64.prec f64.emax m e loc_Exact) as [r1 e1] eqn:E1.
  pose proof (shr_fexp_pos m e loc_Exact Hm He) as [H1 He1].
  rewrite E1 in H1, He1. simpl in H1, He1.
  set (m2 := round_nearest_even (shr_m r1) (loc_of_shr_record r1)).
  assert (1 ≤ m2) as H2
    by (pose proof (round_nearest_even_ge (shr_m r1) (loc_of_shr_record r1)); lia).
  destruct (shr_fexp f64.prec f64.emax m2 e1 loc_Exact) as [r3 e3] eqn:E3.
  pose proof (shr_fexp_pos m2 e1 loc_Exact H2 He1) as [H3 _].
  rewrite E3 in H3. simpl in H3.
  destruct (shr_m r3) as [|p|p]; [lia|destruct (e3 <=? _)|lia]; simpl;
    by destruct s.
Qed.

Lemma digits2_pos_iter_xO m k :
  Z.pos (digits2_pos (Pos.iter xO m k)) = Z.pos (digits2_pos m) + Z.pos k.
Proof.
  induction k as [|k IH] using Pos.peano_ind.
  - simpl. lia.
  - rewrite Pos.iter_succ. simpl. rewrite Pos2Z.inj_succ, IH. lia.
Qed.

Lemma binary_round_strict s m e :
  emin f64.prec f64.emax ≤ e →
  strictly_signed s (binary_round f64.prec f64.emax s m e) = true.
Proof.
  intros He. unfold binary_round.
  destruct (shl_align m e _) as [mz ez] eqn:Ea.
  apply binary_round_aux_strict; [lia|].
  unfold shl_align in Ea.
  destruct (fexp f64.prec f64.emax (Z.pos (digits2_pos m) + e) - e) eqn:Hd;
    injection Ea as <- <-; try done.
  unfold fexp, emin, f64.prec, f64.emax in *. lia.
Qed.

(** [float64(z)] has the sign of [z]. *)
Lemma of_int_class z :
  match z with
  | Z0 => f64.of_int z = S754_zero false
  | Zpos _ => strictly_signed false (f64.of_int z) = true
  | Zneg _ => strictly_signed true (f64.of_int z) = true
  end.
Proof.
  destruct z; unfold f64.of_int, binary_normalize; [done| |];
    apply binary_round_strict; unfold emin, f64.prec, f64.emax; lia.
Qed.

Lemma of_int_pos z : 1 ≤ z → strictly_signed false (f64.of_int z) = true.
Proof. intros H. pose proof (of_int_class z). destruct z; [lia|done|lia]. Qed.

Lemma of_int_nonneg z : 0 ≤ z → signed false (f64.of_int z) = true.
Proof.
  intros H. pose proof (of_int_class z) as Hc. destruct z; [by rewrite Hc| |lia].
  by destruct (f64.of_int (Z.pos p)) as [| | |[]].
Qed.

Lemma of_int_nonpos z : z ≤ 0 → nonpositive (f64.of_int z) = true.
Proof.
  intros H. pose proof (of_int_class z) as Hc. destruct z; [by rewrite Hc|lia|].
  by destruct (f64.of_int (Z.neg p)) as [| | |[]].
Qed.

Lemma div_nonneg x my ey :
  signed false x = true →
  signed false (f64.div x (S754_finite false my ey)) = true.
Proof.
  destruct x as [[]|[]| |[] mx ex]; try done.
  intros _. unfold f64.div, SFdiv.
  destruct (SFdiv_core_binary f64.prec f64.emax (Z.pos mx) ex (Z.pos my) ey)
    as [[mz ez] lz] eqn:E.
  apply binary_round_aux_signed.
  unfold SFdiv_core_binary in E.
  destruct (Z.div_eucl _ _) as [q r] eqn:Hq. injection E as <- _ _.
  match type of Hq with Z.div_eucl ?a ?b = _ =>
    assert (q = a / b) as -> by (unfold Z.div; by rewrite Hq);
    apply Z.div_pos; [|lia] end.
  destruct (_ - _ - _) as [|k|k]; [lia| |lia].
  apply Z.shiftl_nonneg. lia.
Qed.

Lemma add_nonneg x y :
  signed false x = true → signed false y = true →
  signed false (f64.add x y) = true.
Proof.
  destruct x as [[]|[]| |[] mx ex], y as [[]|[]| |[] my ey]; try done.
  intros _ _. unfold f64.add, SFadd, binary_normalize. simpl.
  unfold binary_round.
  destruct (shl_align ((shl_align mx ex _).1 + _)%positive _ _) as [mz ez].
  apply binary_round_aux_signed. lia.
Qed.

Lemma Seconds_nonneg d : 0 ≤ d → signed false (Seconds d) = true.
Proof.
  intros H. unfold Seconds. cbv zeta. apply add_nonneg.
  - apply of_int_nonneg. apply Z.quot_pos; [done|]. unfold Second. lia.
  - change (f64.of_int 1000000000)
      with (S754_finite false 8388608000000000 (-23)).
    apply div_nonneg.
    apply of_int_nonneg. apply Z.rem_nonneg; [|done]. unfold Second. lia.
Qed.

Lemma leb_zero_signed x :
  signed false x = true → f64.leb (f64.of_int 0) x = true.
Proof. by destruct x as [[]|[]| |[] ? ?]. Qed.

(** A level capped by a value that is not positive is below every positive
    value. *)
Lemma capped_level_denies cap x n :
  nonpositive cap = true → strictly_signed false n = true →
  f64.leb n (quota.min cap x) = false.
Proof.
  intros Hc Hn. unfold quota.min.
  destruct (f64.ltb cap x) eqn:E.
  - by destruct cap as [[]|[]| |[] mc ec], n as [[]|[]| |[] mn en].
  - destruct cap as [[]|[]| |[] mc ec]; try done;
      destruct x as [[]|[]| |[] mx ex]; try done;
      by destruct n as [[]|[]| |[] mn en].
Qed.

(** ** Quota *)

Import quota.

Ltac go_unfold :=
  unfold mbind, go_bind, mret, go_ret, gets, modify, zoom in *.

Lemma wrap_int_id z : int_range z → wrap_int z = z.
Proof.
  unfold int_range, wrap_int. intros H.
  rewrite Z.mod_small; lia.
Qed.

Lemma CheckAgentStreamLimit_run l a :
  limiter_quiescent l →
  Limiter.CheckAgentStreamLimit a l =
    Done (if agent_full l a then Some ErrAgentStreamLimitExceeded else None) l.
Proof.
  intros (Ha & Hd & Hal & Hdl).
  destruct l as [al amu dl dmu mc ms]; simpl in *; subst.
  unfold Limiter.CheckAgentStreamLimit, agent_full, Limiter.at_agent, Limiter.on_agentMu, AgentLimit.on_mu.
  go_unfold. simpl.
  destruct (al !! a) as [lim|] eqn:E; simpl; [|done].
  rewrite E. destruct (Hal _ _ E) as [Hmu _].
  destruct lim as [? ? ? ? ? ? ? mu]; simpl in Hmu; subst mu. simpl.
  unfold Limiter.set_agentLimits; simpl.
  rewrite insert_id; done.
Qed.

Ltac limiter_unfold :=
  unfold Limiter.at_agent, Limiter.at_domain, Limiter.on_agentMu,
    Limiter.on_domainMu, AgentLimit.on_mu, DomainLimit.on_mu,
    AgentLimit.on_TokenBucket, DomainLimit.on_TokenBucket,
    Limiter.set_agentLimits, Limiter.set_domainLimits,
    Limiter.set_agentMu, Limiter.set_domainMu in *;
  go_unfold.

Lemma CheckDomainStreamLimit_run l d :
  limiter_quiescent l →
  Limiter.CheckDomainStreamLimit d l =
    Done (if domain_full l d then Some ErrDomainStreamLimitExceeded else None) l.
Proof.
  intros (Ha & Hd & Hal & Hdl).
  destruct l as [al amu dl dmu mc ms]; simpl in *; subst.
  unfold Limiter.CheckDomainStreamLimit, domain_full. limiter_unfold. simpl.
  destruct (dl !! d) as [lim|] eqn:E; simpl; [|done].
  rewrite E. destruct (Hdl _ _ E) as [Hmu _].
  destruct lim as [? ? ? ? ? ? mu]; simpl in Hmu; subst mu. simpl.
  rewrite insert_id; done.
Qed.

Lemma AcquireStream_run l a d :
  limiter_quiescent l →
  Limiter.AcquireStream a d l =
    if agent_full l a then Done (Some ErrAgentStreamLimitExceeded) l
    else if domain_full l d then Done (Some ErrDomainStreamLimitExceeded) l
    else Done None
           (Limiter.set_domainLimits (incr_domain d (Limiter.domainLimits l))
              (Limiter.set_agentLimits (incr_agent a (Limiter.agentLimits l)) l)).
Proof.
  intros Hq. unfold Limiter.AcquireStream.
  unfold mbind at 1, go_bind at 1. rewrite CheckAgentStreamLimit_run by done.
  destruct (agent_full l a); [done|].
  unfold mbind at 1, go_bind at 1. rewrite CheckDomainStreamLimit_run by done.
  destruct (domain_full l d); [done|].
  destruct Hq as (Ha & Hd & Hal & Hdl).
  destruct l as [al amu dl dmu mc ms]; simpl in *; subst.
  limiter_unfold. unfold incr_agent, incr_domain. simpl.
  destruct (al !! a) as [lim|] eqn:E; simpl.
  - rewrite ?E. destruct (Hal _ _ E) as [Hmu _].
    destruct lim as [? ? ? ? ? ? ? mu]; simpl in Hmu; subst mu. simpl.
    destruct (dl !! d) as [dlim|] eqn:E'; simpl; [|done].
    rewrite ?E'. destruct (Hdl _ _ E') as [Hmu _].
    destruct dlim as [? ? ? ? ? ? mu]; simpl in Hmu; subst mu. done.
  - destruct (dl !! d) as [dlim|] eqn:E'; simpl; [|done].
    rewrite ?E'. destruct (Hdl _ _ E') as [Hmu _].
    destruct dlim as [? ? ? ? ? ? mu]; simpl in Hmu; subst mu. done.
Qed.

Ltac exec_step :=
  match goal with
  | H : (_ !! _) = _ |- _ => rewrite H
  | H : (_ <? _) = _ |- _ => rewrite H
  | H : (_ <=? _) = _ |- _ => rewrite H
  end.
Ltac exec := repeat (progress (simpl; repeat exec_step)).

Lemma ReleaseStream_run l a d :
  limiter_quiescent l →
  Limiter.ReleaseStream a d l =
    Done tt
      (Limiter.set_domainLimits (decr_domain d (Limiter.domainLimits l))
         (Limiter.set_agentLimits (decr_agent a (Limiter.agentLimits l)) l)).
Proof.
  intros Hq. unfold Limiter.ReleaseStream.
  destruct Hq as (Ha & Hd & Hal & Hdl).
  destruct l as [al amu dl dmu mc ms]; simpl in *; subst.
  limiter_unfold. unfold decr_agent, decr_domain. simpl.
  destruct (al !! a) as [lim|] eqn:E; simpl.
  - destruct (Hal _ _ E) as [Hmu _].
    destruct lim as [? ? ? ? ? cur ? mu]; simpl in Hmu; subst mu.
    destruct (0 <? cur) eqn:Hc;
    (destruct (dl !! d) as [dlim|] eqn:E'; simpl;
     [ destruct (Hdl _ _ E') as [Hmu _];
       destruct dlim as [? ? ? ? cur' ? mu]; simpl in Hmu; subst mu;
       destruct (0 <? cur') eqn:Hc'; exec; done
     | exec; done ]).
  - destruct (dl !! d) as [dlim|] eqn:E'; simpl; [|done].
    destruct (Hdl _ _ E') as [Hmu _].
    destruct dlim as [? ? ? ? cur' ? mu]; simpl in Hmu; subst mu.
    destruct (0 <? cur') eqn:Hc'; exec; done.
Qed.

Lemma decr_incr_agent a al :
  (∀ lim, al !! a = Some lim →
     0 ≤ AgentLimit.CurrentStreams lim < AgentLimit.MaxStreams lim ∧
     int_range (AgentLimit.MaxStreams lim)) →
  decr_agent a (incr_agent a al) = al.
Proof.
  intros H. unfold decr_agent, incr_agent.
  destruct (al !! a) as [lim|] eqn:E; rewrite ?E; [|done].
  destruct (H _ eq_refl) as [Hc Hm].
  rewrite lookup_insert_eq. destruct lim as [? mx ? ? ? cur ? ?]; simpl in *.
  unfold int_range in Hm.
  rewrite (wrap_int_id (cur + 1)) by (unfold int_range; lia).
  replace (0 <? cur + 1) with true by (symmetry; apply Z.ltb_lt; lia).
  unfold AgentLimit.set_CurrentStreams; simpl.
  replace (cur + 1 - 1) with cur by lia.
  rewrite wrap_int_id by (unfold int_range; lia).
  rewrite insert_insert_eq. by apply insert_id.
Qed.

Lemma decr_incr_domain d dl :
  (∀ lim, dl !! d = Some lim →
     0 ≤ DomainLimit.CurrentStreams lim < DomainLimit.MaxStreams lim ∧
     int_range (DomainLimit.MaxStreams lim)) →
  decr_domain d (incr_domain d dl) = dl.
Proof.
  intros H. unfold decr_domain, incr_domain.
  destruct (dl !! d) as [lim|] eqn:E; rewrite ?E; [|done].
  destruct (H _ eq_refl) as [Hc Hm].
  rewrite lookup_insert_eq. destruct lim as [? mx ? ? cur ? ?]; simpl in *.
  unfold int_range in Hm.
  rewrite (wrap_int_id (cur + 1)) by (unfold int_range; lia).
  replace (0 <? cur + 1) with true by (symmetry; apply Z.ltb_lt; lia).
  unfold DomainLimit.set_CurrentStreams; simpl.
  replace (cur + 1 - 1) with cur by lia.
  rewrite wrap_int_id by (unfold int_range; lia).
  rewrite insert_insert_eq. by apply insert_id.
Qed.

Lemma incr_agent_lookup a al b lim :
  incr_agent a al !! b = Some lim →
  ∃ lim0, al !! b = Some lim0 ∧
    AgentLimit.mu lim = AgentLimit.mu lim0 ∧
    AgentLimit.TokenBucket lim = AgentLimit.TokenBucket lim0 ∧
    AgentLimit.MaxStreams lim = AgentLimit.MaxStreams lim0 ∧
    (AgentLimit.CurrentStreams lim = AgentLimit.CurrentStreams lim0 ∨
     b = a ∧ AgentLimit.CurrentStreams lim = wrap_int (AgentLimit.CurrentStreams lim0 + 1)).
Proof.
  unfold incr_agent. destruct (al !! a) as [l0|] eqn:E.
  - rewrite lookup_insert. case_decide as Hab.
    + subst b. intros [= <-]. exists l0. simpl. eauto 10.
    + intros H. exists lim. eauto 10.
  - intros H. exists lim. eauto 10.
Qed.

Lemma incr_domain_lookup d dl b lim :
  incr_domain d dl !! b = Some lim →
  ∃ lim0, dl !! b = Some lim0 ∧
    DomainLimit.mu lim = DomainLimit.mu lim0 ∧
    DomainLimit.TokenBucket lim = DomainLimit.TokenBucket lim0 ∧
    DomainLimit.MaxStreams lim = DomainLimit.MaxStreams lim0 ∧
    (DomainLimit.CurrentStreams lim = DomainLimit.CurrentStreams lim0 ∨
     b = d ∧ DomainLimit.CurrentStreams lim = wrap_int (DomainLimit.CurrentStreams lim0 + 1)).
Proof.
  unfold incr_domain. destruct (dl !! d) as [l0|] eqn:E.
  - rewrite lookup_insert. case_decide as Hab.
    + subst b. intros [= <-]. exists l0. simpl. eauto 10.
    + intros H. exists lim. eauto 10.
  - intros H. exists lim. eauto 10.
Qed.

Lemma acquired_quiescent l a d :
  limiter_quiescent l →
  limiter_quiescent
    (Limiter.set_domainLimits (incr_domain d (Limiter.domainLimits l))
       (Limiter.set_agentLimits (incr_agent a (Limiter.agentLimits l)) l)).
Proof.
  intros (Ha & Hd & Hal & Hdl). repeat split; simpl; try done.
  - apply incr_agent_lookup in H as (l0 & E & -> & _). by apply (Hal _ _ E).
  - apply incr_agent_lookup in H as (l0 & E & _ & -> & _). by apply (Hal _ _ E).
  - apply incr_domain_lookup in H as (l0 & E & -> & _). by apply (Hdl _ _ E).
  - apply incr_domain_lookup in H as (l0 & E & _ & -> & _). by apply (Hdl _ _ E).
Qed.

Lemma acquire_release_identity l a d l1 :
  limiter_quiescent l → limiter_ints l → counters_nonneg l →
  Limiter.AcquireStream a d l = Done None l1 →
  Limiter.ReleaseStream a d l1 = Done tt l.
Proof.
  intros Hq [Hia Hid] [Hna Hnd] Hacq.
  rewrite AcquireStream_run in Hacq by done.
  destruct (agent_full l a) eqn:Fa; [done|].
  destruct (domain_full l d) eqn:Fd; [done|].
  injection Hacq as <-.
  rewrite ReleaseStream_run by (by apply acquired_quiescent).
  f_equal. destruct l as [al amu dl dmu mc ms]; simpl in *.
  unfold Limiter.set_domainLimits, Limiter.set_agentLimits; simpl.
  unfold agent_full, domain_full in *; simpl in *.
  rewrite decr_incr_agent, decr_incr_domain; [done| |].
  - intros lim E. rewrite E in Fd. apply Z.leb_gt in Fd.
    specialize (Hnd _ _ E). destruct (Hid _ _ E). split; [lia|done].
  - intros lim E. rewrite E in Fa. apply Z.leb_gt in Fa.
    specialize (Hna _ _ E). destruct (Hia _ _ E). split; [lia|done].
Qed.

(** *** Token bucket *)

Ltac bucket_unfold :=
  unfold TokenBucket.AllowN, TokenBucket.Allow, TokenBucket.GetStats,
    TokenBucket.on_mu, TokenBucket.refill, Mutex.Lock, Mutex.Unlock,
    refill_level, bucket_after;
  go_unfold.

Lemma AllowN_run now n tb :
  Mutex.locked (TokenBucket.mu tb) = false →
  TokenBucket.AllowN now n tb =
    let level := refill_level now tb in
    if f64.leb (f64.of_int n) level
    then Done true (bucket_after now (f64.sub level (f64.of_int n)) tb)
    else Done false (bucket_after now level tb).
Proof.
  intros Hfree. destruct tb as [c tk r last [lk]]. simpl in Hfree. subst lk.
  bucket_unfold. simpl.
  destruct (f64.leb _ _); reflexivity.
Qed.

Lemma Allow_is_AllowN_1 now tb :
  TokenBucket.Allow now tb = TokenBucket.AllowN now 1 tb.
Proof. reflexivity. Qed.

Lemma deny_at_capacity_le_0 now n tb :
  TokenBucket.capacity tb ≤ 0 → 1 ≤ n →
  f64.leb (f64.of_int n) (refill_level now tb) = false.
Proof.
  intros Hc Hn. unfold refill_level.
  apply capped_level_denies; [by apply of_int_nonpos|by apply of_int_pos].
Qed.

(** *** The invariant of the limiter *)

Lemma limiter_inv_lookup_agent l a lim :
  limiter_inv l → Limiter.agentLimits l !! a = Some lim → agent_limit_ok lim.
Proof.
  intros ((_ & _ & Hq & _) & (Hi & _) & (Hn & _)) E.
  destruct (Hq _ _ E), (Hi _ _ E). specialize (Hn _ _ E). unfold agent_limit_ok. tauto.
Qed.

Lemma limiter_inv_lookup_domain l d lim :
  limiter_inv l → Limiter.domainLimits l !! d = Some lim → domain_limit_ok lim.
Proof.
  intros ((_ & _ & _ & Hq) & (_ & Hi) & (_ & Hn)) E.
  destruct (Hq _ _ E), (Hi _ _ E). specialize (Hn _ _ E). unfold domain_limit_ok. tauto.
Qed.

Lemma limiter_inv_insert_agent l a lim :
  limiter_inv l → agent_limit_ok lim →
  limiter_inv (Limiter.set_agentLimits (<[a := lim]> (Limiter.agentLimits l)) l).
Proof.
  intros ((Ha & Hd & Hqa & Hqd) & (Hia & Hid) & (Hna & Hnd)) (H1 & H2 & H3 & H4 & H5).
  split; [split; [|split; [|split]]|split; split]; simpl; try done.
  all: intros b lim'; rewrite lookup_insert; case_decide;
       [intros [= <-]; done | intros E].
  - by apply (Hqa _ _ E).
  - by apply (Hia _ _ E).
  - by apply (Hna _ _ E).
Qed.

Lemma limiter_inv_insert_domain l d lim :
  limiter_inv l → domain_limit_ok lim →
  limiter_inv (Limiter.set_domainLimits (<[d := lim]> (Limiter.domainLimits l)) l).
Proof.
  intros ((Ha & Hd & Hqa & Hqd) & (Hia & Hid) & (Hna & Hnd)) (H1 & H2 & H3 & H4 & H5).
  split; [split; [|split; [|split]]|split; split]; simpl; try done.
  all: intros b lim'; rewrite lookup_insert; case_decide;
       [intros [= <-]; done | intros E].
  - by apply (Hqd _ _ E).
  - by apply (Hid _ _ E).
  - by apply (Hnd _ _ E).
Qed.

Lemma keeps_inv_ret {A} (x : A) : keeps_inv (mret x).
Proof. intros l Hl. by exists x, l. Qed.

Lemma keeps_inv_bind {A B} (c : go Limiter.t A) (f : A → go Limiter.t B) :
  keeps_inv c → (∀ x, keeps_inv (f x)) → keeps_inv (c ≫= f).
Proof.
  intros Hc Hf l Hl. destruct (Hc l Hl) as (x & l1 & E & Hl1).
  destruct (Hf x l1 Hl1) as (y & l2 & E' & Hl2).
  exists y, l2. split; [|done]. unfold mbind, go_bind. by rewrite E.
Qed.

Lemma keeps_inv_discard {A} (c : go Limiter.t A) :
  keeps_inv c → keeps_inv (discard c).
Proof. intros H. apply keeps_inv_bind; [done|]. intros. apply keeps_inv_ret. Qed.

Lemma set_agentLimits_id l : Limiter.set_agentLimits (Limiter.agentLimits l) l = l.
Proof. by destruct l. Qed.
Lemma set_domainLimits_id l : Limiter.set_domainLimits (Limiter.domainLimits l) l = l.
Proof. by destruct l. Qed.

Lemma CheckAgentRateLimit_run l now a :
  limiter_quiescent l →
  Limiter.CheckAgentRateLimit now a l =
    match Limiter.agentLimits l !! a with
    | None => Done None l
    | Some lim =>
        let tb := AgentLimit.TokenBucket lim in
        let level := refill_level now tb in
        if f64.leb (f64.of_int 1) level
        then Done None
               (Limiter.set_agentLimits
                  (<[a := AgentLimit.set_TokenBucket
                            (bucket_after now (f64.sub level (f64.of_int 1)) tb) lim]>
                     (Limiter.agentLimits l)) l)
        else Done (Some ErrAgentRateLimitExceeded)
               (Limiter.set_agentLimits
                  (<[a := AgentLimit.set_TokenBucket
                            (bucket_after now level tb) lim]>
                     (Limiter.agentLimits l)) l)
    end.
Proof.
  intros (Ha & Hd & Hal & Hdl).
  destruct l as [al amu dl dmu mc ms]; simpl in *; subst.
  unfold Limiter.CheckAgentRateLimit. limiter_unfold. simpl.
  destruct (al !! a) as [lim|] eqn:E; simpl; [|done].
  rewrite E. destruct (Hal _ _ E) as [_ Hmu].
  rewrite Allow_is_AllowN_1, AllowN_run by (by rewrite Hmu).
  simpl. destruct (f64.leb _ _); done.
Qed.

Lemma CheckDomainRateLimit_run l now d :
  limiter_quiescent l →
  Limiter.CheckDomainRateLimit now d l =
    match Limiter.domainLimits l !! d with
    | None => Done None l
    | Some lim =>
        let tb := DomainLimit.TokenBucket lim in
        let level := refill_level now tb in
        if f64.leb (f64.of_int 1) level
        then Done None
               (Limiter.set_domainLimits
                  (<[d := DomainLimit.set_TokenBucket
                            (bucket_after now (f64.sub level (f64.of_int 1)) tb) lim]>
                     (Limiter.domainLimits l)) l)
        else Done (Some ErrDomainRateLimitExceeded)
               (Limiter.set_domainLimits
                  (<[d := DomainLimit.set_TokenBucket
                            (bucket_after now level tb) lim]>
                     (Limiter.domainLimits l)) l)
    end.
Proof.
  intros (Ha & Hd & Hal & Hdl).
  destruct l as [al amu dl dmu mc ms]; simpl in *; subst.
  unfold Limiter.CheckDomainRateLimit. limiter_unfold. simpl.
  destruct (dl !! d) as [lim|] eqn:E; simpl; [|done].
  rewrite E. destruct (Hdl _ _ E) as [_ Hmu].
  rewrite Allow_is_AllowN_1, AllowN_run by (by rewrite Hmu).
  simpl. destruct (f64.leb _ _); done.
Qed.

Lemma keeps_inv_CheckAgentStreamLimit a :
  keeps_inv (Limiter.CheckAgentStreamLimit a).
Proof.
  intros l Hl. rewrite CheckAgentStreamLimit_run by apply Hl. eauto.
Qed.

Lemma keeps_inv_CheckDomainStreamLimit d :
  keeps_inv (Limiter.CheckDomainStreamLimit d).
Proof.
  intros l Hl. rewrite CheckDomainStreamLimit_run by apply Hl. eauto.
Qed.

Lemma keeps_inv_CheckAgentRateLimit now a :
  keeps_inv (Limiter.CheckAgentRateLimit now a).
Proof.
  intros l Hl. rewrite CheckAgentRateLimit_run by apply Hl.
  destruct (Limiter.agentLimits l !! a) as [lim|] eqn:E; [|eauto].
  destruct (limiter_inv_lookup_agent _ _ _ Hl E) as (?&?&?&?&?).
  simpl. destruct (f64.leb _ _); do 2 eexists; (split; [done|]);
    apply limiter_inv_insert_agent; try done; by repeat split.
Qed.

Lemma keeps_inv_CheckDomainRateLimit now d :
  keeps_inv (Limiter.CheckDomainRateLimit now d).
Proof.
  intros l Hl. rewrite CheckDomainRateLimit_run by apply Hl.
  destruct (Limiter.domainLimits l !! d) as [lim|] eqn:E; [|eauto].
  destruct (limiter_inv_lookup_domain _ _ _ Hl E) as (?&?&?&?&?).
  simpl. destruct (f64.leb _ _); do 2 eexists; (split; [done|]);
    apply limiter_inv_insert_domain; try done; by repeat split.
Qed.

Lemma limiter_inv_incr_agent l a :
  limiter_inv l → agent_full l a = false →
  limiter_inv (Limiter.set_agentLimits (incr_agent a (Limiter.agentLimits l)) l).
Proof.
  intros Hl Hf. unfold incr_agent, agent_full in *.
  destruct (Limiter.agentLimits l !! a) as [lim|] eqn:E;
    [|by rewrite set_agentLimits_id].
  destruct (limiter_inv_lookup_agent _ _ _ Hl E) as (?&?&Hm&?&?).
  apply Z.leb_gt in Hf. unfold int_range in *.
  apply limiter_inv_insert_agent; [done|].
  assert (int_range (AgentLimit.CurrentStreams lim + 1)) by (unfold int_range; lia).
  repeat split; simpl; try done; rewrite ?wrap_int_id by done; unfold int_range in *; lia.
Qed.

Lemma limiter_inv_incr_domain l d :
  limiter_inv l → domain_full l d = false →
  limiter_inv (Limiter.set_domainLimits (incr_domain d (Limiter.domainLimits l)) l).
Proof.
  intros Hl Hf. unfold incr_domain, domain_full in *.
  destruct (Limiter.domainLimits l !! d) as [lim|] eqn:E;
    [|by rewrite set_domainLimits_id].
  destruct (limiter_inv_lookup_domain _ _ _ Hl E) as (?&?&Hm&?&?).
  apply Z.leb_gt in Hf. unfold int_range in *.
  apply limiter_inv_insert_domain; [done|].
  assert (int_range (DomainLimit.CurrentStreams lim + 1)) by (unfold int_range; lia).
  repeat split; simpl; try done; rewrite ?wrap_int_id by done; unfold int_range in *; lia.
Qed.

Lemma limiter_inv_decr_agent l a :
  limiter_inv l →
  limiter_inv (Limiter.set_agentLimits (decr_agent a (Limiter.agentLimits l)) l).
Proof.
  intros Hl. unfold decr_agent.
  destruct (Limiter.agentLimits l !! a) as [lim|] eqn:E;
    [|by rewrite set_agentLimits_id].
  pose proof (limiter_inv_lookup_agent _ _ _ Hl E) as Hok.
  apply limiter_inv_insert_agent; [done|].
  destruct (0 <? AgentLimit.CurrentStreams lim) eqn:Hc; [|done].
  destruct Hok as (?&?&Hm&?&?). apply Z.ltb_lt in Hc. unfold int_range in *.
  assert (int_range (AgentLimit.CurrentStreams lim - 1)) by (unfold int_range; lia).
  repeat split; simpl; try done; rewrite ?wrap_int_id by done; unfold int_range in *; lia.
Qed.

Lemma limiter_inv_decr_domain l d :
  limiter_inv l →
  limiter_inv (Limiter.set_domainLimits (decr_domain d (Limiter.domainLimits l)) l).
Proof.
  intros Hl. unfold decr_domain.
  destruct (Limiter.domainLimits l !! d) as [lim|] eqn:E;
    [|by rewrite set_domainLimits_id].
  pose proof (limiter_inv_lookup_domain _ _ _ Hl E) as Hok.
  apply limiter_inv_insert_domain; [done|].
  destruct (0 <? DomainLimit.CurrentStreams lim) eqn:Hc; [|done].
  destruct Hok as (?&?&Hm&?&?). apply Z.ltb_lt in Hc. unfold int_range in *.
  assert (int_range (DomainLimit.CurrentStreams lim - 1)) by (unfold int_range; lia).
  repeat split; simpl; try done; rewrite ?wrap_int_id by done; unfold int_range in *; lia.
Qed.

Lemma keeps_inv_AcquireStream a d : keeps_inv (Limiter.AcquireStream a d).
Proof.
  intros l Hl. rewrite AcquireStream_run by apply Hl.
  destruct (agent_full l a) eqn:Fa; [eauto|].
  destruct (domain_full l d) eqn:Fd; [eauto|].
  do 2 eexists; split; [done|].
  pose proof (limiter_inv_incr_agent _ _ Hl Fa) as H1.
  apply (limiter_inv_incr_domain _ d) in H1; [done|].
  by destruct l.
Qed.

Lemma keeps_inv_ReleaseStream a d : keeps_inv (Limiter.ReleaseStream a d).
Proof.
  intros l Hl. rewrite ReleaseStream_run by apply Hl.
  do 2 eexists; split; [done|].
  pose proof (limiter_inv_decr_agent _ a Hl) as H1.
  apply (limiter_inv_decr_domain _ d) in H1. by destruct l.
Qed.

Lemma keeps_inv_SetAgentLimit now a ms mb rl :
  int_range ms → keeps_inv (Limiter.SetAgentLimit now a ms mb rl).
Proof.
  intros Hms l Hl. pose proof Hl as ((Ha & Hd & _) & _).
  destruct l as [al amu dl dmu mc mx]; simpl in *; subst.
  eexists tt, _. split.
  - unfold Limiter.SetAgentLimit. limiter_unfold. simpl. reflexivity.
  - refine (limiter_inv_insert_agent _ a _ Hl _).
    repeat split; simpl; try done; apply Hms.
Qed.

Lemma keeps_inv_SetDomainLimit now d ms rl :
  int_range ms → keeps_inv (Limiter.SetDomainLimit now d ms rl).
Proof.
  intros Hms l Hl. pose proof Hl as ((Ha & Hd & _) & _).
  destruct l as [al amu dl dmu mc mx]; simpl in *; subst.
  eexists tt, _. split.
  - unfold Limiter.SetDomainLimit. limiter_unfold. simpl. reflexivity.
  - refine (limiter_inv_insert_domain _ d _ Hl _).
    repeat split; simpl; try done; apply Hms.
Qed.

Lemma keeps_inv_ResetAgentLimits now a :
  keeps_inv (Limiter.ResetAgentLimits now a).
Proof.
  intros l Hl. pose proof Hl as ((Ha & Hd & Hal & _) & _).
  destruct (Limiter.agentLimits l !! a) as [lim|] eqn:E.
  - destruct (limiter_inv_lookup_agent _ _ _ Hl E) as (Hmu&?&?&?&?).
    destruct l as [al amu dl dmu mc mx]; simpl in *; subst.
    destruct lim as [? ? ? ? ? ? ? mu]; simpl in Hmu; subst mu.
    eexists tt, _. split.
    + unfold Limiter.ResetAgentLimits. limiter_unfold. exec. reflexivity.
    + refine (limiter_inv_insert_agent _ a _ Hl _).
      unfold int_range in *; simpl in *; repeat split; simpl; try done; lia.
  - exists tt, l. split; [|done].
    destruct l as [al amu dl dmu mc mx]; simpl in *; subst.
    unfold Limiter.ResetAgentLimits. limiter_unfold. simpl. by rewrite E.
Qed.

Lemma keeps_inv_ResetDomainLimits now d :
  keeps_inv (Limiter.ResetDomainLimits now d).
Proof.
  intros l Hl. pose proof Hl as ((Ha & Hd & _ & Hdl) & _).
  destruct (Limiter.domainLimits l !! d) as [lim|] eqn:E.
  - destruct (limiter_inv_lookup_domain _ _ _ Hl E) as (Hmu&?&?&?&?).
    destruct l as [al amu dl dmu mc mx]; simpl in *; subst.
    destruct lim as [? ? ? ? ? ? mu]; simpl in Hmu; subst mu.
    eexists tt, _. split.
    + unfold Limiter.ResetDomainLimits. limiter_unfold. exec. reflexivity.
    + refine (limiter_inv_insert_domain _ d _ Hl _).
      unfold int_range in *; simpl in *; repeat split; simpl; try done; lia.
  - exists tt, l. split; [|done].
    destruct l as [al amu dl dmu mc mx]; simpl in *; subst.
    unfold Limiter.ResetDomainLimits. limiter_unfold. simpl. by rewrite E.
Qed.

Lemma GetAgentLimit_run l a :
  RWMutex.writer (Limiter.agentMu l) = false →
  Limiter.GetAgentLimit a l = Done (Limiter.agentLimits l !! a) l.
Proof.
  intros Hw. destruct l as [al [w r] dl dmu mc mx]; simpl in *; subst.
  unfold Limiter.GetAgentLimit. limiter_unfold. simpl. reflexivity.
Qed.

Lemma GetDomainLimit_run l d :
  RWMutex.writer (Limiter.domainMu l) = false →
  Limiter.GetDomainLimit d l =
    Fatal (Limiter.set_domainMu
             {| RWMutex.writer := false;
                RWMutex.readers := S (RWMutex.readers (Limiter.domainMu l)) |} l).
Proof.
  intros Hw. destruct l as [al amu dl [w r] mc mx]; simpl in *; subst.
  unfold Limiter.GetDomainLimit. limiter_unfold. simpl. reflexivity.
Qed.

Lemma GetDomainLimit_not_returned l d :
  returned (Limiter.GetDomainLimit d l) = None.
Proof.
  destruct (RWMutex.writer (Limiter.domainMu l)) eqn:Hw.
  - destruct l as [al amu dl [w r] mc mx]; simpl in *; subst.
    unfold Limiter.GetDomainLimit. limiter_unfold. simpl. reflexivity.
  - by rewrite GetDomainLimit_run.
Qed.

Lemma keeps_inv_GetAgentLimit a : keeps_inv (Limiter.GetAgentLimit a).
Proof.
  intros l Hl. rewrite GetAgentLimit_run; [eauto|].
  destruct Hl as ((-> & _) & _). done.
Qed.

Lemma keeps_inv_CheckRequest now1 now2 a d :
  keeps_inv (Limiter.CheckRequest now1 now2 a d).
Proof.
  unfold Limiter.CheckRequest.
  apply keeps_inv_bind; [apply keeps_inv_CheckAgentRateLimit|].
  intros [e|]; [apply keeps_inv_ret|].
  apply keeps_inv_bind; [apply keeps_inv_CheckDomainRateLimit|].
  intros [e|]; [apply keeps_inv_ret|].
  apply keeps_inv_bind; [apply keeps_inv_CheckAgentStreamLimit|].
  intros [e|]; [apply keeps_inv_ret|].
  apply keeps_inv_bind; [apply keeps_inv_CheckDomainStreamLimit|].
  intros [e|]; apply keeps_inv_ret.
Qed.

Lemma keeps_inv_exec_op o :
  op_ints o → (∀ d, o ≠ OpGetDomainLimit d) → keeps_inv (exec_op o).
Proof.
  intros Hi Hne. destruct o; simpl in *;
    try apply keeps_inv_discard;
    eauto using keeps_inv_SetAgentLimit, keeps_inv_SetDomainLimit,
      keeps_inv_CheckAgentStreamLimit, keeps_inv_CheckDomainStreamLimit,
      keeps_inv_CheckAgentRateLimit, keeps_inv_CheckDomainRateLimit,
      keeps_inv_AcquireStream, keeps_inv_ReleaseStream, keeps_inv_CheckRequest,
      keeps_inv_GetAgentLimit, keeps_inv_ResetAgentLimits,
      keeps_inv_ResetDomainLimits.
  by destruct (Hne domain).
Qed.

Lemma counters_nonneg_exec_op o l :
  limiter_inv l → op_ints o → counters_nonneg (final (exec_op o l)).
Proof.
  intros Hl Hi.
  assert ((∃ d, o = OpGetDomainLimit d) ∨ (∀ d, o ≠ OpGetDomainLimit d))
    as [[d ->]|Hne] by (destruct o; eauto).
  - simpl. unfold discard, mbind, go_bind.
    rewrite GetDomainLimit_run by (by destruct Hl as ((_ & -> & _) & _)).
    simpl. apply Hl.
  - destruct (keeps_inv_exec_op o Hi Hne l Hl) as (r & l' & -> & Hl').
    apply Hl'.
Qed.

(** *** Claims about the quota package *)

(** C6 (as amended).  On every call the code can make (the bucket's
    mutex free, the clock reading not before [lastRefill], which is only
    ever set from the monotonic clock), [AllowN now n] refills to
    [min(capacity, tokens + elapsed * refillRate)], computed in binary64,
    sets [lastRefill = now], and then returns true and subtracts [n]
    exactly when the refilled level is at least [float64(n)], leaving the
    refilled level otherwise; [Allow] is [AllowN 1].  A bucket of capacity
    [<= 0] denies every [Allow] and every [AllowN n] with [n >= 1].  With
    [capacity > 0] or [n >= 1] the call agrees with the specified
    [allow_n], whose clamp of a negative elapsed time never applies. *)
Theorem token_bucket_refill_then_consume (now : Time) (n : Z) (tb : TokenBucket.t) :
  Mutex.locked (TokenBucket.mu tb) = false →
  TokenBucket.lastRefill tb ≤ now →
  let level := refill_level now tb in
  TokenBucket.AllowN now n tb =
    (if f64.leb (f64.of_int n) level
     then Done true (bucket_after now (f64.sub level (f64.of_int n)) tb)
     else Done false (bucket_after now level tb))
  ∧ TokenBucket.Allow now tb = TokenBucket.AllowN now 1 tb
  ∧ (TokenBucket.capacity tb ≤ 0 →
       returned (TokenBucket.Allow now tb) = Some false
       ∧ (1 ≤ n → returned (TokenBucket.AllowN now n tb) = Some false))
  ∧ (0 < TokenBucket.capacity tb ∨ 1 ≤ n →
       TokenBucket.AllowN now n tb =
         Done (spec_allow_n now n tb).1 (spec_allow_n now n tb).2).
Proof.
  intros Hfree Hnow level. split; [by apply AllowN_run|]. split; [done|]. split.
  - intros Hc. split; [|intros Hn].
    + rewrite Allow_is_AllowN_1, AllowN_run by done. cbv zeta.
      by rewrite (deny_at_capacity_le_0 now 1 tb) by (done || lia).
    + rewrite AllowN_run by done. cbv zeta.
      by rewrite (deny_at_capacity_le_0 now n tb) by done.
  - intros Hcn. rewrite AllowN_run by done. cbv zeta.
    unfold spec_allow_n.
    rewrite leb_zero_signed by (apply Seconds_nonneg; unfold Sub; lia).
    fold (refill_level now tb).
    destruct (TokenBucket.capacity tb <=? 0) eqn:Hc.
    + apply Z.leb_le in Hc. destruct Hcn as [?|Hn]; [lia|].
      by rewrite (deny_at_capacity_le_0 now n tb) by done.
    + by destruct (f64.leb (f64.of_int n) (refill_level now tb)).
Qed.

Lemma token_bucket_refill_then_consume_witness :
  Mutex.locked (TokenBucket.mu (NewTokenBucket 0 3 1)) = false
  ∧ TokenBucket.lastRefill (NewTokenBucket 0 3 1) ≤ Second
  ∧ TokenBucket.AllowN Second 2 (NewTokenBucket 0 3 1) =
      Done (spec_allow_n Second 2 (NewTokenBucket 0 3 1)).1
           (spec_allow_n Second 2 (NewTokenBucket 0 3 1)).2.
Proof.
  split; [reflexivity|]. split; [vm_compute; discriminate|].
  apply (token_bucket_refill_then_consume Second 2 (NewTokenBucket 0 3 1)).
  - reflexivity.
  - vm_compute. discriminate.
  - left. reflexivity.
Defined.

(** C6, the claim as stated, fails on the code: on the bucket
    [NewTokenBucket 0 0], of capacity 0, a call of [AllowN 0] one second
    after its creation finds the level 0 at least 0 and returns true, where
    a bucket of capacity [<= 0] is specified to deny every call. *)
Lemma token_bucket_claim_fails :
  TokenBucket.capacity (NewTokenBucket 0 0 0) ≤ 0
  ∧ TokenBucket.lastRefill (NewTokenBucket 0 0 0) ≤ Second
  ∧ returned (TokenBucket.AllowN Second 0 (NewTokenBucket 0 0 0)) = Some true
  ∧ (spec_allow_n Second 0 (NewTokenBucket 0 0 0)).1 = false.
Proof. repeat split; vm_compute; congruence. Qed.

(** The level is a binary64 value.  A bucket of one token, emptied at
    second 0 and asked again every 100 ms, has accumulated ten refills of a
    tenth of a token after one second; their binary64 sum is below 1 and the
    call at one second is denied, the first to succeed being the one at
    1.1 s.  And [AllowN (2^53 + 1)] succeeds on a full bucket of capacity
    [2^53], because [float64(2^53 + 1)] is [2^53]. *)
Example token_bucket_rounds_in_binary64 :
  returned (allow_at ((λ k, k * (100 * Millisecond)) <$> seqZ 0 12)
              (NewTokenBucket 0 1 1))
  = Some [true; false; false; false; false; false; false; false; false;
          false; false; true]
  ∧ returned (TokenBucket.AllowN 0 (2 ^ 53 + 1) (NewTokenBucket 0 (2 ^ 53) 1))
    = Some true.
Proof. split; vm_compute; reflexivity. Qed.

Lemma example_limiter_inv : limiter_inv example_limiter.
Proof.
  assert (limiter_inv (NewLimiter 10 100)) as H0.
  { split; [split; [|split; [|split]]|split; split]; simpl; try done;
      intros ? ?; rewrite lookup_empty; done. }
  destruct (keeps_inv_SetAgentLimit 0 "agent-1" 2 1048576 10) with (l := NewLimiter 10 100)
    as (r & l1 & E1 & H1); [unfold int_range; lia|done|].
  destruct (keeps_inv_SetDomainLimit 0 "example.localhost" 5 10) with (l := l1)
    as (r' & l2 & E2 & H2); [unfold int_range; lia|done|].
  unfold example_limiter. rewrite E1. simpl. rewrite E2. done.
Qed.

(** C7.  In a limiter state between calls (no lock held, the [int] fields
    in range) whose configured counters are all non-negative, a successful
    [AcquireStream agentID domain] immediately followed by
    [ReleaseStream agentID domain] returns and restores the whole limiter
    state, in particular both [CurrentStreams] counters; and every limiter
    operation leaves every configured counter [>= 0] (and, except for
    [GetDomainLimit], returns and re-establishes the invariant). *)
Theorem acquire_release_restores_counters (l : Limiter.t) :
  limiter_quiescent l → limiter_ints l → counters_nonneg l →
  (∀ agentID domain l1,
     Limiter.AcquireStream agentID domain l = Done None l1 →
     Limiter.ReleaseStream agentID domain l1 = Done tt l
     ∧ Limiter.agentLimits (final (Limiter.ReleaseStream agentID domain l1)) !! agentID
       = Limiter.agentLimits l !! agentID
     ∧ Limiter.domainLimits (final (Limiter.ReleaseStream agentID domain l1)) !! domain
       = Limiter.domainLimits l !! domain)
  ∧ (∀ o, op_ints o →
       counters_nonneg (final (exec_op o l))
       ∧ ((∀ d, o ≠ OpGetDomainLimit d) →
          ∃ l', exec_op o l = Done tt l' ∧ limiter_inv l')).
Proof.
  intros Hq Hi Hn.
  assert (limiter_inv l) as Hinv by (split; [|split]; done).
  split.
  - intros a d l1 Hacq.
    rewrite (acquire_release_identity l a d l1) by done. done.
  - intros o Ho. split.
    + by apply counters_nonneg_exec_op.
    + intros Hne.
      destruct (keeps_inv_exec_op o Ho Hne l Hinv) as ([] & l' & E & Hl'); eauto.
Qed.

Lemma acquire_release_restores_counters_witness :
  (limiter_quiescent example_limiter ∧ limiter_ints example_limiter
   ∧ counters_nonneg example_limiter)
  ∧ ∃ l1, Limiter.AcquireStream "agent-1" "example.localhost" example_limiter
            = Done None l1
    ∧ Limiter.ReleaseStream "agent-1" "example.localhost" l1
            = Done tt example_limiter.
Proof.
  split; [exact example_limiter_inv|].
  eexists. split; [vm_compute; reflexivity|].
  destruct example_limiter_inv as (Hq & Hi & Hn).
  apply (acquire_release_restores_counters example_limiter Hq Hi Hn).
  vm_compute; reflexivity.
Defined.

(** C10.  [GetDomainLimit] takes the read lock of [domainMu] and its
    deferred call is [Unlock], the release of the write lock: from every
    limiter state no call returns normally, and wherever the read lock can
    be taken the call ends in the runtime error of unlocking an RWMutex that
    is not write-locked, the read lock still held.  [GetAgentLimit] pairs
    [RLock] with [RUnlock]: wherever the read lock can be taken it returns
    the table entry and leaves the limiter as it was. *)
Theorem GetDomainLimit_never_returns_GetAgentLimit_does :
  (∀ domain l, returned (Limiter.GetDomainLimit domain l) = None)
  ∧ (∀ domain l, RWMutex.writer (Limiter.domainMu l) = false →
       Limiter.GetDomainLimit domain l =
         Fatal (Limiter.set_domainMu
                  {| RWMutex.writer := false;
                     RWMutex.readers := S (RWMutex.readers (Limiter.domainMu l)) |} l))
  ∧ (∀ agentID l, RWMutex.writer (Limiter.agentMu l) = false →
       Limiter.GetAgentLimit agentID l = Done (Limiter.agentLimits l !! agentID) l).
Proof.
  split; [|split].
  - intros. apply GetDomainLimit_not_returned.
  - intros. by apply GetDomainLimit_run.
  - intros. by apply GetAgentLimit_run.
Qed.

Lemma GetDomainLimit_never_returns_GetAgentLimit_does_witness :
  RWMutex.writer (Limiter.domainMu example_limiter) = false
  ∧ RWMutex.writer (Limiter.agentMu example_limiter) = false
  ∧ returned (Limiter.GetDomainLimit "example.localhost" example_limiter) = None
  ∧ is_Some (returned (Limiter.GetAgentLimit "agent-1" example_limiter)).
Proof.
  split; [reflexivity|]. split; [reflexivity|].
  destruct GetDomainLimit_never_returns_GetAgentLimit_does as (H1 & H2 & H3).
  split; [apply H1|].
  rewrite (H3 "agent-1" example_limiter eq_refl). simpl. eauto.
Defined.

(** *** Further properties of the quota package *)

Lemma GetStats_run now tb :
  Mutex.locked (TokenBucket.mu tb) = false →
  TokenBucket.GetStats now tb =
    Done (refill_level now tb, TokenBucket.capacity tb)
         (bucket_after now (refill_level now tb) tb).
Proof.
  intros Hfree. destruct tb as [c tk r last [lk]]. simpl in Hfree. subst lk.
  bucket_unfold. reflexivity.
Qed.



(** X2.  A refused acquisition takes nothing: when [AcquireStream] returns
    an error the limiter is exactly as before the call.  The error is the
    agent's when the agent's counter has reached its cap, and the domain's
    when only the domain's has; in the second case the agent's counter has
    not been incremented. *)
Theorem AcquireStream_refused_changes_nothing
    (agentID domain : string) (l : Limiter.t) (e : error) :
  limiter_quiescent l →
  returned (Limiter.AcquireStream agentID domain l) = Some (Some e) →
  Limiter.AcquireStream agentID domain l = Done (Some e) l
  ∧ (e = ErrAgentStreamLimitExceeded ∧ agent_full l agentID = true
     ∨ e = ErrDomainStreamLimitExceeded ∧ agent_full l agentID = false
       ∧ domain_full l domain = true).
Proof.
  intros Hq. rewrite AcquireStream_run by done.
  destruct (agent_full l agentID); [|destruct (domain_full l domain)]; simpl;
    intros [= <-]; auto.
Qed.

Lemma AcquireStream_refused_changes_nothing_witness :
  let l2 := final (Limiter.AcquireStream "agent-1" "example.localhost"
              (final (Limiter.AcquireStream "agent-1" "example.localhost"
                        example_limiter))) in
  limiter_quiescent l2
  ∧ Limiter.AcquireStream "agent-1" "other.localhost" l2
    = Done (Some ErrAgentStreamLimitExceeded) l2.
Proof.
  set (l2 := final (Limiter.AcquireStream "agent-1" "example.localhost"
              (final (Limiter.AcquireStream "agent-1" "example.localhost"
                        example_limiter)))).
  assert (limiter_quiescent l2) as Hq.
  { destruct (keeps_inv_AcquireStream "agent-1" "example.localhost"
                example_limiter example_limiter_inv) as (r1 & l1 & E1 & H1).
    destruct (keeps_inv_AcquireStream "agent-1" "example.localhost" l1 H1)
      as (r2 & l2' & E2 & H2).
    unfold l2. rewrite E1. simpl. rewrite E2. apply H2. }
  split; [exact Hq|].
  apply (AcquireStream_refused_changes_nothing "agent-1" "other.localhost" l2
           ErrAgentStreamLimitExceeded Hq).
  vm_compute. reflexivity.
Defined.

(** *** Stream counters and their caps *)

Lemma keeps_caps_ret {A} (x : A) : keeps_caps (mret x).
Proof. intros l Hl Hc. by exists x, l. Qed.

Lemma keeps_caps_bind {A B} (c : go Limiter.t A) (f : A → go Limiter.t B) :
  keeps_caps c → (∀ x, keeps_caps (f x)) → keeps_caps (c ≫= f).
Proof.
  intros Hc Hf l Hl Hcap. destruct (Hc l Hl Hcap) as (x & l1 & E & Hl1 & Hc1).
  destruct (Hf x l1 Hl1 Hc1) as (y & l2 & E' & Hl2 & Hc2).
  exists y, l2. split; [|done]. unfold mbind, go_bind. by rewrite E.
Qed.

Lemma keeps_caps_discard {A} (c : go Limiter.t A) :
  keeps_caps c → keeps_caps (discard c).
Proof. intros H. apply keeps_caps_bind; [done|]. intros. apply keeps_caps_ret. Qed.

Lemma within_caps_insert_agent l a lim :
  within_caps l → AgentLimit.CurrentStreams lim ≤ AgentLimit.MaxStreams lim →
  within_caps (Limiter.set_agentLimits (<[a := lim]> (Limiter.agentLimits l)) l).
Proof.
  intros [Ha Hd] Hlim. split; simpl; [|done].
  intros b lim'. rewrite lookup_insert. case_decide; [by intros [= <-]|apply Ha].
Qed.

Lemma within_caps_insert_domain l d lim :
  within_caps l → DomainLimit.CurrentStreams lim ≤ DomainLimit.MaxStreams lim →
  within_caps (Limiter.set_domainLimits (<[d := lim]> (Limiter.domainLimits l)) l).
Proof.
  intros [Ha Hd] Hlim. split; simpl; [done|].
  intros b lim'. rewrite lookup_insert. case_decide; [by intros [= <-]|apply Hd].
Qed.

(** A call that returns, re-establishes the invariant and leaves a state
    described by [post]. *)
Lemma keeps_caps_from_run {A} (c : go Limiter.t A) :
  keeps_inv c →
  (∀ l r l', limiter_inv l → within_caps l → c l = Done r l' → within_caps l') →
  keeps_caps c.
Proof.
  intros Hk Hpost l Hl Hc. destruct (Hk l Hl) as (r & l' & E & Hl').
  exists r, l'. eauto.
Qed.

Lemma keeps_caps_CheckAgentStreamLimit a :
  keeps_caps (Limiter.CheckAgentStreamLimit a).
Proof.
  apply keeps_caps_from_run; [apply keeps_inv_CheckAgentStreamLimit|].
  intros l r l' Hl Hc. rewrite CheckAgentStreamLimit_run by apply Hl.
  by intros [= _ <-].
Qed.

Lemma keeps_caps_CheckDomainStreamLimit d :
  keeps_caps (Limiter.CheckDomainStreamLimit d).
Proof.
  apply keeps_caps_from_run; [apply keeps_inv_CheckDomainStreamLimit|].
  intros l r l' Hl Hc. rewrite CheckDomainStreamLimit_run by apply Hl.
  by intros [= _ <-].
Qed.

Lemma keeps_caps_CheckAgentRateLimit now a :
  keeps_caps (Limiter.CheckAgentRateLimit now a).
Proof.
  apply keeps_caps_from_run; [apply keeps_inv_CheckAgentRateLimit|].
  intros l r l' Hl Hc. rewrite CheckAgentRateLimit_run by apply Hl.
  destruct (Limiter.agentLimits l !! a) as [lim|] eqn:E; [|by intros [= _ <-]].
  pose proof (proj1 Hc _ _ E) as Hlim. cbv zeta.
  destruct (f64.leb _ _); intros [= _ <-];
    by apply within_caps_insert_agent.
Qed.

Lemma keeps_caps_CheckDomainRateLimit now d :
  keeps_caps (Limiter.CheckDomainRateLimit now d).
Proof.
  apply keeps_caps_from_run; [apply keeps_inv_CheckDomainRateLimit|].
  intros l r l' Hl Hc. rewrite CheckDomainRateLimit_run by apply Hl.
  destruct (Limiter.domainLimits l !! d) as [lim|] eqn:E; [|by intros [= _ <-]].
  pose proof (proj2 Hc _ _ E) as Hlim. cbv zeta.
  destruct (f64.leb _ _); intros [= _ <-];
    by apply within_caps_insert_domain.
Qed.

Lemma within_caps_incr_agent l a :
  limiter_inv l → within_caps l → agent_full l a = false →
  within_caps (Limiter.set_agentLimits (incr_agent a (Limiter.agentLimits l)) l).
Proof.
  intros Hl Hc Hf. unfold incr_agent, agent_full in *.
  destruct (Limiter.agentLimits l !! a) as [lim|] eqn:E;
    [|by rewrite set_agentLimits_id].
  destruct (limiter_inv_lookup_agent _ _ _ Hl E) as (?&?&Hm&?&?).
  apply Z.leb_gt in Hf. apply within_caps_insert_agent; [done|]. simpl.
  rewrite wrap_int_id; unfold int_range in *; lia.
Qed.

Lemma within_caps_incr_domain l d :
  limiter_inv l → within_caps l → domain_full l d = false →
  within_caps (Limiter.set_domainLimits (incr_domain d (Limiter.domainLimits l)) l).
Proof.
  intros Hl Hc Hf. unfold incr_domain, domain_full in *.
  destruct (Limiter.domainLimits l !! d) as [lim|] eqn:E;
    [|by rewrite set_domainLimits_id].
  destruct (limiter_inv_lookup_domain _ _ _ Hl E) as (?&?&Hm&?&?).
  apply Z.leb_gt in Hf. apply within_caps_insert_domain; [done|]. simpl.
  rewrite wrap_int_id; unfold int_range in *; lia.
Qed.

Lemma within_caps_decr_agent l a :
  limiter_inv l → within_caps l →
  within_caps (Limiter.set_agentLimits (decr_agent a (Limiter.agentLimits l)) l).
Proof.
  intros Hl Hc. unfold decr_agent.
  destruct (Limiter.agentLimits l !! a) as [lim|] eqn:E;
    [|by rewrite set_agentLimits_id].
  destruct (limiter_inv_lookup_agent _ _ _ Hl E) as (?&?&Hm&?&?).
  pose proof (proj1 Hc _ _ E) as Hlim.
  apply within_caps_insert_agent; [done|].
  destruct (0 <? AgentLimit.CurrentStreams lim) eqn:Hp; [|done]. simpl.
  apply Z.ltb_lt in Hp. rewrite wrap_int_id; unfold int_range in *; lia.
Qed.

Lemma within_caps_decr_domain l d :
  limiter_inv l → within_caps l →
  within_caps (Limiter.set_domainLimits (decr_domain d (Limiter.domainLimits l)) l).
Proof.
  intros Hl Hc. unfold decr_domain.
  destruct (Limiter.domainLimits l !! d) as [lim|] eqn:E;
    [|by rewrite set_domainLimits_id].
  destruct (limiter_inv_lookup_domain _ _ _ Hl E) as (?&?&Hm&?&?).
  pose proof (proj2 Hc _ _ E) as Hlim.
  apply within_caps_insert_domain; [done|].
  destruct (0 <? DomainLimit.CurrentStreams lim) eqn:Hp; [|done]. simpl.
  apply Z.ltb_lt in Hp. rewrite wrap_int_id; unfold int_range in *; lia.
Qed.

Lemma keeps_caps_AcquireStream a d : keeps_caps (Limiter.AcquireStream a d).
Proof.
  apply keeps_caps_from_run; [apply keeps_inv_AcquireStream|].
  intros l r l' Hl Hc. rewrite AcquireStream_run by apply Hl.
  destruct (agent_full l a) eqn:Fa; [by intros [= _ <-]|].
  destruct (domain_full l d) eqn:Fd; [by intros [= _ <-]|].
  intros [= _ <-].
  pose proof (limiter_inv_incr_agent _ _ Hl Fa) as H1.
  pose proof (within_caps_incr_agent _ _ Hl Hc Fa) as H2.
  apply (within_caps_incr_domain _ d) in H2; [done|done|by destruct l].
Qed.

Lemma keeps_caps_ReleaseStream a d : keeps_caps (Limiter.ReleaseStream a d).
Proof.
  apply keeps_caps_from_run; [apply keeps_inv_ReleaseStream|].
  intros l r l' Hl Hc. rewrite ReleaseStream_run by apply Hl.
  intros [= ?]; subst l'.
  pose proof (limiter_inv_decr_agent _ a Hl) as H1.
  pose proof (within_caps_decr_agent _ a Hl Hc) as H2.
  apply (within_caps_decr_domain _ d) in H2; [by destruct l|done].
Qed.

Lemma keeps_caps_CheckRequest now1 now2 a d :
  keeps_caps (Limiter.CheckRequest now1 now2 a d).
Proof.
  unfold Limiter.CheckRequest.
  apply keeps_caps_bind; [apply keeps_caps_CheckAgentRateLimit|].
  intros [e|]; [apply keeps_caps_ret|].
  apply keeps_caps_bind; [apply keeps_caps_CheckDomainRateLimit|].
  intros [e|]; [apply keeps_caps_ret|].
  apply keeps_caps_bind; [apply keeps_caps_CheckAgentStreamLimit|].
  intros [e|]; [apply keeps_caps_ret|].
  apply keeps_caps_bind; [apply keeps_caps_CheckDomainStreamLimit|].
  intros [e|]; apply keeps_caps_ret.
Qed.

Lemma keeps_caps_GetAgentLimit a : keeps_caps (Limiter.GetAgentLimit a).
Proof.
  apply keeps_caps_from_run; [apply keeps_inv_GetAgentLimit|].
  intros l r l' Hl Hc. rewrite GetAgentLimit_run.
  - by intros [= _ <-].
  - by destruct Hl as ((-> & _) & _).
Qed.

Lemma keeps_caps_SetAgentLimit now a ms mb rl :
  0 ≤ ms < 2 ^ 63 → keeps_caps (Limiter.SetAgentLimit now a ms mb rl).
Proof.
  intros Hms. apply keeps_caps_from_run.
  { apply keeps_inv_SetAgentLimit. unfold int_range. lia. }
  intros l r l' Hl Hc. destruct Hl as ((Ha & _) & _).
  destruct l as [al amu dl dmu mc mx]; simpl in *; subst.
  unfold Limiter.SetAgentLimit. limiter_unfold. simpl. intros [= ?]; subst l'.
  apply (within_caps_insert_agent _ a _ Hc). simpl. lia.
Qed.

Lemma keeps_caps_SetDomainLimit now d ms rl :
  0 ≤ ms < 2 ^ 63 → keeps_caps (Limiter.SetDomainLimit now d ms rl).
Proof.
  intros Hms. apply keeps_caps_from_run.
  { apply keeps_inv_SetDomainLimit. unfold int_range. lia. }
  intros l r l' Hl Hc. destruct Hl as ((_ & Hd & _) & _).
  destruct l as [al amu dl dmu mc mx]; simpl in *; subst.
  unfold Limiter.SetDomainLimit. limiter_unfold. simpl. intros [= ?]; subst l'.
  apply (within_caps_insert_domain _ d _ Hc). simpl. lia.
Qed.

Lemma keeps_caps_ResetAgentLimits now a :
  keeps_caps (Limiter.ResetAgentLimits now a).
Proof.
  apply keeps_caps_from_run; [apply keeps_inv_ResetAgentLimits|].
  intros l r l' Hl Hc. pose proof Hl as ((Ha & _) & _).
  destruct (Limiter.agentLimits l !! a) as [lim|] eqn:E.
  - destruct (limiter_inv_lookup_agent _ _ _ Hl E) as (Hmu&?&?&?&?).
    pose proof (proj1 Hc _ _ E) as Hlim.
    destruct l as [al amu dl dmu mc mx]; simpl in *; subst.
    destruct lim as [? ? ? ? ? ? ? mu]; simpl in Hmu; subst mu.
    unfold Limiter.ResetAgentLimits. limiter_unfold. exec. intros [= ?]; subst l'.
    apply (within_caps_insert_agent _ a _ Hc). simpl in *. lia.
  - destruct l as [al amu dl dmu mc mx]; simpl in *; subst.
    unfold Limiter.ResetAgentLimits. limiter_unfold. simpl. rewrite E.
    by intros [= ?]; subst l'.
Qed.

Lemma keeps_caps_ResetDomainLimits now d :
  keeps_caps (Limiter.ResetDomainLimits now d).
Proof.
  apply keeps_caps_from_run; [apply keeps_inv_ResetDomainLimits|].
  intros l r l' Hl Hc. pose proof Hl as ((_ & Hd & _) & _).
  destruct (Limiter.domainLimits l !! d) as [lim|] eqn:E.
  - destruct (limiter_inv_lookup_domain _ _ _ Hl E) as (Hmu&?&?&?&?).
    pose proof (proj2 Hc _ _ E) as Hlim.
    destruct l as [al amu dl dmu mc mx]; simpl in *; subst.
    destruct lim as [? ? ? ? ? ? mu]; simpl in Hmu; subst mu.
    unfold Limiter.ResetDomainLimits. limiter_unfold. exec. intros [= ?]; subst l'.
    apply (within_caps_insert_domain _ d _ Hc). simpl in *. lia.
  - destruct l as [al amu dl dmu mc mx]; simpl in *; subst.
    unfold Limiter.ResetDomainLimits. limiter_unfold. simpl. rewrite E.
    by intros [= ?]; subst l'.
Qed.

Lemma keeps_caps_exec_op o :
  op_caps o → (∀ d, o ≠ OpGetDomainLimit d) → keeps_caps (exec_op o).
Proof.
  intros Hi Hne. destruct o; simpl in *;
    try apply keeps_caps_discard;
    eauto using keeps_caps_SetAgentLimit, keeps_caps_SetDomainLimit,
      keeps_caps_CheckAgentStreamLimit, keeps_caps_CheckDomainStreamLimit,
      keeps_caps_CheckAgentRateLimit, keeps_caps_CheckDomainRateLimit,
      keeps_caps_AcquireStream, keeps_caps_ReleaseStream, keeps_caps_CheckRequest,
      keeps_caps_GetAgentLimit, keeps_caps_ResetAgentLimits,
      keeps_caps_ResetDomainLimits.
  by destruct (Hne domain).
Qed.

Lemma caps_after_ops ops : ∀ l,
  Forall op_caps ops → limiter_inv l → within_caps l →
  counters_nonneg (final (for_each ops exec_op l))
  ∧ within_caps (final (for_each ops exec_op l)).
Proof.
  induction ops as [|o ops IH]; intros l Hops Hl Hc; simpl.
  { split; [apply Hl|done]. }
  apply Forall_cons in Hops as [Ho Hops].
  unfold mbind, go_bind.
  assert ((∃ d, o = OpGetDomainLimit d) ∨ (∀ d, o ≠ OpGetDomainLimit d))
    as [[d ->]|Hne] by (destruct o; eauto).
  - simpl. unfold discard, mbind, go_bind.
    rewrite GetDomainLimit_run by (by destruct Hl as ((_ & -> & _) & _)).
    simpl. split; [apply Hl|apply Hc].
  - destruct (keeps_caps_exec_op o Ho Hne l Hl Hc) as ([] & l' & -> & Hl' & Hc').
    by apply IH.
Qed.

(** X3.  The stream caps hold: starting from a new limiter, after any
    sequence of limiter operations run one after the other (the installed
    caps being non-negative [int] values), every configured agent and
    every configured domain has a stream counter between 0 and its
    [MaxStreams]. *)
Theorem stream_counters_stay_within_caps
    (maxConnections maxStreams : Z) (ops : list limiter_op) :
  Forall op_caps ops →
  let l := final (for_each ops exec_op (NewLimiter maxConnections maxStreams)) in
  (∀ agentID lim, Limiter.agentLimits l !! agentID = Some lim →
     0 ≤ AgentLimit.CurrentStreams lim ≤ AgentLimit.MaxStreams lim)
  ∧ (∀ domain lim, Limiter.domainLimits l !! domain = Some lim →
       0 ≤ DomainLimit.CurrentStreams lim ≤ DomainLimit.MaxStreams lim).
Proof.
  intros Hops l.
  assert (limiter_inv (NewLimiter maxConnections maxStreams)) as H0.
  { split; [split; [|split; [|split]]|split; split]; simpl; try done;
      intros ? ?; rewrite lookup_empty; done. }
  assert (within_caps (NewLimiter maxConnections maxStreams)) as Hc0.
  { split; simpl; intros ? ?; rewrite lookup_empty; done. }
  destruct (caps_after_ops ops _ Hops H0 Hc0) as [[Hna Hnd] [Hca Hcd]].
  fold l in Hna, Hnd, Hca, Hcd. split.
  - intros a lim E. split; [by apply (Hna _ _ E)|by apply (Hca _ _ E)].
  - intros d lim E. split; [by apply (Hnd _ _ E)|by apply (Hcd _ _ E)].
Qed.

Lemma stream_counters_stay_within_caps_witness :
  let ops := [OpSetAgentLimit 0 "agent-1" 1 0 10;
              OpAcquireStream "agent-1" "a.localhost";
              OpAcquireStream "agent-1" "b.localhost";
              OpReleaseStream "agent-1" "a.localhost";
              OpReleaseStream "agent-1" "b.localhost"] in
  Forall op_caps ops
  ∧ ∀ lim, Limiter.agentLimits (final (for_each ops exec_op (NewLimiter 10 100)))
             !! "agent-1" = Some lim →
      0 ≤ AgentLimit.CurrentStreams lim ≤ AgentLimit.MaxStreams lim.
Proof.
  intros ops.
  assert (Forall op_caps ops) as Hops.
  { unfold ops. repeat constructor; simpl; lia. }
  split; [exact Hops|].
  intros lim. apply (stream_counters_stay_within_caps 10 100 ops Hops).
Defined.

(** X4.  The rate checks of [CheckRequest] run agent first, each
    consuming as it passes: when the agent's bucket has a token and the
    domain's bucket has none, the call returns
    [ErrDomainRateLimitExceeded] and the agent's bucket has nevertheless
    lost one token; the stream counters are untouched. *)
Theorem CheckRequest_domain_denial_spends_agent_token
    (now1 now2 : Time) (agentID domain : string) (l : Limiter.t)
    (alim : AgentLimit.t) (dlim : DomainLimit.t) :
  limiter_quiescent l →
  Limiter.agentLimits l !! agentID = Some alim →
  Limiter.domainLimits l !! domain = Some dlim →
  f64.leb (f64.of_int 1) (refill_level now1 (AgentLimit.TokenBucket alim)) = true →
  f64.leb (f64.of_int 1) (refill_level now2 (DomainLimit.TokenBucket dlim)) = false →
  ∃ l', Limiter.CheckRequest now1 now2 agentID domain l
        = Done (Some ErrDomainRateLimitExceeded) l'
    ∧ Limiter.agentLimits l' !! agentID
      = Some (AgentLimit.set_TokenBucket
                (bucket_after now1
                   (f64.sub (refill_level now1 (AgentLimit.TokenBucket alim))
                            (f64.of_int 1))
                   (AgentLimit.TokenBucket alim)) alim)
    ∧ (DomainLimit.CurrentStreams <$> Limiter.domainLimits l' !! domain)
      = Some (DomainLimit.CurrentStreams dlim).
Proof.
  intros Hq Ha Hd Hat Hdt. unfold Limiter.CheckRequest.
  unfold mbind at 1, go_bind at 1.
  rewrite CheckAgentRateLimit_run by done. rewrite Ha. cbv zeta. rewrite Hat.
  set (alim' := AgentLimit.set_TokenBucket _ alim).
  set (l1 := Limiter.set_agentLimits _ l).
  assert (limiter_quiescent l1) as Hq1.
  { destruct Hq as (H1 & H2 & H3 & H4). split; [done|]. split; [done|].
    split; [|done]. intros b lim. unfold l1. simpl.
    rewrite lookup_insert. case_decide; [|by apply H3].
    intros [= <-]. simpl. by apply (H3 _ _ Ha). }
  unfold mbind at 1, go_bind at 1.
  rewrite CheckDomainRateLimit_run by done.
  change (Limiter.domainLimits l1) with (Limiter.domainLimits l).
  rewrite Hd. cbv zeta. rewrite Hdt.
  eexists. split; [reflexivity|]. simpl.
  rewrite !lookup_insert_eq. done.
Qed.

Lemma CheckRequest_domain_denial_spends_agent_token_witness :
  let l := final (Limiter.SetDomainLimit 0 "example.localhost" 5 0
             (final (Limiter.SetAgentLimit 0 "agent-1" 2 0 10
                (NewLimiter 10 100)))) in
  returned (Limiter.CheckRequest 0 0 "agent-1" "example.localhost" l)
  = Some (Some ErrDomainRateLimitExceeded)
  ∧ ∃ lim, Limiter.agentLimits
             (final (Limiter.CheckRequest 0 0 "agent-1" "example.localhost" l))
             !! "agent-1" = Some lim
      ∧ TokenBucket.tokens (AgentLimit.TokenBucket lim) = f64.of_int 9.
Proof.
  intros l.
  assert (limiter_quiescent l) as Hq.
  { assert (limiter_inv (NewLimiter 10 100)) as H0.
    { split; [split; [|split; [|split]]|split; split]; simpl; try done;
        intros ? ?; rewrite lookup_empty; done. }
    destruct (keeps_inv_SetAgentLimit 0 "agent-1" 2 0 10) with (l := NewLimiter 10 100)
      as (r & l1 & E1 & H1); [unfold int_range; lia|done|].
    destruct (keeps_inv_SetDomainLimit 0 "example.localhost" 5 0) with (l := l1)
      as (r' & l2 & E2 & H2); [unfold int_range; lia|done|].
    unfold l. rewrite E1. simpl. rewrite E2. apply H2. }
  destruct (CheckRequest_domain_denial_spends_agent_token 0 0 "agent-1"
              "example.localhost" l
              (new_agent_limit 0 "agent-1" 2 0 10)
              {| DomainLimit.Domain := "example.localhost";
                 DomainLimit.MaxStreams := 5; DomainLimit.RateLimit := 0;
                 DomainLimit.TokenBucket := NewTokenBucket 0 0 0;
                 DomainLimit.CurrentStreams := 0; DomainLimit.LastReset := 0;
                 DomainLimit.mu := RWMutex.free |} Hq)
    as (l' & E & Hlim & _).
  - vm_compute. reflexivity.
  - vm_compute. reflexivity.
  - vm_compute. reflexivity.
  - vm_compute. reflexivity.
  - rewrite E. simpl. split; [reflexivity|].
    eexists. split; [exact Hlim|]. vm_compute. reflexivity.
Defined.

(** X5.  No limit configured means no limit: for an agent and a domain
    that have no entry in the tables (the two table locks free),
    [CheckRequest] and [AcquireStream] return no error and [ReleaseStream]
    returns, and none of them changes the limiter. *)
Theorem unconfigured_keys_are_unlimited
    (now1 now2 : Time) (agentID domain : string) (l : Limiter.t) :
  Limiter.agentMu l = RWMutex.free → Limiter.domainMu l = RWMutex.free →
  Limiter.agentLimits l !! agentID = None →
  Limiter.domainLimits l !! domain = None →
  Limiter.CheckRequest now1 now2 agentID domain l = Done None l
  ∧ Limiter.AcquireStream agentID domain l = Done None l
  ∧ Limiter.ReleaseStream agentID domain l = Done tt l.
Proof.
  intros Ha Hd Hal Hdl.
  destruct l as [al amu dl dmu mc ms]; simpl in *; subst.
  unfold Limiter.CheckRequest, Limiter.AcquireStream, Limiter.ReleaseStream,
    Limiter.CheckAgentRateLimit, Limiter.CheckDomainRateLimit,
    Limiter.CheckAgentStreamLimit, Limiter.CheckDomainStreamLimit.
  limiter_unfold. exec. done.
Qed.

Lemma unconfigured_keys_are_unlimited_witness :
  Limiter.agentLimits example_limiter !! "agent-9" = None
  ∧ Limiter.AcquireStream "agent-9" "nine.localhost" example_limiter
    = Done None example_limiter.
Proof.
  split; [reflexivity|].
  apply (unconfigured_keys_are_unlimited 0 0 "agent-9" "nine.localhost"
           example_limiter); reflexivity.
Defined.

(** ** Registry *)

Import registry.

Ltac registry_unfold :=
  unfold Registry.on_tunnelsMu, Registry.on_connTunnelsMu, Registry.at_tunnel,
    Registry.new_tunnel, Registry.set_mem, Registry.set_tunnels,
    Registry.set_tunnelsMu, Registry.set_connTunnels,
    Registry.set_connTunnelsMu in *;
  go_unfold.

Lemma fresh_not_in_mem {A} (m : gmap addr A) : m !! fresh (dom m) = None.
Proof. apply not_elem_of_dom, is_fresh. Qed.

Lemma registry_inv_same mem tun ct base :
  registry_consistent
    {| Registry.mem := mem; Registry.tunnels := tun;
       Registry.tunnelsMu := RWMutex.free; Registry.connTunnels := ct;
       Registry.connTunnelsMu := RWMutex.free; Registry.baseDomain := base |} →
  registry_inv
    {| Registry.mem := mem; Registry.tunnels := tun;
       Registry.tunnelsMu := {| RWMutex.writer := false; RWMutex.readers := 0 |};
       Registry.connTunnels := ct;
       Registry.connTunnelsMu := {| RWMutex.writer := false; RWMutex.readers := 0 |};
       Registry.baseDomain := base |}.
Proof. intros H. by split; [|split]. Qed.

(** Storing a new tunnel under a free domain. *)
Lemma registry_consistent_new mem tun ct base fd cid p tn :
  registry_consistent
    {| Registry.mem := mem; Registry.tunnels := tun;
       Registry.tunnelsMu := RWMutex.free; Registry.connTunnels := ct;
       Registry.connTunnelsMu := RWMutex.free; Registry.baseDomain := base |} →
  tun !! fd = None → mem !! p = None → Tunnel.ConnectionID tn = cid →
  registry_consistent
    {| Registry.mem := <[p := tn]> mem; Registry.tunnels := <[fd := p]> tun;
       Registry.tunnelsMu := RWMutex.free;
       Registry.connTunnels := <[cid := <[fd := p]> (default ∅ (ct !! cid))]> ct;
       Registry.connTunnelsMu := RWMutex.free; Registry.baseDomain := base |}.
Proof.
  intros [Hfwd Hrev] Hfd Hp Hcid. simpl in *. split; simpl.
  - intros d' p' E'. destruct (decide (d' = fd)) as [->|Hne].
    + rewrite lookup_insert_eq in E'. injection E' as <-.
      rewrite lookup_insert_eq. eexists _, _. split; [done|].
      rewrite Hcid, lookup_insert_eq. split; [done|]. by rewrite lookup_insert_eq.
    + rewrite lookup_insert_ne in E' by done.
      destruct (Hfwd _ _ E') as (tn' & m' & Hp' & Hm' & Hd').
      assert (p' ≠ p) by congruence.
      rewrite lookup_insert_ne by done. exists tn'.
      destruct (decide (Tunnel.ConnectionID tn' = cid)) as [Hc|Hc].
      * rewrite Hc, lookup_insert_eq. eexists. split; [done|]. split; [done|].
        rewrite lookup_insert_ne by done. rewrite Hc in Hm'. by rewrite Hm'.
      * rewrite lookup_insert_ne by done. eauto.
  - intros c m d' p' Hm Hd'.
    destruct (decide (c = cid)) as [->|Hc].
    + rewrite lookup_insert_eq in Hm. injection Hm as <-.
      destruct (decide (d' = fd)) as [->|Hne].
      * rewrite lookup_insert_eq in Hd'. injection Hd' as <-.
        rewrite !lookup_insert_eq. split; [done|]. eexists; split; done.
      * rewrite lookup_insert_ne in Hd' by done.
        destruct (ct !! cid) as [m0|] eqn:Hct; simpl in Hd';
          [|by rewrite lookup_empty in Hd'].
        destruct (Hrev _ _ _ _ Hct Hd') as (E' & tn' & Hp' & Hc').
        rewrite lookup_insert_ne by done. split; [done|].
        rewrite lookup_insert_ne by congruence. eauto.
    + rewrite lookup_insert_ne in Hm by done.
      destruct (Hrev _ _ _ _ Hm Hd') as (E' & tn' & Hp' & Hc').
      assert (d' ≠ fd) by congruence.
      rewrite lookup_insert_ne by done. split; [done|].
      rewrite lookup_insert_ne by congruence. eauto.
Qed.

(** Refreshing a tunnel object in place, its connection unchanged. *)
Lemma registry_consistent_update mem tun ct base p tn tn' :
  registry_consistent
    {| Registry.mem := mem; Registry.tunnels := tun;
       Registry.tunnelsMu := RWMutex.free; Registry.connTunnels := ct;
       Registry.connTunnelsMu := RWMutex.free; Registry.baseDomain := base |} →
  mem !! p = Some tn → Tunnel.ConnectionID tn' = Tunnel.ConnectionID tn →
  registry_consistent
    {| Registry.mem := <[p := tn']> mem; Registry.tunnels := tun;
       Registry.tunnelsMu := RWMutex.free; Registry.connTunnels := ct;
       Registry.connTunnelsMu := RWMutex.free; Registry.baseDomain := base |}.
Proof.
  intros [Hfwd Hrev] Hp Hc. simpl in *. split; simpl.
  - intros d' p' E'. destruct (Hfwd _ _ E') as (tn0 & m' & Hp' & Hm' & Hd').
    destruct (decide (p' = p)) as [->|Hne].
    + rewrite Hp in Hp'. injection Hp' as <-.
      rewrite lookup_insert_eq. eexists _, m'. rewrite Hc. done.
    + rewrite lookup_insert_ne by done. eauto.
  - intros c m' d' p' Hm' Hd'.
    destruct (Hrev _ _ _ _ Hm' Hd') as (E' & tn0 & Hp' & Hc').
    split; [done|]. destruct (decide (p' = p)) as [->|Hne].
    + rewrite Hp in Hp'. injection Hp' as <-.
      rewrite lookup_insert_eq. eexists. split; [done|]. congruence.
    + rewrite lookup_insert_ne by done. eauto.
Qed.

Lemma keeps_registry_RegisterTunnel now domain subdomain connectionID agentID md :
  keeps_registry (Registry.RegisterTunnel now domain subdomain connectionID agentID md).
Proof.
  intros r (Ht & Hc & Hcons).
  destruct r as [mem tun tmu ct cmu base]; simpl in *; subst.
  pose proof Hcons as [Hfwd Hrev]. simpl in Hfwd, Hrev.
  unfold Registry.RegisterTunnel. registry_unfold. simpl.
  set (fd := Registry.buildFullDomain _ subdomain).
  destruct (bool_decide (domain ≠ EmptyString) && bool_decide (domain ≠ fd)); simpl.
  { do 2 eexists; split; [done|]. by apply registry_inv_same. }
  destruct (tun !! fd) as [p|] eqn:E; simpl.
  - destruct (Hfwd _ _ E) as (tn & m & Hp & Hm & Hd).
    rewrite Hp. simpl. case_bool_decide; simpl.
    { do 2 eexists; split; [done|]. rewrite insert_id by done.
      by apply registry_inv_same. }
    rewrite lookup_insert_eq. simpl. rewrite lookup_insert_eq. simpl.
    do 2 eexists; split; [done|].
    rewrite !insert_insert_eq. apply registry_inv_same.
    by eapply registry_consistent_update.
  - pose proof (fresh_not_in_mem mem) as Hfresh.
    destruct (ct !! connectionID) as [m0|] eqn:Hct; simpl.
    + rewrite Hct. simpl.
      do 2 eexists; split; [done|]. apply registry_inv_same.
      pose proof (registry_consistent_new mem tun ct base fd connectionID
                    (fresh (dom mem))) as Hnew.
      rewrite Hct in Hnew. simpl in Hnew. by apply Hnew.
    + rewrite lookup_insert_eq. simpl. rewrite insert_insert_eq.
      do 2 eexists; split; [done|]. apply registry_inv_same.
      pose proof (registry_consistent_new mem tun ct base fd connectionID
                    (fresh (dom mem))) as Hnew.
      rewrite Hct in Hnew. simpl in Hnew. by apply Hnew.
Qed.

(** Removing a domain from both indices. *)
Lemma registry_consistent_remove mem tun ct base d p tn m :
  registry_consistent
    {| Registry.mem := mem; Registry.tunnels := tun;
       Registry.tunnelsMu := RWMutex.free; Registry.connTunnels := ct;
       Registry.connTunnelsMu := RWMutex.free; Registry.baseDomain := base |} →
  tun !! d = Some p → mem !! p = Some tn →
  ct !! Tunnel.ConnectionID tn = Some m →
  registry_consistent
    {| Registry.mem := mem; Registry.tunnels := delete d tun;
       Registry.tunnelsMu := RWMutex.free;
       Registry.connTunnels :=
         if bool_decide (size (delete d m) = 0%nat)
         then delete (Tunnel.ConnectionID tn) ct
         else <[Tunnel.ConnectionID tn := delete d m]> ct;
       Registry.connTunnelsMu := RWMutex.free; Registry.baseDomain := base |}.
Proof.
  intros [Hfwd Hrev] Hd Hp Hm. simpl in *. split; simpl.
  - intros d' p' E'. apply lookup_delete_Some in E' as [Hne E'].
    destruct (Hfwd _ _ E') as (tn' & m' & Hp' & Hm' & Hd').
    exists tn'. destruct (decide (Tunnel.ConnectionID tn' = Tunnel.ConnectionID tn)) as [Hc|Hc].
    + rewrite Hc in *. rewrite Hm in Hm'. injection Hm' as <-.
      assert (delete d m !! d' = Some p') as Hdel by by rewrite lookup_delete_ne.
      case_bool_decide as Hsz.
      * apply map_size_empty_iff in Hsz. rewrite Hsz in Hdel.
        by rewrite lookup_empty in Hdel.
      * eexists. split; [done|]. rewrite lookup_insert_eq. done.
    + exists m'. split; [done|]. split; [|done].
      case_bool_decide; [by rewrite lookup_delete_ne|by rewrite lookup_insert_ne].
  - intros c m2 d' p' Hm2 Hd'.
    assert (∃ m1, ct !! c = Some m1 ∧ m1 !! d' = Some p' ∧ d' ≠ d)
      as (m1 & Hm1 & Hd1 & Hne).
    { case_bool_decide.
      - apply lookup_delete_Some in Hm2 as [Hc Hm2]. exists m2.
        split; [done|]. split; [done|]. intros ->.
        destruct (Hrev _ _ _ _ Hm2 Hd') as (E' & tn' & Hp' & Hc').
        rewrite Hd in E'. injection E' as <-. congruence.
      - destruct (decide (c = Tunnel.ConnectionID tn)) as [->|Hc].
        + rewrite lookup_insert_eq in Hm2. injection Hm2 as <-.
          apply lookup_delete_Some in Hd' as [Hne Hd']. eauto.
        + rewrite lookup_insert_ne in Hm2 by done. exists m2.
          split; [done|]. split; [done|]. intros ->.
          destruct (Hrev _ _ _ _ Hm2 Hd') as (E' & tn' & Hp' & Hc').
          rewrite Hd in E'. injection E' as <-. congruence. }
    destruct (Hrev _ _ _ _ Hm1 Hd1) as (E' & tn' & Hp' & Hc').
    rewrite lookup_delete_ne by done. eauto.
Qed.

Lemma keeps_registry_UnregisterTunnel domain :
  keeps_registry (Registry.UnregisterTunnel domain).
Proof.
  intros r (Ht & Hc & Hcons).
  destruct r as [mem tun tmu ct cmu base]; simpl in *; subst.
  pose proof Hcons as [Hfwd Hrev]. simpl in Hfwd, Hrev.
  unfold Registry.UnregisterTunnel. registry_unfold. simpl.
  destruct (tun !! domain) as [p|] eqn:E; simpl.
  - destruct (Hfwd _ _ E) as (tn & m & Hp & Hm & Hd).
    rewrite Hp. simpl. rewrite insert_id by done. rewrite Hm.
    pose proof (registry_consistent_remove _ _ _ _ _ _ _ _ Hcons E Hp Hm) as Hnew.
    destruct (bool_decide (size (delete domain m) = 0%nat)); simpl;
      (do 2 eexists; split; [done|]); by apply registry_inv_same.
  - do 2 eexists; split; [done|]. by apply registry_inv_same.
Qed.

Lemma keeps_registry_ret {A} (x : A) : keeps_registry (mret x).
Proof. intros r Hr. by exists x, r. Qed.

Lemma keeps_registry_bind {A B} (c : go Registry.t A) (f : A → go Registry.t B) :
  keeps_registry c → (∀ x, keeps_registry (f x)) → keeps_registry (c ≫= f).
Proof.
  intros Hc Hf r Hr. destruct (Hc r Hr) as (x & r1 & E & Hr1).
  destruct (Hf x r1 Hr1) as (y & r2 & E' & Hr2).
  exists y, r2. split; [|done]. unfold mbind, go_bind. by rewrite E.
Qed.

Lemma keeps_registry_for_each {A} (xs : list A) (f : A → go Registry.t unit) :
  (∀ x, keeps_registry (f x)) → keeps_registry (for_each xs f).
Proof.
  intros Hf. induction xs as [|x xs IH]; simpl.
  - apply keeps_registry_ret.
  - apply keeps_registry_bind; [apply Hf|]. intros _. apply IH.
Qed.

Lemma keeps_registry_unregister_each domains :
  keeps_registry (Registry.unregister_each domains).
Proof.
  apply keeps_registry_for_each. intros d.
  apply keeps_registry_bind; [apply keeps_registry_UnregisterTunnel|].
  intros. apply keeps_registry_ret.
Qed.

Lemma keeps_registry_UnregisterConnectionTunnels connectionID :
  keeps_registry (Registry.UnregisterConnectionTunnels connectionID).
Proof.
  intros r Hr. pose proof Hr as (Ht & Hc & Hcons).
  unfold Registry.UnregisterConnectionTunnels.
  destruct (Registry.connTunnels r !! connectionID) as [m|] eqn:E.
  - destruct (keeps_registry_unregister_each (map_to_list m).*1 r Hr)
      as (x & r' & Hrun & Hr').
    exists x, r'. split; [|done]. rewrite <- Hrun.
    destruct r as [mem tun tmu ct cmu base]; simpl in *; subst.
    registry_unfold. simpl. rewrite E. done.
  - exists tt, r. split; [|done].
    destruct r as [mem tun tmu ct cmu base]; simpl in *; subst.
    registry_unfold. simpl. rewrite E. done.
Qed.

Lemma keeps_registry_exec_op o : keeps_registry (exec_registry_op o).
Proof.
  destruct o; simpl.
  - apply keeps_registry_bind; [apply keeps_registry_RegisterTunnel|].
    intros. apply keeps_registry_ret.
  - apply keeps_registry_bind; [apply keeps_registry_UnregisterTunnel|].
    intros. apply keeps_registry_ret.
  - apply keeps_registry_UnregisterConnectionTunnels.
Qed.

Lemma registry_inv_new base : registry_inv (NewRegistry base).
Proof.
  split; [done|]. split; [done|]. split; simpl.
  - intros d p. by rewrite lookup_empty.
  - intros c m d p. by rewrite lookup_empty.
Qed.

Lemma GetTunnel_run reg domain :
  registry.Registry.tunnelsMu reg = RWMutex.free →
  registry.Registry.GetTunnel domain reg
  = Done (registry.Registry.tunnels reg !! domain) reg.
Proof.
  intros H. destruct reg; simpl in *; subst.
  unfold registry.Registry.GetTunnel. registry_unfold. reflexivity.
Qed.

Lemma at_tunnel_gets {A} (f : registry.Tunnel.t → A) reg tn tunnel :
  registry.Registry.mem reg !! tn = Some tunnel →
  registry.Registry.at_tunnel tn (gets f) reg = Done (f tunnel) reg.
Proof.
  intros H. unfold registry.Registry.at_tunnel, zoom, gets. rewrite H.
  unfold registry.Registry.set_mem. rewrite insert_id by done. by destruct reg.
Qed.

(** *** Claims about the registry *)

(** C8.  Starting from an empty registry, every sequence of
    [RegisterTunnel], [UnregisterTunnel] and [UnregisterConnectionTunnels]
    calls returns, and in the registry it leaves a domain is in the forward
    map exactly when it is in the reverse-index entry keyed by the
    connection id of its tunnel (with the same tunnel object on both
    sides); in particular a domain is listed under at most one connection,
    so it maps to at most one tunnel. *)
Theorem registry_indices_consistent (baseDomain : string) (ops : list registry_op) :
  ∃ r, for_each ops exec_registry_op (NewRegistry baseDomain) = Done tt r
    ∧ (∀ d p, Registry.tunnels r !! d = Some p →
         ∃ tn m, Registry.mem r !! p = Some tn
           ∧ Registry.connTunnels r !! Tunnel.ConnectionID tn = Some m
           ∧ m !! d = Some p)
    ∧ (∀ c m d p, Registry.connTunnels r !! c = Some m → m !! d = Some p →
         Registry.tunnels r !! d = Some p
         ∧ ∃ tn, Registry.mem r !! p = Some tn ∧ Tunnel.ConnectionID tn = c)
    ∧ (∀ d c1 c2, listed_under r d c1 → listed_under r d c2 → c1 = c2).
Proof.
  destruct (keeps_registry_for_each ops exec_registry_op keeps_registry_exec_op
              (NewRegistry baseDomain) (registry_inv_new baseDomain))
    as ([] & r & Hrun & _ & _ & Hfwd & Hrev).
  exists r. split; [done|]. split; [done|]. split; [done|].
  intros d c1 c2 (m1 & Hm1 & p1 & Hp1) (m2 & Hm2 & p2 & Hp2).
  destruct (Hrev _ _ _ _ Hm1 Hp1) as (E1 & tn1 & Ht1 & <-).
  destruct (Hrev _ _ _ _ Hm2 Hp2) as (E2 & tn2 & Ht2 & <-).
  congruence.
Qed.

Lemma registry_indices_consistent_witness :
  ∃ r, for_each
         [OpRegisterTunnel 1 EmptyString "example" "conn-1" "agent-1" ∅;
          OpRegisterTunnel 2 EmptyString "other" "conn-2" "agent-2" ∅;
          OpUnregisterConnectionTunnels "conn-1"]
         exec_registry_op (NewRegistry "localhost") = Done tt r
    ∧ (∀ d c1 c2, listed_under r d c1 → listed_under r d c2 → c1 = c2).
Proof.
  destruct (registry_indices_consistent "localhost"
              [OpRegisterTunnel 1 EmptyString "example" "conn-1" "agent-1" ∅;
               OpRegisterTunnel 2 EmptyString "other" "conn-2" "agent-2" ∅;
               OpUnregisterConnectionTunnels "conn-1"])
    as (r & Hrun & _ & _ & Huniq).
  exists r. split; [exact Hrun|exact Huniq].
Defined.

(** The register / duplicate / cleanup scenarios on two connections. *)
Example registry_scenario :
  let r0 := NewRegistry "localhost" in
  let r1 := final (Registry.RegisterTunnel 1 EmptyString "example" "conn-1" "agent-1" ∅ r0) in
  let r2 := final (Registry.RegisterTunnel 2 EmptyString "other" "conn-1" "agent-1" ∅ r1) in
  let r3 := final (Registry.RegisterTunnel 3 EmptyString "third" "conn-2" "agent-2" ∅ r2) in
  let r4 := final (Registry.UnregisterConnectionTunnels "conn-1" r3) in
  is_Some (Registry.tunnels r1 !! "example.localhost")
  ∧ returned (Registry.RegisterTunnel 4 EmptyString "example" "conn-2" "agent-2" ∅ r3)
    = Some (inl ErrDomainAlreadyRegistered)
  ∧ Registry.tunnels r4 !! "example.localhost" = None
  ∧ Registry.tunnels r4 !! "other.localhost" = None
  ∧ is_Some (Registry.tunnels r4 !! "third.localhost")
  ∧ Registry.connTunnels r4 !! "conn-1" = None
  ∧ returned (Registry.UnregisterTunnel "example.localhost" r4)
    = Some (Some ErrTunnelNotFound).
Proof. vm_compute. repeat split; eauto. Qed.

(** *** Further properties of the registry *)


Lemma GetConnectionTunnels_run r connectionID :
  RWMutex.writer (Registry.connTunnelsMu r) = false →
  Registry.GetConnectionTunnels connectionID r =
    Done (match Registry.connTunnels r !! connectionID with
          | Some m => (map_to_list m).*2
          | None => []
          end) r.
Proof.
  intros H. destruct r as [? ? ? ct [w n] ?]; simpl in *; subst.
  unfold Registry.GetConnectionTunnels. registry_unfold. simpl.
  destruct (ct !! connectionID); reflexivity.
Qed.





(** X7.  A refused registration changes nothing: when [RegisterTunnel]
    returns an error the registry is exactly as before.  The error is
    [ErrDomainMismatch] when a non-empty [domain] differs from the full
    domain built from the subdomain, and [ErrDomainAlreadyRegistered] when
    the full domain is held by a tunnel of another connection. *)
Theorem RegisterTunnel_refused_changes_nothing
    (now : Time) (domain subdomain connectionID agentID : string)
    (md : gmap string string) (r : Registry.t) (e : error) :
  registry_inv r →
  returned (Registry.RegisterTunnel now domain subdomain connectionID agentID md r)
  = Some (inl e) →
  Registry.RegisterTunnel now domain subdomain connectionID agentID md r
  = Done (inl e) r
  ∧ (e = ErrDomainMismatch ∧ domain ≠ EmptyString
       ∧ domain ≠ Registry.buildFullDomain r subdomain
     ∨ e = ErrDomainAlreadyRegistered
       ∧ ∃ p tn, Registry.tunnels r !! Registry.buildFullDomain r subdomain = Some p
           ∧ Registry.mem r !! p = Some tn
           ∧ Tunnel.ConnectionID tn ≠ connectionID).
Proof.
  intros (Ht & Hc & Hcons).
  destruct r as [mem tun tmu ct cmu base]; simpl in *; subst.
  pose proof Hcons as [Hfwd Hrev]. simpl in Hfwd, Hrev.
  unfold Registry.RegisterTunnel. registry_unfold. simpl.
  set (fd := Registry.buildFullDomain _ subdomain).
  destruct (bool_decide (domain ≠ EmptyString)) eqn:B1;
    [destruct (bool_decide (domain ≠ fd)) eqn:B2|]; simpl.
  - intros ?; simplify_eq. split; [done|]. left.
    apply bool_decide_eq_true in B1. apply bool_decide_eq_true in B2. done.
  - clear B1 B2. destruct (tun !! fd) as [p|] eqn:E; simpl.
    + destruct (Hfwd _ _ E) as (tn & m & Hp & Hm & Hd).
      rewrite Hp. simpl. case_bool_decide; simpl.
      * intros ?; simplify_eq. rewrite insert_id by done. split; [done|]. right.
        split; [done|]. eauto.
      * rewrite lookup_insert_eq. simpl. rewrite lookup_insert_eq. simpl. done.
    + destruct (ct !! connectionID) as [m0|] eqn:Hct; simpl.
      * rewrite Hct. simpl. done.
      * rewrite lookup_insert_eq. simpl. done.
  - clear B1. destruct (tun !! fd) as [p|] eqn:E; simpl.
    + destruct (Hfwd _ _ E) as (tn & m & Hp & Hm & Hd).
      rewrite Hp. simpl. case_bool_decide; simpl.
      * intros ?; simplify_eq. rewrite insert_id by done. split; [done|]. right.
        split; [done|]. eauto.
      * rewrite lookup_insert_eq. simpl. rewrite lookup_insert_eq. simpl. done.
    + destruct (ct !! connectionID) as [m0|] eqn:Hct; simpl.
      * rewrite Hct. simpl. done.
      * rewrite lookup_insert_eq. simpl. done.
Qed.

Lemma RegisterTunnel_refused_changes_nothing_witness :
  let r1 := final (Registry.RegisterTunnel 1 EmptyString "example" "conn-1"
                     "agent-1" ∅ (NewRegistry "localhost")) in
  registry_inv r1
  ∧ Registry.RegisterTunnel 2 EmptyString "example" "conn-2" "agent-2" ∅ r1
    = Done (inl ErrDomainAlreadyRegistered) r1.
Proof.
  intros r1.
  assert (registry_inv r1) as Hinv.
  { destruct (keeps_registry_RegisterTunnel 1 EmptyString "example" "conn-1"
                "agent-1" ∅ (NewRegistry "localhost")
                (registry_inv_new "localhost")) as (x & r' & E & Hinv).
    unfold r1. by rewrite E. }
  split; [exact Hinv|].
  apply (RegisterTunnel_refused_changes_nothing 2 EmptyString "example" "conn-2"
           "agent-2" ∅ r1 ErrDomainAlreadyRegistered Hinv).
  vm_compute. reflexivity.
Defined.

(** X8.  Registering again from the same connection: when the full domain
    is already held by a tunnel of the calling connection, [RegisterTunnel]
    returns that same tunnel with its metadata replaced and its last-access
    time set to the clock reading; its agent id, creation time, domain and
    subdomain fields are not touched, whatever [agentID] the call passes,
    and both indices are as before. *)
Theorem RegisterTunnel_again_refreshes_tunnel
    (now : Time) (domain subdomain agentID : string)
    (md : gmap string string) (r : Registry.t) (p : addr) (tn : Tunnel.t) :
  registry_inv r →
  domain = EmptyString ∨ domain = Registry.buildFullDomain r subdomain →
  Registry.tunnels r !! Registry.buildFullDomain r subdomain = Some p →
  Registry.mem r !! p = Some tn →
  Registry.RegisterTunnel now domain subdomain (Tunnel.ConnectionID tn) agentID md r
  = Done (inr p)
      (Registry.set_mem
         (<[p := Tunnel.set_LastAccess now (Tunnel.set_Metadata md tn)]>
            (Registry.mem r)) r).
Proof.
  intros (Ht & Hc & Hcons) Hdom E Hp.
  destruct r as [mem tun tmu ct cmu base]; simpl in *; subst tmu cmu.
  unfold Registry.RegisterTunnel. registry_unfold. simpl.
  set (fd := Registry.buildFullDomain _ subdomain) in *.
  assert (bool_decide (domain ≠ EmptyString) && bool_decide (domain ≠ fd) = false)
    as ->.
  { destruct Hdom as [->| ->].
    - by rewrite bool_decide_eq_false_2 by (intros H; by apply H).
    - rewrite (bool_decide_eq_false_2 (fd ≠ fd)) by (intros H; by apply H).
      by rewrite andb_false_r. }
  simpl. rewrite E. simpl. rewrite Hp. simpl.
  rewrite bool_decide_eq_false_2 by (intros H; by apply H). simpl.
  rewrite lookup_insert_eq. simpl. rewrite lookup_insert_eq. simpl.
  rewrite !insert_insert_eq. reflexivity.
Qed.

Lemma RegisterTunnel_again_refreshes_tunnel_witness :
  let r1 := final (Registry.RegisterTunnel 1 EmptyString "example" "conn-1"
                     "agent-1" ∅ (NewRegistry "localhost")) in
  ∃ p r2, Registry.RegisterTunnel 9 EmptyString "example" "conn-1" "agent-2"
            {["k" := "v"]} r1 = Done (inr p) r2
    ∧ (Tunnel.AgentID <$> Registry.mem r2 !! p) = Some "agent-1"
    ∧ (Tunnel.LastAccess <$> Registry.mem r2 !! p) = Some 9
    ∧ (Tunnel.CreatedAt <$> Registry.mem r2 !! p) = Some 1.
Proof.
  intros r1.
  assert (registry_inv r1) as Hinv.
  { destruct (keeps_registry_RegisterTunnel 1 EmptyString "example" "conn-1"
                "agent-1" ∅ (NewRegistry "localhost")
                (registry_inv_new "localhost")) as (x & r' & E & Hinv).
    unfold r1. by rewrite E. }
  pose proof (RegisterTunnel_again_refreshes_tunnel 9 EmptyString "example"
                "agent-2" {["k" := "v"]} r1 1%positive
                {| Tunnel.Domain := EmptyString; Tunnel.Subdomain := "example";
                   Tunnel.FullDomain := "example.localhost";
                   Tunnel.ConnectionID := "conn-1"; Tunnel.AgentID := "agent-1";
                   Tunnel.CreatedAt := 1; Tunnel.LastAccess := 1;
                   Tunnel.Metadata := ∅ |} Hinv (or_introl eq_refl)) as H.
  do 2 eexists. split.
  - apply H; vm_compute; reflexivity.
  - simpl. rewrite lookup_insert_eq. simpl. done.
Defined.

(** The reverse index lists a domain under a connection exactly when the
    forward map sends the domain to a tunnel of that connection. *)
Lemma listed_under_iff r d c :
  registry_consistent r →
  listed_under r d c ↔
  ∃ p tn, Registry.tunnels r !! d = Some p ∧ Registry.mem r !! p = Some tn
          ∧ Tunnel.ConnectionID tn = c.
Proof.
  intros [Hfwd Hrev]. split.
  - intros (m & Hm & p & Hp).
    destruct (Hrev _ _ _ _ Hm Hp) as (E & tn & Htn & Hc). eauto 10.
  - intros (p & tn & E & Htn & <-).
    destruct (Hfwd _ _ E) as (tn' & m & Htn' & Hm & Hd).
    rewrite Htn in Htn'. injection Htn' as <-. exists m. eauto.
Qed.

Lemma UnregisterTunnel_missing_run r d :
  Registry.tunnelsMu r = RWMutex.free →
  Registry.tunnels r !! d = None →
  Registry.UnregisterTunnel d r = Done (Some ErrTunnelNotFound) r.
Proof.
  intros Ht E. destruct r as [mem tun tmu ct cmu base]; simpl in *; subst.
  unfold Registry.UnregisterTunnel. registry_unfold. simpl. rewrite E. done.
Qed.

Lemma UnregisterTunnel_present_run r d p :
  registry_inv r →
  Registry.tunnels r !! d = Some p →
  ∃ r', Registry.UnregisterTunnel d r = Done None r'
    ∧ registry_inv r'
    ∧ Registry.mem r' = Registry.mem r
    ∧ Registry.tunnels r' = delete d (Registry.tunnels r)
    ∧ Registry.baseDomain r' = Registry.baseDomain r.
Proof.
  intros (Ht & Hc & Hcons) E.
  destruct r as [mem tun tmu ct cmu base]; simpl in *; subst.
  pose proof Hcons as [Hfwd Hrev]. simpl in Hfwd, Hrev.
  unfold Registry.UnregisterTunnel. registry_unfold. simpl.
  rewrite E. simpl.
  destruct (Hfwd _ _ E) as (tn & m & Hp & Hm & Hd).
  rewrite Hp. simpl. rewrite insert_id by done. rewrite Hm.
  pose proof (registry_consistent_remove _ _ _ _ _ _ _ _ Hcons E Hp Hm) as Hnew.
  destruct (bool_decide (size (delete d m) = 0%nat)); simpl;
    (eexists; split; [done|]; split; [by apply registry_inv_same|done]).
Qed.

(** X9.  Unregistering a domain: on a missing domain
    [UnregisterTunnel] returns [ErrTunnelNotFound] and changes nothing; on
    a registered one it returns no error, removes the domain from the
    forward map and from the reverse index and leaves every other domain
    in place, so that [GetTunnel] no longer finds the domain and a second
    [UnregisterTunnel] reports [ErrTunnelNotFound]. *)
Theorem UnregisterTunnel_removes_the_domain (d : string) (r : Registry.t) :
  registry_inv r →
  (Registry.tunnels r !! d = None →
     Registry.UnregisterTunnel d r = Done (Some ErrTunnelNotFound) r)
  ∧ (is_Some (Registry.tunnels r !! d) →
     ∃ r', Registry.UnregisterTunnel d r = Done None r'
       ∧ registry_inv r'
       ∧ Registry.tunnels r' = delete d (Registry.tunnels r)
       ∧ (∀ c, ¬ listed_under r' d c)
       ∧ Registry.GetTunnel d r' = Done None r'
       ∧ Registry.UnregisterTunnel d r' = Done (Some ErrTunnelNotFound) r').
Proof.
  intros Hinv. split.
  - intros E. apply UnregisterTunnel_missing_run; [apply Hinv|done].
  - intros [p E].
    destruct (UnregisterTunnel_present_run r d p Hinv E)
      as (r' & Hrun & Hinv' & Hmem & Htun & _).
    assert (Registry.tunnels r' !! d = None) as Hgone
      by (rewrite Htun; apply lookup_delete_eq).
    exists r'. split; [done|]. split; [done|]. split; [done|].
    split; [|split].
    + intros c Hl. apply listed_under_iff in Hl as (q & tn & Hq & _);
        [congruence|apply Hinv'].
    + rewrite GetTunnel_run by apply Hinv'. by rewrite Hgone.
    + apply UnregisterTunnel_missing_run; [apply Hinv'|done].
Qed.

Lemma UnregisterTunnel_removes_the_domain_witness :
  let r1 := final (Registry.RegisterTunnel 1 EmptyString "example" "conn-1"
                     "agent-1" ∅ (NewRegistry "localhost")) in
  registry_inv r1
  ∧ ∃ r', Registry.UnregisterTunnel "example.localhost" r1 = Done None r'
      ∧ Registry.GetTunnel "example.localhost" r' = Done None r'.
Proof.
  intros r1.
  assert (registry_inv r1) as Hinv.
  { destruct (keeps_registry_RegisterTunnel 1 EmptyString "example" "conn-1"
                "agent-1" ∅ (NewRegistry "localhost")
                (registry_inv_new "localhost")) as (x & r' & E & Hinv).
    unfold r1. by rewrite E. }
  split; [exact Hinv|].
  destruct (UnregisterTunnel_removes_the_domain "example.localhost" r1 Hinv)
    as [_ H].
  destruct H as (r' & E & _ & _ & _ & Hget & _).
  - vm_compute. eauto.
  - exists r'. split; [exact E|exact Hget].
Defined.

Lemma unregister_each_spec domains : ∀ r,
  registry_inv r →
  ∃ r', Registry.unregister_each domains r = Done tt r'
    ∧ registry_inv r'
    ∧ Registry.mem r' = Registry.mem r
    ∧ ∀ d, Registry.tunnels r' !! d
           = if decide (d ∈ domains) then None else Registry.tunnels r !! d.
Proof.
  induction domains as [|d0 ds IH]; intros r Hinv.
  - exists r. split; [done|]. split; [done|]. split; [done|].
    intros d. rewrite decide_False; [done|]. apply not_elem_of_nil.
  - assert (∃ x r1, Registry.UnregisterTunnel d0 r = Done x r1
              ∧ registry_inv r1 ∧ Registry.mem r1 = Registry.mem r
              ∧ Registry.tunnels r1 = delete d0 (Registry.tunnels r))
      as (x & r1 & E1 & Hinv1 & Hmem1 & Htun1).
    { destruct (Registry.tunnels r !! d0) as [p|] eqn:E.
      - destruct (UnregisterTunnel_present_run r d0 p Hinv E)
          as (r1 & ? & ? & ? & ? & _). eauto 10.
      - exists (Some ErrTunnelNotFound), r.
        rewrite UnregisterTunnel_missing_run by (done || apply Hinv).
        split; [done|]. split; [done|]. split; [done|].
        by rewrite delete_id. }
    destruct (IH r1 Hinv1) as (r' & E' & Hinv' & Hmem' & Htun').
    exists r'. split; [|split; [done|split; [congruence|]]].
    + unfold Registry.unregister_each in *. simpl.
      unfold mbind at 1, go_bind at 1. unfold mbind at 1, go_bind at 1.
      rewrite E1. exact E'.
    + intros d. rewrite Htun', Htun1.
      destruct (decide (d = d0)) as [->|Hne].
      * rewrite (decide_True (P := d0 ∈ d0 :: ds)) by (apply elem_of_cons; auto).
        destruct (decide (d0 ∈ ds)); [done|apply lookup_delete_eq].
      * rewrite lookup_delete_ne by done.
        destruct (decide (d ∈ ds)) as [Hin|Hnin].
        -- rewrite decide_True; [done|]. apply elem_of_cons; auto.
        -- rewrite decide_False; [done|].
           intros [?|?]%elem_of_cons; done.
Qed.

(** X10.  Cleanup of a connection: [UnregisterConnectionTunnels] returns,
    keeps the indices consistent, removes from the forward map exactly the
    domains that the reverse index listed under the connection, and leaves
    nothing listed under it, so that [GetConnectionTunnels] for the
    connection is then empty; the tunnels of the other connections stay. *)
Theorem UnregisterConnectionTunnels_removes_exactly
    (connectionID : string) (r : Registry.t) :
  registry_inv r →
  ∃ r', Registry.UnregisterConnectionTunnels connectionID r = Done tt r'
    ∧ registry_inv r'
    ∧ (∀ d, listed_under r d connectionID → Registry.tunnels r' !! d = None)
    ∧ (∀ d, ¬ listed_under r d connectionID →
         Registry.tunnels r' !! d = Registry.tunnels r !! d)
    ∧ (∀ d, ¬ listed_under r' d connectionID)
    ∧ Registry.GetConnectionTunnels connectionID r' = Done [] r'.
Proof.
  intros Hinv. pose proof Hinv as (Ht & Hc & Hcons).
  assert (∃ (domains : list string) r',
            Registry.UnregisterConnectionTunnels connectionID r = Done tt r'
            ∧ registry_inv r' ∧ Registry.mem r' = Registry.mem r
            ∧ (∀ d, d ∈ domains ↔ listed_under r d connectionID)
            ∧ ∀ d, Registry.tunnels r' !! d
                   = if decide (d ∈ domains) then None else Registry.tunnels r !! d)
    as (domains & r' & Hrun & Hinv' & Hmem & Hdom & Htun).
  { unfold Registry.UnregisterConnectionTunnels.
    destruct (Registry.connTunnels r !! connectionID) as [m|] eqn:E.
    - destruct (unregister_each_spec (map_to_list m).*1 r Hinv)
        as (r' & Hrun & Hinv' & Hmem & Htun).
      exists (map_to_list m).*1, r'. split; [|split; [done|split; [done|split; [|done]]]].
      + rewrite <- Hrun.
        destruct r as [mem tun tmu ct cmu base]; simpl in *; subst.
        registry_unfold. simpl. rewrite E. done.
      + intros d. rewrite list_elem_of_fmap. split.
        * intros ([k p] & -> & Hin). apply elem_of_map_to_list in Hin.
          exists m. split; [done|]. by exists p.
        * intros (m' & Hm' & p & Hp). rewrite E in Hm'. injection Hm' as <-.
          exists (d, p). split; [done|]. by apply elem_of_map_to_list.
    - exists [], r. split; [|split; [done|split; [done|split]]].
      + destruct r as [mem tun tmu ct cmu base]; simpl in *; subst.
        registry_unfold. simpl. rewrite E. done.
      + intros d. split; [by intros ?%not_elem_of_nil|].
        intros (m & Hm & _). congruence.
      + intros d. rewrite decide_False; [done|]. apply not_elem_of_nil. }
  assert (∀ d, ¬ listed_under r' d connectionID) as Hnone.
  { intros d Hl. apply listed_under_iff in Hl as (p & tn & Hp & Htn & Hcid);
      [|apply Hinv'].
    rewrite Htun in Hp. destruct (decide (d ∈ domains)) as [|Hnin]; [done|].
    apply Hnin, Hdom, listed_under_iff; [done|].
    rewrite Hmem in Htn. eauto. }
  exists r'. split; [done|]. split; [done|].
  split; [|split; [|split; [done|]]].
  - intros d Hl. rewrite Htun, decide_True; [done|]. by apply Hdom.
  - intros d Hl. rewrite Htun, decide_False; [done|]. by rewrite Hdom.
  - rewrite GetConnectionTunnels_run by (by destruct Hinv' as (_ & -> & _)).
    f_equal. destruct (Registry.connTunnels r' !! connectionID) as [m|] eqn:E;
      [|done].
    destruct (map_to_list m) as [|[d p] rest] eqn:El; [done|]. exfalso.
    apply (Hnone d). exists m. split; [done|]. exists p.
    apply elem_of_map_to_list. rewrite El. apply elem_of_cons; auto.
Qed.

Lemma UnregisterConnectionTunnels_removes_exactly_witness :
  let r1 := final (Registry.RegisterTunnel 1 EmptyString "example" "conn-1"
                     "agent-1" ∅ (NewRegistry "localhost")) in
  registry_inv r1
  ∧ ∃ r', Registry.UnregisterConnectionTunnels "conn-1" r1 = Done tt r'
      ∧ Registry.GetConnectionTunnels "conn-1" r' = Done [] r'.
Proof.
  intros r1.
  assert (registry_inv r1) as Hinv.
  { destruct (keeps_registry_RegisterTunnel 1 EmptyString "example" "conn-1"
                "agent-1" ∅ (NewRegistry "localhost")
                (registry_inv_new "localhost")) as (x & r' & E & Hinv).
    unfold r1. by rewrite E. }
  split; [exact Hinv|].
  destruct (UnregisterConnectionTunnels_removes_exactly "conn-1" r1 Hinv)
    as (r' & E & _ & _ & _ & _ & Hget).
  exists r'. split; [exact E|exact Hget].
Defined.





(** ** Connections *)

Import connection.

Ltac conn_unfold :=
  unfold Connection.on_streamsMu, Connection.on_closedMu, Connection.on_Conn,
    Connection.at_stream, Connection.new_stream,
    Connection.set_Conn, Connection.set_LastHeartbeat, Connection.set_mem,
    Connection.set_streams, Connection.set_streamsMu,
    Connection.set_nextStreamID, Connection.set_cancelled,
    Connection.set_closed, Connection.set_closedMu in *;
  go_unfold.

(** *** Stream id allocation *)

Lemma AllocateStreamID_run c :
  Connection.streamsMu c = RWMutex.free →
  Connection.AllocateStreamID c =
    Done (Connection.nextStreamID c)
         (Connection.set_nextStreamID (wrap_uint32 (Connection.nextStreamID c + 1)) c).
Proof.
  intros H. destruct c; simpl in *; subst.
  unfold Connection.AllocateStreamID. conn_unfold. reflexivity.
Qed.

Lemma after_allocations_succ k c :
  after_allocations (N.succ k) c =
    final (Connection.AllocateStreamID (after_allocations k c)).
Proof. unfold after_allocations. by rewrite N.iter_succ. Qed.

Lemma after_allocations_state k c :
  Connection.streamsMu c = RWMutex.free →
  0 ≤ Connection.nextStreamID c < 2 ^ 32 →
  Connection.streamsMu (after_allocations k c) = RWMutex.free
  ∧ Connection.nextStreamID (after_allocations k c)
    = wrap_uint32 (Connection.nextStreamID c + Z.of_N k)
  ∧ Connection.streams (after_allocations k c) = Connection.streams c
  ∧ Connection.mem (after_allocations k c) = Connection.mem c.
Proof.
  intros Hmu Hr. induction k as [|k IH] using N.peano_ind.
  - simpl. split; [done|]. split; [|done].
    rewrite Z.add_0_r. unfold wrap_uint32. by rewrite Z.mod_small.
  - destruct IH as (IH1 & IH2 & IH3 & IH4).
    rewrite after_allocations_succ, AllocateStreamID_run by done. simpl.
    split; [done|]. split; [|done].
    rewrite IH2. unfold wrap_uint32.
    rewrite Z.add_mod_idemp_l by lia. f_equal. lia.
Qed.

Lemma AllocateStreamID_nth k c :
  Connection.streamsMu c = RWMutex.free →
  0 ≤ Connection.nextStreamID c < 2 ^ 32 →
  returned (Connection.AllocateStreamID (after_allocations k c))
  = Some (wrap_uint32 (Connection.nextStreamID c + Z.of_N k)).
Proof.
  intros Hmu Hr.
  destruct (after_allocations_state k c Hmu Hr) as (H1 & H2 & _).
  rewrite AllocateStreamID_run by done. simpl. by rewrite H2.
Qed.

(** *** Closing a connection *)

Lemma closeStream_blocks_under_lock c streamID :
  RWMutex.writer (Connection.streamsMu c) = true →
  Connection.closeStream streamID c = Blocked c.
Proof.
  intros H. destruct c as [? ? ? ? ? ? ? ? [w r] ? ? ? ?]; simpl in *; subst.
  unfold Connection.closeStream. conn_unfold. reflexivity.
Qed.

Lemma Close_with_live_streams c :
  conn_quiescent c → Connection.closed c = false →
  Connection.streams c ≠ ∅ →
  Connection.Close c = Blocked (close_parked c).
Proof.
  intros [Hs Hc] Hcl Hne.
  destruct (map_to_list (Connection.streams c)) as [|[id p] l] eqn:E.
  { by apply map_to_list_empty_iff in E. }
  destruct c as [? ? ? ? ? ? ? str ? ? ? ? ?]; simpl in *; subst.
  unfold Connection.Close, Connection.closeStream. conn_unfold. simpl.
  rewrite E. reflexivity.
Qed.

Lemma Close_without_streams c :
  conn_quiescent c → Connection.closed c = false →
  Connection.streams c = ∅ →
  ∃ e, Connection.Close c =
    Done e (Connection.set_Conn
              (final (Conn.Close (Connection.Conn c)))
              (Connection.set_cancelled true (Connection.set_closed true c))).
Proof.
  intros [Hs Hc] Hcl He.
  destruct c as [? cn ? ? ? ? ? str ? ? ? ? ?]; simpl in *; subst.
  unfold Connection.Close. conn_unfold. simpl.
  rewrite map_to_list_empty. simpl.
  unfold Conn.Close. destruct (Conn.sock_closed cn); simpl; eauto.
Qed.

Lemma Close_when_closed c :
  Connection.closedMu c = RWMutex.free → Connection.closed c = true →
  Connection.Close c = Done None c.
Proof.
  intros Hc Hcl. destruct c; simpl in *; subst.
  unfold Connection.Close. conn_unfold. reflexivity.
Qed.

Lemma Close_sets_flags c :
  conn_quiescent c → Connection.closed c = false →
  Connection.closed (final (Connection.Close c)) = true
  ∧ Connection.cancelled (final (Connection.Close c)) = true.
Proof.
  intros Hq Hcl.
  destruct (decide (Connection.streams c = ∅)) as [He|Hne].
  - destruct (Close_without_streams c Hq Hcl He) as [e ->]. done.
  - rewrite Close_with_live_streams by done. done.
Qed.

(** *** The manager *)

Ltac mgr_unfold :=
  unfold Manager.on_connsMu, Manager.at_conn, Manager.new_conn, Manager.invoke,
    Manager.set_mem, Manager.set_connections, Manager.set_connsMu,
    Manager.set_onConnectionClosed, Manager.set_onStreamCreated,
    Manager.set_onStreamClosed, Manager.set_calls in *;
  go_unfold.

Lemma at_conn_run {A} (k : go Connection.t A) m p c :
  Manager.mem m !! p = Some c →
  Manager.at_conn p k m =
    match k c with
    | Done a c' => Done a (Manager.set_mem (<[p := c']> (Manager.mem m)) m)
    | Blocked c' => Blocked (Manager.set_mem (<[p := c']> (Manager.mem m)) m)
    | Fatal c' => Fatal (Manager.set_mem (<[p := c']> (Manager.mem m)) m)
    end.
Proof. intros H. unfold Manager.at_conn, zoom. by rewrite H. Qed.

Lemma set_mem_same m p c :
  Manager.mem m !! p = Some c →
  Manager.set_mem (<[p := c]> (Manager.mem m)) m = m.
Proof. intros H. rewrite insert_id by done. by destruct m. Qed.

(** Computations that never invoke [onConnectionClosed]. *)

Lemma silent_ret {A} (x : A) : silent (mret x).
Proof. by intros m. Qed.

Lemma silent_bind {A B} (k : go Manager.t A) (f : A → go Manager.t B) :
  silent k → (∀ x, silent (f x)) → silent (k ≫= f).
Proof.
  intros Hk Hf m. specialize (Hk m). unfold mbind, go_bind.
  destruct (k m) as [x m'|m'|m']; simpl in *; [|done..].
  by rewrite Hf.
Qed.

Lemma silent_gets {A} (f : Manager.t → A) : silent (gets f).
Proof. by intros m. Qed.

Lemma silent_at_conn {A} p (k : go Connection.t A) : silent (Manager.at_conn p k).
Proof.
  intros m. unfold Manager.at_conn, zoom.
  destruct (Manager.mem m !! p) as [c|]; [|done].
  by destruct (k c).
Qed.

Lemma silent_invoke_stream k :
  is_connection_closed k = false → silent (Manager.invoke k).
Proof.
  intros Hk m. unfold Manager.invoke, modify, connection_closed_calls. simpl.
  rewrite List.filter_app. simpl. rewrite Hk. by rewrite app_nil_r.
Qed.

Lemma silent_if {A} (b : bool) (k1 k2 : go Manager.t A) :
  silent k1 → silent k2 → silent (if b then k1 else k2).
Proof. by destruct b. Qed.

Create HintDb silent discriminated.
#[local] Hint Resolve silent_ret silent_gets silent_at_conn silent_if : silent.
#[local] Hint Extern 1 (silent (Manager.invoke _)) =>
  apply silent_invoke_stream; reflexivity : silent.
#[local] Hint Extern 2 (silent (_ ≫= _)) => apply silent_bind; [|intros ?] : silent.
#[local] Hint Extern 3 (silent (match ?x with _ => _ end)) => destruct x : silent.

Lemma silent_handleControlFrame c now frame :
  silent (Manager.handleControlFrame c now frame).
Proof. unfold Manager.handleControlFrame. auto 10 with silent. Qed.

Lemma silent_handleStreamFrame c now frame pick :
  silent (Manager.handleStreamFrame c now frame pick).
Proof. unfold Manager.handleStreamFrame. cbv zeta. auto 30 with silent. Qed.

Lemma silent_handleFrame c now frame pick :
  silent (Manager.handleFrame c now frame pick).
Proof.
  unfold Manager.handleFrame.
  destruct (v1.IsControlFrame frame);
    auto using silent_handleControlFrame, silent_handleStreamFrame.
Qed.

Lemma silent_loop_turn c ev : silent (Manager.loop_turn c ev).
Proof.
  destruct ev; simpl; auto 10 with silent.
  apply silent_bind; [apply silent_handleFrame|]. intros ?. auto with silent.
Qed.

Lemma silent_main_loop c events : silent (Manager.main_loop c events).
Proof.
  induction events as [|ev rest IH]; simpl; [auto with silent|].
  apply silent_bind; [apply silent_loop_turn|].
  intros []; auto with silent.
Qed.

Lemma silent_handleConnection c events :
  silent (Manager.handleConnection c events).
Proof.
  unfold Manager.handleConnection.
  apply silent_bind; [apply silent_main_loop|]. intros []; auto 10 with silent.
Qed.

(** *** Dispatch of DATA frames that cannot be delivered *)

Ltac mgr_exec :=
  repeat (progress (simpl;
    rewrite ?lookup_insert_eq, ?insert_insert_eq; repeat exec_step)).

Lemma handleStreamFrame_unknown_stream m p c now frame pick :
  Manager.mem m !! p = Some c →
  Connection.streamsMu c = RWMutex.free →
  v1.Type_ frame = v1.FrameData →
  Connection.streams c !! v1.StreamID frame = None →
  Manager.handleStreamFrame p now frame pick m = Done (Some ErrStreamNotFound) m.
Proof.
  intros Hp Hmu Hty Hs. unfold Manager.handleStreamFrame. cbv zeta.
  destruct m as [mem ? ? ? ? ? ? ? ?].
  destruct c as [? ? ? ? ? ? ? str smu ? ? ? ?]; simpl in *. subst smu.
  rewrite Hty. mgr_unfold. conn_unfold. mgr_exec.
  rewrite insert_id by done. reflexivity.
Qed.

Lemma handleStreamFrame_closed_stream m p c q s now frame :
  Manager.mem m !! p = Some c →
  Connection.streamsMu c = RWMutex.free →
  v1.Type_ frame = v1.FrameData →
  Connection.streams c !! v1.StreamID frame = Some q →
  Connection.mem c !! q = Some s →
  chan_closed (Stream.closeCh s) = true →
  Manager.handleStreamFrame p now frame SelStreamClosed m
  = Done (Some ErrStreamClosed) m.
Proof.
  intros Hp Hmu Hty Hs Hq Hcl. unfold Manager.handleStreamFrame. cbv zeta.
  destruct m as [mem ? ? ? ? ? ? ? ?].
  destruct c as [? ? ? ? ? ? cmem str smu ? ? ? ?]; simpl in *. subst smu.
  rewrite Hty. unfold Connection.select_data, Connection.ready.
  mgr_unfold. conn_unfold. mgr_exec. rewrite Hcl. mgr_exec.
  rewrite insert_id by done. reflexivity.
Qed.

Lemma handleConnection_stop p ev rest m m' :
  Manager.loop_turn p ev m = Done true m' →
  Manager.handleConnection p (ev :: rest) m
  = (_ ← Manager.at_conn p Connection.Close; mret Returned) m'.
Proof.
  intros H. unfold Manager.handleConnection. simpl.
  unfold mbind, go_bind. rewrite H. reflexivity.
Qed.

Lemma handleConnection_closes p c m :
  Manager.mem m !! p = Some c → conn_quiescent c → Connection.closed c = false →
  ∃ c', Manager.mem (final ((_ ← Manager.at_conn p Connection.Close; mret Returned) m)) !! p
        = Some c'
    ∧ Connection.closed c' = true ∧ Connection.cancelled c' = true
    ∧ returned ((_ ← Manager.at_conn p Connection.Close; mret Returned) m)
      ≠ Some Looping.
Proof.
  intros Hp Hq Hcl. destruct (Close_sets_flags c Hq Hcl) as [H1 H2].
  unfold mbind, go_bind. rewrite (at_conn_run _ m p c Hp).
  exists (final (Connection.Close c)).
  destruct (Connection.Close c) as [e c'|c'|c']; simpl in *;
    rewrite lookup_insert_eq; done.
Qed.

(** *** Claims about connections and streams *)

(** C9.  On a connection whose [nextStreamID] is 1 (as [RegisterConnection]
    sets it), the [k]-th later call of [AllocateStreamID] returns
    [(1 + k) mod 2^32]: the first returns 1, nothing skips zero, and after
    [2^32 - 1] allocations the next one returns 0, the id of the control
    stream, so that a frame carrying the allocated id is a control frame. *)
Theorem AllocateStreamID_wraps_to_control (c : Connection.t) :
  Connection.streamsMu c = RWMutex.free →
  Connection.nextStreamID c = 1 →
  (∀ k : N, returned (Connection.AllocateStreamID (after_allocations k c))
            = Some (wrap_uint32 (1 + Z.of_N k)))
  ∧ returned (Connection.AllocateStreamID c) = Some 1
  ∧ returned (Connection.AllocateStreamID (after_allocations (2 ^ 32 - 1) c))
    = Some v1.StreamIDControl
  ∧ (∀ frame,
       Some (v1.StreamID frame)
       = returned (Connection.AllocateStreamID (after_allocations (2 ^ 32 - 1) c)) →
       v1.IsControlFrame frame = true).
Proof.
  intros Hmu Hn.
  assert (∀ k : N, returned (Connection.AllocateStreamID (after_allocations k c))
                   = Some (wrap_uint32 (1 + Z.of_N k))) as Hk.
  { intros k. rewrite AllocateStreamID_nth by (done || lia). by rewrite Hn. }
  split; [done|]. split; [apply (Hk 0%N)|].
  assert (wrap_uint32 (1 + Z.of_N (2 ^ 32 - 1)) = 0) as H0 by (by vm_compute).
  split.
  - rewrite Hk, H0. done.
  - intros frame. rewrite Hk, H0. intros [= Hf].
    unfold v1.IsControlFrame. rewrite Hf. done.
Qed.

Lemma AllocateStreamID_wraps_to_control_witness :
  Connection.streamsMu (fresh_connection 0 "conn-1" "agent-1" open_socket)
  = RWMutex.free
  ∧ Connection.nextStreamID (fresh_connection 0 "conn-1" "agent-1" open_socket) = 1
  ∧ returned (Connection.AllocateStreamID
                (after_allocations 2
                   (fresh_connection 0 "conn-1" "agent-1" open_socket)))
    = Some 3.
Proof.
  split; [reflexivity|]. split; [reflexivity|].
  apply (AllocateStreamID_wraps_to_control
           (fresh_connection 0 "conn-1" "agent-1" open_socket) eq_refl eq_refl).
Defined.

(** The connection that [RegisterConnection] stores is the fresh one. *)
Example registered_connection_is_fresh :
  Manager.mem example_manager !! example_conn
  = Some (fresh_connection 0 "conn-1" "agent-1" open_socket).
Proof. vm_compute. reflexivity. Qed.

(** C2.  [Close] on a connection with a live stream: the call takes
    [streamsMu], and [closeStream], called from inside the loop, takes the
    same lock again, so the call never returns.  It is parked with [closed]
    set and the context cancelled, while the stream table still holds the
    stream, no close signal has fired and the socket is open. *)
Theorem Close_deadlocks_with_a_live_stream :
  conn_quiescent conn_with_stream
  ∧ Connection.closed conn_with_stream = false
  ∧ is_Some (Connection.streams conn_with_stream !! 1)
  ∧ Connection.Close conn_with_stream = Blocked (close_parked conn_with_stream)
  ∧ Connection.closed (close_parked conn_with_stream) = true
  ∧ Connection.cancelled (close_parked conn_with_stream) = true
  ∧ Connection.streams (close_parked conn_with_stream)
    = Connection.streams conn_with_stream
  ∧ (∀ p, Connection.streams (close_parked conn_with_stream) !! 1 = Some p →
         ¬ close_signal_fired (close_parked conn_with_stream) p)
  ∧ Conn.sock_closed (Connection.Conn (close_parked conn_with_stream)) = false.
Proof.
  assert (conn_quiescent conn_with_stream) as Hq by (by split).
  assert (Connection.streams conn_with_stream !! 1 = Some 1%positive) as Hs
    by (by vm_compute).
  split; [done|]. split; [done|]. split; [by exists 1%positive|].
  split.
  { apply Close_with_live_streams; [done..|].
    intros He. rewrite He in Hs. by rewrite lookup_empty in Hs. }
  split; [done|]. split; [done|]. split; [done|]. split; [|done].
  intros p Hp (s & Hmem & Hfired).
  vm_compute in Hp. injection Hp as <-.
  revert Hmem Hfired. vm_compute. intros [= <-]. discriminate.
Qed.

(** C3 (as amended).  A DATA frame whose stream id is not in the stream
    table is answered with [ErrStreamNotFound], and one whose stream's
    close signal is taken by the select with [ErrStreamClosed]; neither
    changes the manager.  As every dispatch error does, it ends the frame
    loop: the frames behind it are not dispatched, [handleConnection]
    leaves its loop and runs [Close], and the connection has [closed] set
    and its context cancelled. *)
Theorem data_frame_error_ends_the_connection
    (m : Manager.t) (p : addr) (c : Connection.t) (now : Time)
    (frame : v1.Frame) (pick : select_case) (rest : list event) :
  Manager.mem m !! p = Some c →
  conn_quiescent c → Connection.closed c = false →
  v1.Type_ frame = v1.FrameData → v1.StreamID frame ≠ v1.StreamIDControl →
  Connection.streams c !! v1.StreamID frame = None
  ∨ (∃ q s, Connection.streams c !! v1.StreamID frame = Some q
       ∧ Connection.mem c !! q = Some s
       ∧ chan_closed (Stream.closeCh s) = true ∧ pick = SelStreamClosed) →
  (∃ e, (e = ErrStreamNotFound ∨ e = ErrStreamClosed)
     ∧ Manager.handleFrame p now frame pick m = Done (Some e) m)
  ∧ Manager.loop_turn p (EvFrame now frame pick) m = Done true m
  ∧ Manager.handleConnection p (EvFrame now frame pick :: rest) m
    = Manager.handleConnection p [EvFrame now frame pick] m
  ∧ returned (Manager.handleConnection p (EvFrame now frame pick :: rest) m)
    ≠ Some Looping
  ∧ ∃ c', Manager.mem (final (Manager.handleConnection p
                                (EvFrame now frame pick :: rest) m)) !! p = Some c'
      ∧ Connection.closed c' = true ∧ Connection.cancelled c' = true.
Proof.
  intros Hp Hq Hcl Hty Hid Hcase.
  assert (∃ e, (e = ErrStreamNotFound ∨ e = ErrStreamClosed)
      ∧ Manager.handleFrame p now frame pick m = Done (Some e) m) as (e & He & Hrun).
  { unfold Manager.handleFrame, v1.IsControlFrame.
    replace (v1.StreamID frame =? v1.StreamIDControl) with false
      by (symmetry; by apply Z.eqb_neq).
    destruct Hcase as [Hs|(q & s & Hs & Hmem & Hch & ->)].
    - exists ErrStreamNotFound. split; [by left|].
      eapply handleStreamFrame_unknown_stream; eauto. apply Hq.
    - exists ErrStreamClosed. split; [by right|].
      eapply handleStreamFrame_closed_stream; eauto. apply Hq. }
  assert (Manager.loop_turn p (EvFrame now frame pick) m = Done true m) as Hturn.
  { simpl. unfold mbind, go_bind. by rewrite Hrun. }
  split; [eauto|]. split; [done|].
  rewrite !(handleConnection_stop _ _ _ _ _ Hturn).
  split; [done|].
  destruct (handleConnection_closes p c m Hp Hq Hcl) as (c' & H1 & H2 & H3 & H4).
  eauto.
Qed.

Lemma data_frame_error_ends_the_connection_witness :
  Manager.mem example_manager !! example_conn
  = Some (fresh_connection 0 "conn-1" "agent-1" open_socket)
  ∧ Manager.handleConnection example_conn
      [EvFrame 1 (DataFrame 7 "ab") SelSend; EvFrame 2 HeartbeatFrame SelSend]
      example_manager
    = Manager.handleConnection example_conn
        [EvFrame 1 (DataFrame 7 "ab") SelSend] example_manager.
Proof.
  split; [exact registered_connection_is_fresh|].
  apply (data_frame_error_ends_the_connection example_manager example_conn
           (fresh_connection 0 "conn-1" "agent-1" open_socket) 1
           (DataFrame 7 "ab") SelSend [EvFrame 2 HeartbeatFrame SelSend]).
  - exact registered_connection_is_fresh.
  - split; reflexivity.
  - reflexivity.
  - reflexivity.
  - vm_compute. discriminate.
  - left. reflexivity.
Defined.

(** C3, the claim as stated, fails on the code: a DATA frame for the
    unknown stream 7 on a registered, open connection makes the dispatch
    return [ErrStreamNotFound]; the frame loop returns instead of
    continuing (the heartbeat frame behind it is never dispatched, the
    heartbeat time stays 0) and the connection is closed. *)
Lemma unknown_stream_data_frame_closes_connection :
  let events := [EvFrame 1 (DataFrame 7 "ab") SelSend;
                 EvFrame 2 HeartbeatFrame SelSend] in
  let out := Manager.handleConnection example_conn events example_manager in
  returned (Manager.handleFrame example_conn 1 (DataFrame 7 "ab") SelSend
              example_manager) = Some (Some ErrStreamNotFound)
  ∧ returned out = Some Returned
  ∧ (Connection.closed <$> Manager.mem (final out) !! example_conn) = Some true
  ∧ (Connection.LastHeartbeat <$> Manager.mem (final out) !! example_conn) = Some 0.
Proof. vm_compute. repeat split; reflexivity. Qed.

(** C5.  The manager invokes [onConnectionClosed] in [CloseConnection]
    only.  When a registered connection is closed by its own frame loop (a
    heartbeat timeout after 250 ms of silence with a 200 ms timeout, a
    reader error, or a protocol error), [handleConnection] returns and
    closes the connection, the callback installed on the manager has been
    invoked zero times, and the connection is still in the manager's map;
    [CloseConnection] on the same manager invokes it once. *)
Theorem loop_exit_skips_close_callback :
  Manager.onConnectionClosed example_manager = true
  ∧ (∀ events,
       (events = [EvTick (250 * Millisecond)] ∨ events = [EvError]
        ∨ events = [EvFrame 1 BadControlFrame SelSend]) →
       let out := Manager.handleConnection example_conn events example_manager in
       returned out = Some Returned
       ∧ (Connection.closed <$> Manager.mem (final out) !! example_conn) = Some true
       ∧ connection_closed_calls (final out) = []
       ∧ Manager.connections (final out) !! "conn-1" = Some example_conn)
  ∧ connection_closed_calls
      (final (Manager.CloseConnection "conn-1" example_manager))
    = [ConnectionClosed "conn-1"].
Proof.
  split; [reflexivity|]. split; [|by vm_compute].
  intros events [->|[->| ->]]; vm_compute; repeat split; reflexivity.
Qed.

(** *** Further properties of connections and streams *)




(** X14.  The connection limit: with [connsMu] free, [RegisterConnection]
    on a manager that already holds [maxConnections] connections or more
    returns [ErrMaxConnections] (also for an id that is already
    registered), below the limit a registered id gives
    [ErrConnectionExists], and in both cases the manager is unchanged.
    Hence a manager with at most [maxConnections] connections still has at
    most that many after any call. *)
Theorem RegisterConnection_respects_the_limit
    (now : Time) (connID agentID : string) (conn : Conn.t)
    (md : gmap string string) (m : Manager.t) :
  Manager.connsMu m = RWMutex.free →
  (Manager.maxConnections m ≤ Z.of_nat (size (Manager.connections m)) →
     Manager.RegisterConnection now connID agentID conn md m
     = Done (inl ErrMaxConnections) m)
  ∧ (Z.of_nat (size (Manager.connections m)) < Manager.maxConnections m →
     is_Some (Manager.connections m !! connID) →
     Manager.RegisterConnection now connID agentID conn md m
     = Done (inl ErrConnectionExists) m)
  ∧ (Z.of_nat (size (Manager.connections m)) ≤ Manager.maxConnections m →
     Z.of_nat (size (Manager.connections
                       (final (Manager.RegisterConnection now connID agentID
                                 conn md m))))
     ≤ Manager.maxConnections
         (final (Manager.RegisterConnection now connID agentID conn md m))).
Proof.
  intros Hmu.
  destruct m as [mem conns mu mx hb c1 c2 c3 calls]; simpl in *; subst mu.
  unfold Manager.RegisterConnection. mgr_unfold. simpl.
  destruct (mx <=? Z.of_nat (size conns)) eqn:Hfull; simpl.
  - apply Z.leb_le in Hfull. split; [done|]. split; [lia|done].
  - apply Z.leb_gt in Hfull. split; [lia|].
    destruct (conns !! connID) as [q|] eqn:E; simpl.
    + split; [done|]. intros; lia.
    + split; [by intros _ [? ?]|]. intros _.
      rewrite map_size_insert_None by done. lia.
Qed.

Lemma RegisterConnection_respects_the_limit_witness :
  Manager.connsMu example_manager = RWMutex.free
  ∧ Manager.RegisterConnection 5 "conn-1" "agent-2" open_socket ∅ example_manager
    = Done (inl ErrConnectionExists) example_manager.
Proof.
  split; [reflexivity|].
  destruct (RegisterConnection_respects_the_limit 5 "conn-1" "agent-2"
              open_socket ∅ example_manager eq_refl) as (_ & H & _).
  apply H.
  - vm_compute. reflexivity.
  - vm_compute. eauto.
Defined.

Lemma SendFrame_when_closed frame c :
  RWMutex.writer (Connection.closedMu c) = false →
  Connection.closed c = true →
  Connection.SendFrame frame c = Done (Some ErrConnectionClosed) c.
Proof.
  intros Hmu Hcl. destruct c as [? ? ? ? ? ? ? ? ? ? ? ? [w n]]; simpl in *; subst.
  unfold Connection.SendFrame. conn_unfold. reflexivity.
Qed.

(** X15.  Closing is idempotent and seals the connection: [Close] on an
    open connection without streams returns (the result of closing the
    socket), sets [closed], cancels the context and closes the socket; a
    second [Close] returns nil and changes nothing, not touching the socket
    again; and every later [SendFrame] returns [ErrConnectionClosed]
    without writing to the socket. *)
Theorem Close_is_idempotent_and_seals (c : Connection.t) :
  conn_quiescent c → Connection.closed c = false → Connection.streams c = ∅ →
  ∃ e c', Connection.Close c = Done e c'
    ∧ Connection.closed c' = true ∧ Connection.cancelled c' = true
    ∧ Conn.sock_closed (Connection.Conn c') = true
    ∧ Conn.written (Connection.Conn c') = Conn.written (Connection.Conn c)
    ∧ Connection.Close c' = Done None c'
    ∧ ∀ frame, Connection.SendFrame frame c' = Done (Some ErrConnectionClosed) c'.
Proof.
  intros Hq Hcl He. destruct (Close_without_streams c Hq Hcl He) as [e Hrun].
  do 2 eexists. split; [exact Hrun|].
  destruct Hq as [Hs Hc].
  split; [done|]. split; [done|]. split; [|split; [|split]].
  - simpl. by destruct (Connection.Conn c) as [[] ? ?].
  - simpl. by destruct (Connection.Conn c) as [[] ? ?].
  - apply Close_when_closed; done.
  - intros frame. apply SendFrame_when_closed; simpl; [by rewrite Hc|done].
Qed.

Lemma Close_is_idempotent_and_seals_witness :
  ∃ c', Connection.Close (fresh_connection 0 "conn-1" "agent-1" open_socket)
        = Done None c'
    ∧ Connection.Close c' = Done None c'
    ∧ Connection.SendFrame HeartbeatFrame c' = Done (Some ErrConnectionClosed) c'.
Proof.
  destruct (Close_is_idempotent_and_seals
              (fresh_connection 0 "conn-1" "agent-1" open_socket))
    as (e & c' & E & _ & _ & _ & _ & H2 & Hsend).
  - split; reflexivity.
  - reflexivity.
  - reflexivity.
  - exists c'. split; [|split; [exact H2|apply Hsend]].
    rewrite E. f_equal. revert E. vm_compute. by intros [= <- _].
Defined.

(** X16.  [CloseConnection]: for an unknown id it returns
    [ErrConnectionNotFound] and changes nothing, invoking no callback.  For
    a registered, open connection without streams it returns nil, removes
    the id from the map, closes the connection (flag, context, socket) and
    invokes [onConnectionClosed] once with the id when a callback is
    installed; a second call then returns [ErrConnectionNotFound]. *)
Theorem CloseConnection_closes_and_notifies (connID : string) (m : Manager.t) :
  Manager.connsMu m = RWMutex.free →
  (Manager.connections m !! connID = None →
     Manager.CloseConnection connID m = Done (Some ErrConnectionNotFound) m)
  ∧ (∀ p c, Manager.connections m !! connID = Some p →
       Manager.mem m !! p = Some c →
       conn_quiescent c → Connection.closed c = false →
       Connection.streams c = ∅ →
       ∃ m' c', Manager.CloseConnection connID m = Done None m'
         ∧ Manager.connections m' = delete connID (Manager.connections m)
         ∧ Manager.mem m' !! p = Some c'
         ∧ Connection.closed c' = true ∧ Connection.cancelled c' = true
         ∧ Conn.sock_closed (Connection.Conn c') = true
         ∧ Manager.calls m'
           = Manager.calls m ++
             (if Manager.onConnectionClosed m then [ConnectionClosed connID]
              else [])
         ∧ Manager.CloseConnection connID m'
           = Done (Some ErrConnectionNotFound) m').
Proof.
  intros Hmu. split.
  - intros E. destruct m as [mem conns mu mx hb c1 c2 c3 calls]; simpl in *; subst mu.
    unfold Manager.CloseConnection. mgr_unfold. simpl. rewrite E. done.
  - intros p c E Hp Hq Hcl He.
    destruct (Close_is_idempotent_and_seals c Hq Hcl He)
      as (e & c' & Hrun & H1 & H2 & H3 & _).
    destruct m as [mem conns mu mx hb cb c2 c3 calls]; simpl in *; subst mu.
    assert (∀ m0, Manager.connsMu m0 = RWMutex.free →
              Manager.connections m0 !! connID = None →
              Manager.CloseConnection connID m0
              = Done (Some ErrConnectionNotFound) m0) as Hmissing.
    { intros [? ? mu0 ? ? ? ? ? ?] Hmu0 E0; simpl in *; subst mu0.
      unfold Manager.CloseConnection. mgr_unfold. simpl. rewrite E0. done. }
    set (m1 := {| Manager.mem := <[p := c']> mem;
                  Manager.connections := delete connID conns;
                  Manager.connsMu := RWMutex.free;
                  Manager.maxConnections := mx; Manager.heartbeatTimeout := hb;
                  Manager.onConnectionClosed := cb;
                  Manager.onStreamCreated := c2; Manager.onStreamClosed := c3;
                  Manager.calls :=
                    calls ++ (if cb then [ConnectionClosed connID] else []) |}).
    assert (Manager.CloseConnection connID
              {| Manager.mem := mem; Manager.connections := conns;
                 Manager.connsMu := RWMutex.free;
                 Manager.maxConnections := mx; Manager.heartbeatTimeout := hb;
                 Manager.onConnectionClosed := cb;
                 Manager.onStreamCreated := c2; Manager.onStreamClosed := c3;
                 Manager.calls := calls |} = Done None m1) as Hclose.
    { unfold Manager.CloseConnection, m1. mgr_unfold. simpl. rewrite E. simpl.
      rewrite Hp, Hrun. simpl. destruct cb; simpl; [done|].
      by rewrite app_nil_r. }
    exists m1, c'. split; [exact Hclose|]. split; [done|].
    split; [apply lookup_insert_eq|]. do 4 (split; [done|]).
    apply Hmissing; [done|apply lookup_delete_eq].
Qed.

Lemma CloseConnection_closes_and_notifies_witness :
  Manager.connsMu example_manager = RWMutex.free
  ∧ ∃ m', Manager.CloseConnection "conn-1" example_manager = Done None m'
      ∧ Manager.calls m' = [ConnectionClosed "conn-1"]
      ∧ Manager.CloseConnection "conn-1" m' = Done (Some ErrConnectionNotFound) m'.
Proof.
  split; [reflexivity|].
  destruct (CloseConnection_closes_and_notifies "conn-1" example_manager eq_refl)
    as [_ H].
  destruct (H example_conn (fresh_connection 0 "conn-1" "agent-1" open_socket))
    as (m' & c' & E & _ & _ & _ & _ & _ & Hcalls & Hagain).
  - vm_compute. reflexivity.
  - exact registered_connection_is_fresh.
  - split; reflexivity.
  - reflexivity.
  - reflexivity.
  - exists m'. split; [exact E|]. split; [exact Hcalls|exact Hagain].
Defined.

(** X17.  The stream table: with [streamsMu] free, [createStream] stores a
    new stream object (state Init, empty channels of capacity 10, close
    signal not fired) under the id and [GetStream] returns it;
    [closeStream] then fires the close signal of that object and removes
    the id, after which [GetStream] finds nothing and a further
    [closeStream] is a no-op. *)
Theorem createStream_GetStream_closeStream
    (now : Time) (streamID : Z) (c : Connection.t) :
  Connection.streamsMu c = RWMutex.free →
  ∃ p c1 c2,
    Connection.createStream now streamID c = Done p c1
    ∧ Connection.mem c !! p = None
    ∧ Connection.GetStream streamID c1 = Done (Some p) c1
    ∧ Connection.mem c1 !! p
      = Some {| Stream.ID := streamID; Stream.State := StreamStateInit;
                Stream.CreatedAt := now; Stream.Metadata := ∅;
                Stream.dataIn := make_chan 10; Stream.dataOut := make_chan 10;
                Stream.closeCh := make_chan 0; Stream.mu := RWMutex.free |}
    ∧ Connection.closeStream streamID c1 = Done tt c2
    ∧ close_signal_fired c2 p
    ∧ Connection.streams c2 = delete streamID (Connection.streams c)
    ∧ Connection.GetStream streamID c2 = Done None c2
    ∧ Connection.closeStream streamID c2 = Done tt c2.
Proof.
  intros Hmu.
  destruct c as [id cn ag md ca lh mem str smu nx cc cl cmu]; simpl in *; subst smu.
  exists (fresh (dom mem)). do 2 eexists.
  split; [unfold Connection.createStream; conn_unfold; simpl; reflexivity|].
  split; [apply fresh_not_in_mem|].
  split; [unfold Connection.GetStream; conn_unfold; simpl;
          rewrite lookup_insert_eq; reflexivity|].
  split; [simpl; by rewrite lookup_insert_eq|].
  split.
  { unfold Connection.closeStream, Stream.on_closeCh, close. conn_unfold. simpl.
    rewrite lookup_insert_eq. simpl. rewrite lookup_insert_eq. simpl.
    rewrite insert_insert_eq. reflexivity. }
  split; [eexists; simpl; rewrite lookup_insert_eq; split; reflexivity|].
  split; [simpl; apply delete_insert_eq|].
  split.
  - unfold Connection.GetStream. conn_unfold. simpl.
    rewrite lookup_delete_eq. reflexivity.
  - unfold Connection.closeStream. conn_unfold. simpl.
    rewrite lookup_delete_eq. reflexivity.
Qed.

Lemma createStream_GetStream_closeStream_witness :
  ∃ p c1, Connection.createStream 1 7
            (fresh_connection 0 "conn-1" "agent-1" open_socket) = Done p c1
    ∧ Connection.GetStream 7 c1 = Done (Some p) c1.
Proof.
  destruct (createStream_GetStream_closeStream 1 7
              (fresh_connection 0 "conn-1" "agent-1" open_socket) eq_refl)
    as (p & c1 & c2 & E & _ & Hget & _).
  exists p, c1. split; [exact E|exact Hget].
Defined.

(** X18.  Delivery of a DATA frame: for a stream that is in the table and
    has room in its inbound buffer, the dispatch (taking the send case of
    its select) appends the payload behind the payloads already queued and
    reports no error.  Without the END_STREAM flag nothing else changes.
    With it the stream is then marked closed, its close signal fires, its
    id leaves the stream table (the queued payloads stay in the object) and
    [onStreamClosed] is invoked with the connection and stream ids when a
    callback is installed. *)
Theorem data_frame_is_queued_in_order
    (m : Manager.t) (p : addr) (c : Connection.t) (q : addr) (s : Stream.t)
    (now : Time) (frame : v1.Frame) :
  Manager.mem m !! p = Some c →
  Connection.streamsMu c = RWMutex.free →
  v1.Type_ frame = v1.FrameData → v1.StreamID frame ≠ v1.StreamIDControl →
  Connection.streams c !! v1.StreamID frame = Some q →
  Connection.mem c !! q = Some s →
  can_send (Stream.dataIn s) = true →
  Stream.mu s = RWMutex.free → chan_closed (Stream.closeCh s) = false →
  ∃ m' c' s',
    Manager.handleFrame p now frame SelSend m = Done None m'
    ∧ Manager.mem m' !! p = Some c' ∧ Connection.mem c' !! q = Some s'
    ∧ buf (Stream.dataIn s') = buf (Stream.dataIn s) ++ [v1.Payload frame]
    ∧ if v1.IsEndStream frame
      then Connection.streams c' = delete (v1.StreamID frame) (Connection.streams c)
           ∧ Stream.State s' = StreamStateClosed
           ∧ chan_closed (Stream.closeCh s') = true
           ∧ Manager.calls m'
             = Manager.calls m ++
               (if Manager.onStreamClosed m
                then [StreamClosed (Connection.ID c) (v1.StreamID frame)]
                else [])
      else Connection.streams c' = Connection.streams c
           ∧ Stream.State s' = Stream.State s
           ∧ chan_closed (Stream.closeCh s') = false
           ∧ Manager.calls m' = Manager.calls m.
Proof.
  intros Hp Hmu Hty Hid Hq Hs Hroom Hsmu Hch.
  unfold Manager.handleFrame, v1.IsControlFrame.
  replace (v1.StreamID frame =? v1.StreamIDControl) with false
    by (symmetry; by apply Z.eqb_neq).
  unfold Manager.handleStreamFrame. cbv zeta.
  destruct m as [mem ? ? ? ? ? ? cb3 calls].
  destruct c as [? ? ? ? ? ? cmem str smu ? ? ? ?]; simpl in *. subst smu.
  destruct s as [? ? ? ? din dout cch smu']; simpl in *. subst smu'.
  rewrite Hty. unfold Connection.select_data, Connection.ready,
    Connection.closeStream, Stream.setState, Stream.on_mu, Stream.on_closeCh,
    close, v1.IsEndStream.
  mgr_unfold. conn_unfold. mgr_exec. rewrite Hroom. mgr_exec.
  destruct (v1.EndStream (v1.FFlags frame)); mgr_exec.
  - rewrite Hch. mgr_exec.
    destruct cb3; do 3 eexists; (split; [reflexivity|]); simpl;
      rewrite lookup_insert_eq; (split; [reflexivity|]); simpl;
      rewrite lookup_insert_eq; (split; [reflexivity|]); simpl;
      rewrite ?app_nil_r; done.
  - do 3 eexists. split; [reflexivity|]. simpl.
    rewrite lookup_insert_eq. split; [reflexivity|]. simpl.
    rewrite lookup_insert_eq. split; [reflexivity|]. simpl. done.
Qed.

Lemma data_frame_is_queued_in_order_witness :
  let m1 := final (Manager.handleFrame example_conn 1 (OpenStreamFrame 3 EmptyString)
                     SelSend example_manager) in
  let m2 := final (Manager.handleFrame example_conn 2 (DataFrame 3 "ab")
                     SelSend m1) in
  ∃ m3 c' s', Manager.handleFrame example_conn 3 (DataFrame 3 "cd") SelSend m2
              = Done None m3
    ∧ Manager.mem m3 !! example_conn = Some c'
    ∧ Connection.mem c' !! 1%positive = Some s'
    ∧ buf (Stream.dataIn s') = ["ab"; "cd"].
Proof.
  intros m1 m2.
  assert (∃ c s, Manager.mem m2 !! example_conn = Some c
            ∧ Connection.streamsMu c = RWMutex.free
            ∧ Connection.streams c !! 3 = Some 1%positive
            ∧ Connection.mem c !! 1%positive = Some s
            ∧ can_send (Stream.dataIn s) = true
            ∧ Stream.mu s = RWMutex.free
            ∧ chan_closed (Stream.closeCh s) = false
            ∧ buf (Stream.dataIn s) = ["ab"])
    as (c & s & Hc & Hmu & Hq & Hs & Hroom & Hsmu & Hch & Hbuf).
  { vm_compute. do 2 eexists. repeat split; reflexivity. }
  destruct (data_frame_is_queued_in_order m2 example_conn c 1%positive s 3
              (DataFrame 3 "cd") Hc Hmu eq_refl)
    as (m3 & c' & s' & E & Hc' & Hs' & Hbuf' & _);
    [discriminate|exact Hq|exact Hs|exact Hroom|exact Hsmu|exact Hch|].
  exists m3, c', s'. split; [exact E|]. split; [exact Hc'|]. split; [exact Hs'|].
  rewrite Hbuf', Hbuf. reflexivity.
Defined.



(** *** Heartbeats *)





(** *** Lookup by agent *)

Lemma find_agent_run agentID conns : ∀ m,
  (∀ p, p ∈ conns → is_Some (Manager.mem m !! p)) →
  ∃ found, Manager.find_agent agentID conns m = Done found m
    ∧ match found with
      | Some p => p ∈ conns
                  ∧ ∃ c, Manager.mem m !! p = Some c
                         ∧ Connection.AgentID c = agentID
      | None => ∀ p c, p ∈ conns → Manager.mem m !! p = Some c →
                       Connection.AgentID c ≠ agentID
      end.
Proof.
  induction conns as [|q conns IH]; intros m Hmem.
  - exists None. split; [reflexivity|]. intros p c Hin. by apply not_elem_of_nil in Hin.
  - destruct (Hmem q) as [c Hq]; [by left|].
    simpl. unfold mbind at 1, go_bind at 1.
    rewrite (at_conn_run _ m q c Hq). unfold gets at 1.
    rewrite set_mem_same by done.
    case_bool_decide as Hid.
    + exists (Some q). split; [reflexivity|]. split; [by left|]. eauto.
    + destruct (IH m) as (found & E & Hfound).
      { intros p Hin. apply Hmem. by right. }
      exists found. split; [exact E|].
      destruct found as [p|].
      * destruct Hfound as (Hin & Hc). split; [by right|done].
      * intros p c' Hin Hp. apply elem_of_cons in Hin as [->|Hin].
        -- rewrite Hq in Hp. by injection Hp as <-.
        -- by apply (Hfound p c').
Qed.

(** X21.  Lookup by agent: with no writer on [connsMu] and every
    registered connection live in memory, [GetConnectionByAgentID] returns
    and leaves the manager as it was.  A connection it returns is
    registered and belongs to the agent; it reports none only when no
    registered connection belongs to the agent. *)
Theorem GetConnectionByAgentID_finds_a_connection_of_the_agent
    (agentID : string) (m : Manager.t) :
  RWMutex.writer (Manager.connsMu m) = false →
  (∀ connID p, Manager.connections m !! connID = Some p →
     is_Some (Manager.mem m !! p)) →
  ∃ found, Manager.GetConnectionByAgentID agentID m = Done found m
    ∧ match found with
      | Some p => ∃ connID c, Manager.connections m !! connID = Some p
                    ∧ Manager.mem m !! p = Some c
                    ∧ Connection.AgentID c = agentID
      | None => ∀ connID p c, Manager.connections m !! connID = Some p →
                  Manager.mem m !! p = Some c →
                  Connection.AgentID c ≠ agentID
      end.
Proof.
  intros Hw Hlive.
  destruct m as [mem conns [w n] mx hb cb1 cb2 cb3 calls]; simpl in *; subst w.
  set (m1 := {| Manager.mem := mem; Manager.connections := conns;
                Manager.connsMu := {| RWMutex.writer := false; RWMutex.readers := S n |};
                Manager.maxConnections := mx; Manager.heartbeatTimeout := hb;
                Manager.onConnectionClosed := cb1; Manager.onStreamCreated := cb2;
                Manager.onStreamClosed := cb3; Manager.calls := calls |}).
  destruct (find_agent_run agentID (map_to_list conns).*2 m1) as (found & E & Hfound).
  { intros p Hin. apply list_elem_of_fmap in Hin as ([connID p'] & -> & Hin).
    apply elem_of_map_to_list in Hin. by apply (Hlive connID). }
  exists found. split.
  - unfold Manager.GetConnectionByAgentID.
    unfold mbind at 1, go_bind at 1.
    unfold Manager.on_connsMu at 1, zoom at 1. simpl.
    unfold mbind at 1, go_bind at 1. unfold gets at 1.
    simpl. unfold mbind at 1, go_bind at 1.
    change (Manager.set_connsMu _ _) with m1. rewrite E.
    reflexivity.
  - destruct found as [p|].
    + destruct Hfound as (Hin & c & Hc & Hid).
      apply list_elem_of_fmap in Hin as ([connID p'] & -> & Hin).
      apply elem_of_map_to_list in Hin. by exists connID, c.
    + intros connID p c Hconn Hc. apply (Hfound p c); [|done].
      apply list_elem_of_fmap. exists (connID, p). split; [done|].
      by apply elem_of_map_to_list.
Qed.

Lemma GetConnectionByAgentID_finds_a_connection_of_the_agent_witness :
  Manager.GetConnectionByAgentID "agent-1" example_manager
  = Done (Some example_conn) example_manager
  ∧ Manager.GetConnectionByAgentID "agent-2" example_manager
    = Done None example_manager.
Proof.
  assert (∀ connID p, Manager.connections example_manager !! connID = Some p →
            is_Some (Manager.mem example_manager !! p)) as Hlive.
  { intros connID p. change (Manager.connections example_manager)
      with (<["conn-1" := 1%positive]> (∅ : gmap string addr)).
    intros H. apply lookup_insert_Some in H as [[_ <-]|[_ H]]; [|done].
    vm_compute. eauto. }
  split.
  - destruct (GetConnectionByAgentID_finds_a_connection_of_the_agent "agent-1"
                example_manager eq_refl Hlive) as (found & E & Hfound).
    rewrite E. revert E. vm_compute. by intros [= <-].
  - destruct (GetConnectionByAgentID_finds_a_connection_of_the_agent "agent-2"
                example_manager eq_refl Hlive) as (found & E & Hfound).
    rewrite E. revert E. vm_compute. by intros [= <-].
Defined.

(** ** Router *)

Import router.

(** *** The request path on a connection *)

Lemma GetStream_run c streamID :
  connection.Connection.streamsMu c = RWMutex.free →
  connection.Connection.GetStream streamID c
  = Done (connection.Connection.streams c !! streamID) c.
Proof.
  intros H. destruct c; simpl in *; subst.
  unfold connection.Connection.GetStream. conn_unfold. reflexivity.
Qed.

Lemma SendFrame_run frame c :
  connection.Connection.closedMu c = RWMutex.free →
  connection.Connection.closed c = false → socket_writable c →
  connection.Connection.SendFrame frame c = Done None (sent frame c).
Proof.
  intros Hmu Hcl [Hs Hw]. destruct c as [? [sc wr we] ? ? ? ? ? ? ? ? ? ? ?].
  simpl in *; subst.
  unfold connection.Connection.SendFrame, connection.Conn.Encode, sent.
  conn_unfold. reflexivity.
Qed.

(** [SendFrame] touches the socket only. *)
Lemma SendFrame_streams frame c :
  connection.Connection.streams (final (connection.Connection.SendFrame frame c))
  = connection.Connection.streams c
  ∧ connection.Connection.streamsMu (final (connection.Connection.SendFrame frame c))
  = connection.Connection.streamsMu c.
Proof.
  destruct c as [? [sc wr we] ? ? ? ? ? ? ? ? ? cl [w r]].
  unfold connection.Connection.SendFrame, connection.Conn.Encode.
  conn_unfold. simpl.
  destruct w; simpl; [done|]. destruct cl; simpl.
  - destruct r; simpl; done.
  - destruct sc; simpl; [done|]. destruct we as [|[] ?]; simpl; done.
Qed.

Lemma wait_loop_deadline_first payloads rest acc :
  Router.wait_loop (deadline_first payloads rest) acc = Some (inl DeadlineExceeded).
Proof.
  unfold deadline_first. revert acc.
  induction payloads as [|d ds IH]; intros acc; simpl; [done|]. apply IH.
Qed.

Lemma waitForResponse_deadline_first {S} payloads rest w (s : S) :
  Router.waitForResponse (deadline_first payloads rest) w s
  = Done (w, Some DeadlineExceeded) s.
Proof.
  unfold Router.waitForResponse. by rewrite wait_loop_deadline_first.
Qed.

Lemma sent_facts frame c :
  conn_quiescent c → connection.Connection.closed c = false →
  conn_quiescent (sent frame c)
  ∧ connection.Connection.closed (sent frame c) = false
  ∧ socket_writable (sent frame c)
  ∧ connection.Connection.streams (sent frame c) = connection.Connection.streams c.
Proof. intros [? ?] ?. by repeat split. Qed.

(** With the fetched stream present, the socket writable and the body
    readable, [handleRequest] reaches its wait. *)
Lemma handleRequest_reaches_wait events streamID w req c :
  conn_quiescent c → connection.Connection.closed c = false →
  socket_writable c →
  is_Some (connection.Connection.streams c !! streamID) →
  Body req ≠ Some ReadFailed →
  ∃ c', Router.handleRequest events streamID w req c
        = Router.waitForResponse events w c'.
Proof.
  intros Hq Hcl Hw [p Hp] Hbody. unfold Router.handleRequest. cbv zeta.
  set (openFrame := {| v1.Type_ := v1.FrameOpenStream |}).
  destruct (sent_facts openFrame c Hq Hcl) as (Hq1 & Hcl1 & Hw1 & Hs1).
  unfold mbind at 1, go_bind at 1. rewrite SendFrame_run by (done || apply Hq).
  unfold mbind at 1, go_bind at 1. rewrite GetStream_run by apply Hq1.
  rewrite Hs1, Hp.
  destruct (Body req) as [[body|]|] eqn:Hb; [|done|].
  - case_bool_decide.
    + set (dataFrame := {| v1.Payload := body |}).
      destruct (sent_facts dataFrame _ Hq1 Hcl1) as (Hq2 & Hcl2 & Hw2 & Hs2).
      unfold mbind, go_bind. rewrite SendFrame_run by (done || apply Hq1).
      cbv beta iota. unfold mret, go_ret. cbv beta iota.
      rewrite SendFrame_run by (done || apply Hq2). eauto.
    + unfold mbind, go_bind. simpl.
      rewrite SendFrame_run by (done || apply Hq1). eauto.
  - unfold mbind, go_bind. simpl.
    rewrite SendFrame_run by (done || apply Hq1). eauto.
Qed.

(** Without a stream under the allocated id, [handleRequest] can only
    fail before it waits, and the stream table is as it was. *)
Lemma handleRequest_without_stream events streamID w req c :
  connection.Connection.streamsMu c = RWMutex.free →
  connection.Connection.streams c !! streamID = None →
  connection.Connection.streams (final (Router.handleRequest events streamID w req c))
  = connection.Connection.streams c
  ∧ ∀ res, returned (Router.handleRequest events streamID w req c) = Some res →
      res = (w, Some ErrStreamNotFound)
      ∨ ∃ e, res = (w, Some (ErrSendOpenStream e)).
Proof.
  intros Hs Hp.
  remember (Router.handleRequest events streamID w req c) as out eqn:Hout.
  unfold Router.handleRequest in Hout. cbv zeta in Hout.
  set (openFrame := {| v1.Type_ := v1.FrameOpenStream |}) in Hout.
  pose proof (SendFrame_streams openFrame c) as [H1 H2].
  unfold mbind at 1, go_bind at 1 in Hout.
  destruct (connection.Connection.SendFrame openFrame c) as [[e|] c1|c1|c1];
    simpl in *; try (subst out; split; [done|]; intros res [=]; eauto).
  unfold mbind at 1, go_bind at 1 in Hout.
  rewrite GetStream_run in Hout by congruence.
  rewrite H1, Hp in Hout. subst out. simpl.
  split; [done|]. intros res [= <-]. by left.
Qed.

Ltac router_unfold :=
  unfold Router.on_registry, Router.on_connManager, Router.on_limiter,
    Router.set_registry, Router.set_connManager, Router.set_limiter in *;
  go_unfold.

Lemma allocate_on_connection r conn c :
  connection.Manager.mem (Router.connManager r) !! conn = Some c →
  connection.Connection.streamsMu c = RWMutex.free →
  Router.on_connManager
    (connection.Manager.at_conn conn connection.Connection.AllocateStreamID) r
  = Done (connection.Connection.nextStreamID c)
      (Router.set_connManager
         (connection.Manager.set_mem
            (<[conn := connection.Connection.set_nextStreamID
                         (wrap_uint32 (connection.Connection.nextStreamID c + 1)) c]>
               (connection.Manager.mem (Router.connManager r)))
            (Router.connManager r)) r).
Proof.
  intros Hc Hmu. unfold Router.on_connManager, zoom.
  rewrite (at_conn_run _ _ _ _ Hc), AllocateStreamID_run by done. done.
Qed.

(** The response of [serve_on_connection] in terms of what [handleRequest]
    does on the connection after the allocation. *)
Lemma serve_on_connection_run r conn c events req :
  connection.Manager.mem (Router.connManager r) !! conn = Some c →
  connection.Connection.streamsMu c = RWMutex.free →
  let c1 := connection.Connection.set_nextStreamID
              (wrap_uint32 (connection.Connection.nextStreamID c + 1)) c in
  let store c' :=
    Router.set_connManager
      (connection.Manager.set_mem
         (<[conn := c']> (connection.Manager.mem (Router.connManager r)))
         (Router.connManager r)) r in
  Router.serve_on_connection conn events ResponseWriter.empty req r =
    match Router.handleRequest events (connection.Connection.nextStreamID c)
            ResponseWriter.empty req c1 with
    | Done (w, Some err) c' =>
        Done (ResponseWriter.Error (error_string err) StatusInternalServerError w)
             (store c')
    | Done (w, None) c' => Done w (store c')
    | Blocked c' => Blocked (store c')
    | Fatal c' => Fatal (store c')
    end.
Proof.
  intros Hc Hmu c1 store. unfold Router.serve_on_connection.
  unfold mbind at 1, go_bind at 1. rewrite (allocate_on_connection r conn c) by done.
  unfold mbind at 1, go_bind at 1. unfold Router.on_connManager, zoom.
  simpl.
  erewrite at_conn_run; [|simpl; apply lookup_insert_eq].
  fold c1.
  destruct (Router.handleRequest _ _ _ _ c1) as [[w [e|]] c'|c'|c']; simpl;
    unfold store, connection.Manager.set_mem, Router.set_connManager; simpl;
    rewrite insert_insert_eq; reflexivity.
Qed.

(** *** The status codes of the handler *)

Lemma results_in_ret {S A} (P : A → Prop) (a : A) :
  P a → results_in (S := S) P (mret a).
Proof. intros H s a' s' [= <- _]. done. Qed.

Lemma results_in_bind {S A B} (P : B → Prop) (k : go S A) (f : A → go S B) :
  (∀ x, results_in P (f x)) → results_in P (k ≫= f).
Proof.
  intros Hf s b s'. unfold mbind, go_bind.
  destruct (k s) as [x s1|s1|s1]; [|done..]. apply Hf.
Qed.

Lemma results_in_zoom {S T A} (P : A → Prop) (get : S → T) (set : T → S → S)
    (k : go T A) :
  results_in P k → results_in P (zoom get set k).
Proof.
  intros Hk s a s'. unfold zoom.
  destruct (k (get s)) as [x t|t|t] eqn:E; [|done..].
  intros [= <- _]. by eapply Hk.
Qed.

Lemma results_in_at_conn {A} (P : A → Prop) p (k : go connection.Connection.t A) :
  results_in P k → results_in P (connection.Manager.at_conn p k).
Proof.
  intros Hk m a m'. unfold connection.Manager.at_conn.
  destruct (connection.Manager.mem m !! p); [|done].
  by apply results_in_zoom.
Qed.

Lemma results_in_on_limiter {A} (P : A → Prop) (k : go quota.Limiter.t A) :
  results_in P k → results_in P (Router.on_limiter k).
Proof.
  intros Hk r a r'. unfold Router.on_limiter.
  destruct (Router.limiter r); [|done]. by apply results_in_zoom.
Qed.

Lemma results_in_waitForResponse {S} events w :
  ResponseWriter.status w = None →
  results_in (S := S) (handled w) (Router.waitForResponse events w).
Proof.
  intros Hw s res s'. unfold Router.waitForResponse.
  destruct (Router.wait_loop events EmptyString) as [[e|data]|]; [| |done].
  - intros [= <- _]. left. eauto.
  - case_bool_decide; intros [= <- _]; right; simpl; rewrite Hw; eauto.
Qed.

Lemma results_in_handleRequest events streamID w req :
  ResponseWriter.status w = None →
  results_in (handled w) (Router.handleRequest events streamID w req).
Proof.
  intros Hw. unfold Router.handleRequest. cbv zeta.
  apply results_in_bind. intros [e|].
  { apply results_in_ret. left. eauto. }
  apply results_in_bind. intros [p|].
  2: { apply results_in_ret. left. eauto. }
  apply results_in_bind. intros [e|].
  { apply results_in_ret. left. eauto. }
  apply results_in_bind. intros [e|].
  { apply results_in_ret. left. eauto. }
  by apply results_in_waitForResponse.
Qed.

Lemma served_status_Error msg code :
  code = StatusBadRequest ∨ code = StatusNotFound ∨ code = StatusTooManyRequests
  ∨ code = StatusInternalServerError ∨ code = StatusServiceUnavailable →
  served_status (ResponseWriter.Error msg code ResponseWriter.empty).
Proof.
  unfold served_status. simpl.
  intros [->|[->|[->|[->| ->]]]]; eauto 10.
Qed.

Lemma results_in_serve_on_connection conn events req :
  results_in served_status
    (Router.serve_on_connection conn events ResponseWriter.empty req).
Proof.
  unfold Router.serve_on_connection.
  apply results_in_bind. intros streamID.
  intros r w r'. unfold mbind, go_bind.
  destruct (Router.on_connManager _ r) as [[w1 oe] r1|r1|r1] eqn:E; [|done..].
  assert (handled ResponseWriter.empty (w1, oe)) as Hh.
  { revert E. apply (results_in_zoom (handled ResponseWriter.empty)).
    apply results_in_at_conn. by apply results_in_handleRequest. }
  destruct Hh as [[e [= -> ->]]|[Hn Hs]]; simpl in *.
  - intros [= <- _]. apply served_status_Error. eauto 10.
  - subst oe. intros [= <- _]. unfold served_status. destruct Hs; eauto 10.
Qed.

Lemma results_in_ServeHTTP now1 now2 events req :
  results_in served_status (Router.ServeHTTP now1 now2 events req).
Proof.
  unfold Router.ServeHTTP. cbv zeta.
  case_bool_decide.
  { apply results_in_ret, served_status_Error. eauto 10. }
  apply results_in_bind. intros [tn|].
  2: { apply results_in_ret, served_status_Error. eauto 10. }
  apply results_in_bind. intros agentID.
  apply results_in_bind. intros connectionID.
  apply results_in_bind. intros lim.
  apply results_in_bind. intros [e|].
  { apply results_in_ret, served_status_Error. eauto 10. }
  apply results_in_bind. intros [conn|].
  2: { apply results_in_ret, served_status_Error. eauto 10. }
  destruct lim as [l|]; [|apply results_in_serve_on_connection].
  apply results_in_bind. intros [e|].
  { apply results_in_ret, served_status_Error. eauto 10. }
  intros r w r'. unfold mbind at 1, go_bind at 1.
  destruct (Router.serve_on_connection _ _ _ _ r) as [w1 r1|r1|r1] eqn:E; [|done..].
  apply results_in_serve_on_connection in E.
  unfold mbind, go_bind. destruct (Router.on_limiter _ r1); [|done..].
  by intros [= <- _].
Qed.

(** *** From the handler to the connection *)

Lemma GetConnection_run m connID :
  RWMutex.writer (connection.Manager.connsMu m) = false →
  connection.Manager.GetConnection connID m
  = Done (connection.Manager.connections m !! connID) m.
Proof.
  intros H. destruct m as [? ? [w n] ? ? ? ? ? ?]; simpl in *; subst.
  unfold connection.Manager.GetConnection. mgr_unfold. reflexivity.
Qed.

Lemma go_bind_ret {S A B} (a : A) (f : A → go S B) (s : S) :
  (mret a ≫= f) s = f a s.
Proof. reflexivity. Qed.

Lemma set_registry_id r : Router.set_registry (Router.registry r) r = r.
Proof. by destruct r. Qed.
Lemma set_connManager_id r : Router.set_connManager (Router.connManager r) r = r.
Proof. by destruct r. Qed.

(** A routed request is answered with what [serve_on_connection] answers
    on its connection. *)
Lemma ServeHTTP_routed r now1 now2 events req conn c w r2 :
  routed r now1 now2 req conn c →
  (∀ r1, Router.connManager r1 = Router.connManager r →
         Router.serve_on_connection conn events ResponseWriter.empty req r1
         = Done w (r2 r1)) →
  (∀ r1, Router.limiter (r2 r1) = Router.limiter r1) →
  ∃ r', Router.ServeHTTP now1 now2 events req r = Done w r'.
Proof.
  intros (Hhost & Hreg & Hmu & Hc & tn & tunnel & Htn & Htun & Hconn & Hlim)
         Hserve Hkeep.
  unfold Router.ServeHTTP. cbv zeta.
  rewrite bool_decide_eq_false_2 by done.
  unfold mbind at 1, go_bind at 1. unfold Router.on_registry at 1, zoom at 1.
  rewrite GetTunnel_run by apply Hreg. rewrite Htn, set_registry_id.
  unfold mbind at 1, go_bind at 1. unfold Router.on_registry at 1, zoom at 1.
  rewrite (at_tunnel_gets _ _ _ _ Htun), set_registry_id.
  unfold mbind at 1, go_bind at 1. unfold Router.on_registry at 1, zoom at 1.
  rewrite (at_tunnel_gets _ _ _ _ Htun), set_registry_id.
  unfold mbind at 1, go_bind at 1. unfold gets at 1.
  destruct (Router.limiter r) as [l|] eqn:El.
  - destruct Hlim as (Hinv & Hcheck & Hacq).
    destruct (keeps_inv_CheckRequest now1 now2 (registry.Tunnel.AgentID tunnel)
                (Host req) l Hinv) as (res1 & l1 & E1 & Hinv1).
    rewrite E1 in Hcheck, Hacq. simpl in Hcheck, Hacq. injection Hcheck as ->.
    destruct (keeps_inv_AcquireStream (registry.Tunnel.AgentID tunnel)
                (Host req) l1 Hinv1) as (res2 & l2 & E2 & Hinv2).
    rewrite E2 in Hacq. simpl in Hacq. injection Hacq as ->.
    unfold mbind at 1, go_bind at 1. unfold Router.on_limiter at 1, zoom at 1.
    rewrite El, E1.
    unfold mbind at 1, go_bind at 1.
    unfold Router.on_connManager at 1, zoom at 1.
    cbn [Router.connManager Router.limiter Router.registry Router.set_limiter
         Router.set_connManager].
    rewrite (GetConnection_run (Router.connManager r)
               (registry.Tunnel.ConnectionID tunnel) Hmu). rewrite Hconn.
    unfold mbind at 1, go_bind at 1. unfold Router.on_limiter at 1, zoom at 1.
    cbn [Router.connManager Router.limiter Router.registry Router.set_limiter
         Router.set_connManager].
    rewrite E2.
    unfold mbind at 1, go_bind at 1. rewrite Hserve by (by destruct r).
    unfold mbind at 1, go_bind at 1. unfold Router.on_limiter, zoom.
    rewrite Hkeep.
    cbn [Router.connManager Router.limiter Router.registry Router.set_limiter
         Router.set_connManager].
    destruct (keeps_inv_ReleaseStream (registry.Tunnel.AgentID tunnel)
                (Host req) l2 Hinv2) as ([] & l3 & E3 & _).
    rewrite E3. eauto.
  - rewrite go_bind_ret. cbv beta iota.
    unfold mbind at 1, go_bind at 1.
    unfold Router.on_connManager at 1, zoom at 1.
    rewrite GetConnection_run by done. rewrite Hconn, set_connManager_id.
    rewrite Hserve by done. eauto.
Qed.

(** *** Claims about the router *)

(** Allocation of a stream id and the OPEN_STREAM send leave the stream
    table as it was: when the allocated id is not already in the table the
    handler cannot fetch the stream, and every response it gives is a 500. *)
Lemma serve_without_stream_is_500 r conn c events req :
  connection.Manager.mem (Router.connManager r) !! conn = Some c →
  connection.Connection.streamsMu c = RWMutex.free →
  connection.Connection.streams c !! connection.Connection.nextStreamID c = None →
  let out := Router.serve_on_connection conn events ResponseWriter.empty req r in
  (∀ w, returned out = Some w →
     ResponseWriter.status w = Some StatusInternalServerError)
  ∧ (connection.Connection.streams
       <$> connection.Manager.mem (Router.connManager (final out)) !! conn)
    = Some (connection.Connection.streams c).
Proof.
  intros Hc Hmu Hs out. unfold out.
  rewrite (serve_on_connection_run r conn c) by done. cbv zeta.
  set (c1 := connection.Connection.set_nextStreamID _ c).
  destruct (handleRequest_without_stream events
              (connection.Connection.nextStreamID c) ResponseWriter.empty req c1)
    as [Hstr Hres]; [done..|].
  destruct (Router.handleRequest _ _ _ _ c1) as [[w [e|]] c'|c'|c']; simpl in *;
    rewrite lookup_insert_eq; simpl; rewrite Hstr; (split; [|done]).
  - intros w' [= <-].
    destruct (Hres _ eq_refl) as [[= -> ->]|[e' [= -> ->]]]; done.
  - destruct (Hres _ eq_refl) as [[=]|[e' [=]]].
  - done.
  - done.
Qed.

(** C1.  A request routed to a registered connection: the handler
    allocates stream id 1 and sends the OPEN_STREAM frame, which the socket
    takes; the connection's stream table is still empty, the stream fetch
    fails, and the response is a 500 whose body is the line
    "stream not found after creation". *)
Theorem router_allocation_creates_no_stream :
  let out := Router.ServeHTTP 0 0 [] example_request example_router in
  let conn := connection.Manager.mem (Router.connManager (final out)) !! example_conn in
  returned out
  = Some {| ResponseWriter.status := Some StatusInternalServerError;
            ResponseWriter.body := "stream not found after creation" +:+ LF |}
  ∧ (connection.Connection.nextStreamID <$> conn) = Some 2
  ∧ (connection.Conn.written <$> (connection.Connection.Conn <$> conn))
    = Some [OpenStreamFrame 1 (Router.buildRequestPayload example_request)]
  ∧ (connection.Connection.streams <$> conn) = Some ∅.
Proof. vm_compute. repeat split; reflexivity. Qed.

(** Whatever the request and the scheduling, the handler never writes
    status 504. *)
Lemma ServeHTTP_never_504 now1 now2 events req :
  results_in (λ w, ResponseWriter.status w ≠ Some StatusGatewayTimeout)
    (Router.ServeHTTP now1 now2 events req).
Proof.
  intros r w r' H.
  destruct (results_in_ServeHTTP now1 now2 events req r w r' H)
    as [E|[E|[E|[E|[E|[E|E]]]]]]; rewrite E; discriminate.
Qed.

(** C4 (as amended).  A request routed to a connection that holds the
    stream under the allocated id, with a writable socket and a readable
    body, whose wait sees the deadline expire before the close signal, is
    answered by [ServeHTTP] with status 500, internal server error, the
    text of the context error and a newline as body; the status is not
    504. *)
Theorem deadline_expiry_answers_500
    (r : Router.t) (now1 now2 : Time) (conn : addr)
    (c : connection.Connection.t)
    (payloads : list bytes) (rest : list wait_event) (req : Request) :
  routed r now1 now2 req conn c →
  conn_quiescent c → connection.Connection.closed c = false →
  socket_writable c →
  is_Some (connection.Connection.streams c !! connection.Connection.nextStreamID c) →
  Body req ≠ Some ReadFailed →
  ∃ w r', Router.ServeHTTP now1 now2 (deadline_first payloads rest) req r
          = Done w r'
    ∧ ResponseWriter.status w = Some StatusInternalServerError
    ∧ ResponseWriter.status w ≠ Some StatusGatewayTimeout
    ∧ ResponseWriter.body w = error_string DeadlineExceeded +:+ LF.
Proof.
  intros Hr Hq Hcl Hw Hs Hbody.
  pose proof Hr as (_ & _ & _ & Hc & _).
  set (c1 := connection.Connection.set_nextStreamID
               (wrap_uint32 (connection.Connection.nextStreamID c + 1)) c).
  destruct (handleRequest_reaches_wait (deadline_first payloads rest)
              (connection.Connection.nextStreamID c) ResponseWriter.empty req c1)
    as [c' Hh]; [by destruct Hq|done|done|done|done|].
  destruct (ServeHTTP_routed r now1 now2 (deadline_first payloads rest) req
              conn c
              (ResponseWriter.Error (error_string DeadlineExceeded)
                 StatusInternalServerError ResponseWriter.empty)
              (λ r1, Router.set_connManager
                       (connection.Manager.set_mem
                          (<[conn := c']>
                             (connection.Manager.mem (Router.connManager r)))
                          (Router.connManager r)) r1) Hr)
    as [r' Hr'].
  - intros r1 E.
    rewrite (serve_on_connection_run r1 conn c)
      by (rewrite ?E; done || apply Hq).
    cbv zeta. fold c1. rewrite Hh, waitForResponse_deadline_first, E.
    reflexivity.
  - intros r1. by destruct r1.
  - do 2 eexists. split; [exact Hr'|]. by repeat split.
Qed.

Example example_router_stream_1_conn :
  connection.Manager.mem (Router.connManager example_router_stream_1) !! example_conn
  = Some (final (connection.Connection.createStream 1 1
                   (fresh_connection 0 "conn-1" "agent-1" open_socket))).
Proof. vm_compute. reflexivity. Qed.

Lemma example_registry_inv : registry_inv example_registry.
Proof.
  unfold example_registry.
  destruct (keeps_registry_RegisterTunnel 0 EmptyString "example" "conn-1"
              "agent-1" ∅ (registry.NewRegistry "localhost")
              (registry_inv_new "localhost")) as (x & r' & E & Hinv).
  by rewrite E.
Qed.

Example example_tunnel :
  ∃ tn tunnel,
    registry.Registry.tunnels example_registry !! "example.localhost" = Some tn
    ∧ registry.Registry.mem example_registry !! tn = Some tunnel
    ∧ connection.Manager.connections (Router.connManager example_router_stream_1)
        !! registry.Tunnel.ConnectionID tunnel = Some example_conn
    ∧ registry.Tunnel.AgentID tunnel = "agent-1".
Proof. vm_compute. do 2 eexists. repeat split; reflexivity. Qed.

Example example_admitted :
  let checked := quota.Limiter.CheckRequest 0 0 "agent-1" "example.localhost"
                   example_limiter in
  returned checked = Some None
  ∧ returned (quota.Limiter.AcquireStream "agent-1" "example.localhost"
                (final checked)) = Some None.
Proof. vm_compute. split; reflexivity. Qed.

Lemma example_routed :
  routed example_router_stream_1 0 0 example_request example_conn
    (final (connection.Connection.createStream 1 1
              (fresh_connection 0 "conn-1" "agent-1" open_socket))).
Proof.
  destruct example_tunnel as (tn & tunnel & Htn & Htun & Hconn & Hagent).
  split; [discriminate|].
  split; [exact example_registry_inv|].
  split; [reflexivity|].
  split; [exact example_router_stream_1_conn|].
  exists tn, tunnel.
  split; [exact Htn|]. split; [exact Htun|]. split; [exact Hconn|].
  change (Router.limiter example_router_stream_1) with (Some example_limiter).
  rewrite Hagent.
  split; [exact example_limiter_inv|exact example_admitted].
Qed.

Lemma deadline_expiry_answers_500_witness :
  routed example_router_stream_1 0 0 example_request example_conn
    (final (connection.Connection.createStream 1 1
              (fresh_connection 0 "conn-1" "agent-1" open_socket)))
  ∧ ∃ w r', Router.ServeHTTP 0 0 (deadline_first ["par"] [WaitClose])
              example_request example_router_stream_1 = Done w r'
      ∧ ResponseWriter.status w = Some StatusInternalServerError.
Proof.
  split; [exact example_routed|].
  destruct (deadline_expiry_answers_500 example_router_stream_1 0 0
              example_conn _ ["par"] [WaitClose] example_request example_routed)
    as (w & r' & H1 & H2 & _).
  - split; reflexivity.
  - reflexivity.
  - split; reflexivity.
  - vm_compute. eauto.
  - discriminate.
  - eauto.
Defined.

(** C4, the claim as stated, fails on the code: the agent has opened
    stream 1, the routed request allocates that id and waits, one payload
    arrives and then the deadline expires before any close signal; the
    handler answers 500, not 504. *)
Lemma deadline_expiry_is_not_504 :
  let out := Router.ServeHTTP 0 0 [WaitData "par"; WaitDeadline]
               example_request example_router_stream_1 in
  (ResponseWriter.status <$> returned out) = Some (Some StatusInternalServerError)
  ∧ (ResponseWriter.status <$> returned out) ≠ Some (Some StatusGatewayTimeout).
Proof. vm_compute. split; [reflexivity|discriminate]. Qed.

(** *** Further properties of the router *)

Lemma bind_Done_inv {S A B} (k : go S A) (f : A → go S B) s b s' :
  (k ≫= f) s = Done b s' → ∃ a s1, k s = Done a s1 ∧ f a s1 = Done b s'.
Proof. unfold mbind, go_bind. destruct (k s); [eauto|done..]. Qed.

Lemma string_app_nil_r (s : string) : s +:+ EmptyString = s.
Proof.
  induction s as [|a s IH]; [reflexivity|].
  change (String a (s +:+ EmptyString) = String a s). by f_equal.
Qed.

Lemma string_app_assoc (s1 s2 s3 : string) :
  (s1 +:+ s2) +:+ s3 = s1 +:+ s2 +:+ s3.
Proof.
  induction s1 as [|a s1 IH]; [reflexivity|].
  change (String a ((s1 +:+ s2) +:+ s3) = String a (s1 +:+ s2 +:+ s3)).
  by f_equal.
Qed.

(** X22.  Requests that name no tunnel are answered at once: without a
    Host the response is 400 "Missing Host header"; with a Host for which
    the registry has no tunnel (its table lock free) it is 404, naming the
    host.  In both cases the registry, the connections and the limiter are
    untouched: no rate token is spent and no stream id is allocated. *)
Theorem ServeHTTP_refuses_unroutable_requests
    (now1 now2 : Time) (events : list wait_event) (req : Request) (r : Router.t) :
  (Host req = EmptyString →
   Router.ServeHTTP now1 now2 events req r
   = Done {| ResponseWriter.status := Some StatusBadRequest;
             ResponseWriter.body := "Missing Host header" +:+ LF |} r)
  ∧ (Host req ≠ EmptyString →
     registry.Registry.tunnelsMu (Router.registry r) = RWMutex.free →
     registry.Registry.tunnels (Router.registry r) !! Host req = None →
     Router.ServeHTTP now1 now2 events req r
     = Done {| ResponseWriter.status := Some StatusNotFound;
               ResponseWriter.body :=
                 ("Tunnel not found for domain: " +:+ Host req) +:+ LF |} r).
Proof.
  split.
  - intros Hhost. unfold Router.ServeHTTP. cbv zeta.
    rewrite bool_decide_eq_true_2 by done. reflexivity.
  - intros Hhost Hmu Hnone. unfold Router.ServeHTTP. cbv zeta.
    rewrite bool_decide_eq_false_2 by done.
    unfold mbind at 1, go_bind at 1. unfold Router.on_registry at 1, zoom at 1.
    rewrite GetTunnel_run by done. rewrite Hnone, set_registry_id.
    reflexivity.
Qed.

Lemma ServeHTTP_refuses_unroutable_requests_witness :
  Router.ServeHTTP 0 0 []
    {| Host := "other.localhost"; Method := "GET"; Path := "/";
       Proto := "HTTP/1.1"; Header := []; Body := None |} example_router
  = Done {| ResponseWriter.status := Some StatusNotFound;
            ResponseWriter.body :=
              ("Tunnel not found for domain: " +:+ "other.localhost") +:+ LF |}
      example_router.
Proof.
  apply (ServeHTTP_refuses_unroutable_requests 0 0 []
           {| Host := "other.localhost"; Method := "GET"; Path := "/";
              Proto := "HTTP/1.1"; Header := []; Body := None |} example_router).
  - discriminate.
  - apply example_registry_inv.
  - vm_compute. reflexivity.
Defined.

(** X23.  The status codes of the handler: whenever [ServeHTTP] returns,
    a status has been written and it is one of 200, 204, 400, 404, 429,
    500 and 503, whatever the request, the state of the three components
    and the scheduling. *)
Theorem ServeHTTP_answers_with_a_known_status
    (now1 now2 : Time) (events : list wait_event) (req : Request)
    (r r' : Router.t) (w : ResponseWriter.t) :
  Router.ServeHTTP now1 now2 events req r = Done w r' →
  ∃ code, ResponseWriter.status w = Some code
          ∧ code ∈ [200; 204; 400; 404; 429; 500; 503].
Proof.
  intros H. apply results_in_ServeHTTP in H.
  destruct H as [E|[E|[E|[E|[E|[E|E]]]]]]; rewrite E; eexists;
    (split; [reflexivity|]); set_solver.
Qed.

Lemma ServeHTTP_answers_with_a_known_status_witness :
  ∃ w r', Router.ServeHTTP 0 0 [WaitData "par"; WaitClose] example_request
            example_router_stream_1 = Done w r'
    ∧ ∃ code, ResponseWriter.status w = Some code
              ∧ code ∈ [200; 204; 400; 404; 429; 500; 503].
Proof.
  assert (∃ w r', Router.ServeHTTP 0 0 [WaitData "par"; WaitClose]
                    example_request example_router_stream_1 = Done w r')
    as (w & r' & E).
  { vm_compute. eauto. }
  exists w, r'. split; [exact E|].
  exact (ServeHTTP_answers_with_a_known_status _ _ _ _ _ _ _ E).
Defined.

(** *** The stream quota around a request *)

Lemma same_streams_refl l : same_streams l l.
Proof. by split. Qed.

Lemma same_streams_trans l1 l2 l3 :
  same_streams l1 l2 → same_streams l2 l3 → same_streams l1 l3.
Proof.
  intros [Ha Hd] [Ha' Hd']. split; intros k; [by rewrite Ha', Ha|by rewrite Hd', Hd].
Qed.

Lemma keeps_streams_ret {A} (x : A) : keeps_streams (mret x).
Proof. intros l Hl. exists x, l. split; [done|]. split; [done|apply same_streams_refl]. Qed.

Lemma keeps_streams_bind {A B} (c : go quota.Limiter.t A)
    (f : A → go quota.Limiter.t B) :
  keeps_streams c → (∀ x, keeps_streams (f x)) → keeps_streams (c ≫= f).
Proof.
  intros Hc Hf l Hl. destruct (Hc l Hl) as (x & l1 & E & Hl1 & Hs1).
  destruct (Hf x l1 Hl1) as (y & l2 & E' & Hl2 & Hs2).
  exists y, l2. split; [unfold mbind, go_bind; by rewrite E|].
  split; [done|by eapply same_streams_trans].
Qed.

Lemma keeps_streams_from_run {A} (c : go quota.Limiter.t A) :
  keeps_inv c →
  (∀ l x l', limiter_inv l → c l = Done x l' → same_streams l l') →
  keeps_streams c.
Proof.
  intros Hk Hpost l Hl. destruct (Hk l Hl) as (x & l' & E & Hl').
  exists x, l'. eauto.
Qed.

Lemma keeps_streams_CheckAgentRateLimit now a :
  keeps_streams (quota.Limiter.CheckAgentRateLimit now a).
Proof.
  apply keeps_streams_from_run; [apply keeps_inv_CheckAgentRateLimit|].
  intros l x l' Hl. rewrite CheckAgentRateLimit_run by apply Hl.
  destruct (quota.Limiter.agentLimits l !! a) as [lim|] eqn:E;
    [|intros [= _ <-]; apply same_streams_refl].
  cbv zeta.
  destruct (f64.leb _ _); intros [= _ <-]; (split; simpl; [|done]);
    intros b; rewrite lookup_insert; case_decide; subst; by rewrite ?E.
Qed.

Lemma keeps_streams_CheckDomainRateLimit now d :
  keeps_streams (quota.Limiter.CheckDomainRateLimit now d).
Proof.
  apply keeps_streams_from_run; [apply keeps_inv_CheckDomainRateLimit|].
  intros l x l' Hl. rewrite CheckDomainRateLimit_run by apply Hl.
  destruct (quota.Limiter.domainLimits l !! d) as [lim|] eqn:E;
    [|intros [= _ <-]; apply same_streams_refl].
  cbv zeta.
  destruct (f64.leb _ _); intros [= _ <-]; (split; simpl; [done|]);
    intros b; rewrite lookup_insert; case_decide; subst; by rewrite ?E.
Qed.

Lemma keeps_streams_CheckAgentStreamLimit a :
  keeps_streams (quota.Limiter.CheckAgentStreamLimit a).
Proof.
  apply keeps_streams_from_run; [apply keeps_inv_CheckAgentStreamLimit|].
  intros l x l' Hl. rewrite CheckAgentStreamLimit_run by apply Hl.
  intros [= _ <-]. apply same_streams_refl.
Qed.

Lemma keeps_streams_CheckDomainStreamLimit d :
  keeps_streams (quota.Limiter.CheckDomainStreamLimit d).
Proof.
  apply keeps_streams_from_run; [apply keeps_inv_CheckDomainStreamLimit|].
  intros l x l' Hl. rewrite CheckDomainStreamLimit_run by apply Hl.
  intros [= _ <-]. apply same_streams_refl.
Qed.

Lemma keeps_streams_CheckRequest now1 now2 a d :
  keeps_streams (quota.Limiter.CheckRequest now1 now2 a d).
Proof.
  unfold quota.Limiter.CheckRequest.
  apply keeps_streams_bind; [apply keeps_streams_CheckAgentRateLimit|].
  intros [e|]; [apply keeps_streams_ret|].
  apply keeps_streams_bind; [apply keeps_streams_CheckDomainRateLimit|].
  intros [e|]; [apply keeps_streams_ret|].
  apply keeps_streams_bind; [apply keeps_streams_CheckAgentStreamLimit|].
  intros [e|]; [apply keeps_streams_ret|].
  apply keeps_streams_bind; [apply keeps_streams_CheckDomainStreamLimit|].
  intros [e|]; apply keeps_streams_ret.
Qed.

Lemma on_registry_limiter {A} (k : go registry.Registry.t A) r a r1 :
  Router.on_registry k r = Done a r1 → Router.limiter r1 = Router.limiter r.
Proof.
  unfold Router.on_registry, zoom. destruct (k _); [|done..]. by intros [= _ <-].
Qed.

Lemma on_connManager_limiter {A} (k : go connection.Manager.t A) r a r1 :
  Router.on_connManager k r = Done a r1 → Router.limiter r1 = Router.limiter r.
Proof.
  unfold Router.on_connManager, zoom. destruct (k _); [|done..]. by intros [= _ <-].
Qed.

Lemma serve_on_connection_limiter conn events w req r w1 r1 :
  Router.serve_on_connection conn events w req r = Done w1 r1 →
  Router.limiter r1 = Router.limiter r.
Proof.
  unfold Router.serve_on_connection. intros H.
  apply bind_Done_inv in H as (id & r2 & E1 & H).
  apply bind_Done_inv in H as ([w2 oe] & r3 & E2 & H).
  apply on_connManager_limiter in E1, E2.
  destruct oe; injection H as _ <-; congruence.
Qed.

Lemma on_limiter_run {A} (k : go quota.Limiter.t A) r l x l' :
  Router.limiter r = Some l → k l = Done x l' →
  Router.on_limiter k r = Done x (Router.set_limiter (Some l') r).
Proof.
  intros Hl E. unfold Router.on_limiter, zoom. by rewrite Hl, E.
Qed.

(** X24.  The stream quota is returned: on a router with a limiter whose
    invariant holds, whenever [ServeHTTP] returns, with whatever status,
    the limiter again satisfies its invariant and counts for every agent
    and every domain exactly the streams it counted before the request.
    The stream acquired for the request has been released. *)
Theorem ServeHTTP_returns_the_stream_quota
    (now1 now2 : Time) (events : list wait_event) (req : Request)
    (r r' : Router.t) (l : quota.Limiter.t) (w : ResponseWriter.t) :
  Router.limiter r = Some l → limiter_inv l →
  Router.ServeHTTP now1 now2 events req r = Done w r' →
  ∃ l', Router.limiter r' = Some l' ∧ limiter_inv l' ∧ same_streams l l'.
Proof.
  intros Hl Hinv. unfold Router.ServeHTTP. cbv zeta.
  case_bool_decide as Hhost.
  { intros [= _ <-]. exists l. eauto using same_streams_refl. }
  intros H. apply bind_Done_inv in H as ([tn|] & r1 & E1 & H).
  2: { injection H as _ <-. apply on_registry_limiter in E1.
       exists l. rewrite E1. eauto using same_streams_refl. }
  apply bind_Done_inv in H as (agentID & r2 & E2 & H).
  apply bind_Done_inv in H as (connectionID & r3 & E3 & H).
  apply on_registry_limiter in E1, E2, E3.
  assert (Router.limiter r3 = Some l) as Hl3 by congruence.
  apply bind_Done_inv in H as (lim & r4 & E4 & H).
  injection E4 as <- <-. rewrite Hl3 in H.
  destruct (keeps_streams_CheckRequest now1 now2 agentID (Host req) l Hinv)
    as (res & l1 & Ec & Hinv1 & Hs1).
  apply bind_Done_inv in H as (err & r5 & E5 & H).
  rewrite (on_limiter_run _ r3 l res l1 Hl3 Ec) in E5. injection E5 as <- <-.
  destruct res as [e|].
  { injection H as _ <-. exists l1. eauto. }
  apply bind_Done_inv in H as (conn & r6 & E6 & H).
  apply on_connManager_limiter in E6. simpl in E6.
  destruct conn as [conn|].
  2: { injection H as _ <-. exists l1. rewrite E6. eauto. }
  apply bind_Done_inv in H as (err & r7 & E7 & H).
  pose proof Hinv1 as (Hq1 & Hi1 & Hn1).
  destruct (quota.Limiter.AcquireStream agentID (Host req) l1)
    as [res2 l2|l2|l2] eqn:Ea.
  2,3: unfold Router.on_limiter, zoom in E7; by rewrite E6, Ea in E7.
  rewrite (on_limiter_run _ r6 l1 res2 l2 E6 Ea) in E7. injection E7 as <- <-.
  destruct res2 as [e|].
  { injection H as _ <-. simpl.
    rewrite AcquireStream_run in Ea by done.
    destruct (agent_full l1 agentID); [|destruct (domain_full l1 (Host req))];
      try discriminate; injection Ea as _ <-; exists l1; eauto. }
  apply bind_Done_inv in H as (w1 & r8 & E8 & H).
  apply serve_on_connection_limiter in E8. simpl in E8.
  apply bind_Done_inv in H as ([] & r9 & E9 & H). injection H as _ <-.
  rewrite (on_limiter_run _ r8 l2 tt l1 E8
             (acquire_release_identity l1 agentID (Host req) l2 Hq1 Hi1 Hn1 Ea))
    in E9.
  injection E9 as <-. exists l1. eauto.
Qed.

Lemma ServeHTTP_returns_the_stream_quota_witness :
  ∃ w r' l', Router.ServeHTTP 0 0 [WaitData "par"; WaitClose] example_request
               example_router_stream_1 = Done w r'
    ∧ Router.limiter r' = Some l' ∧ same_streams example_limiter l'.
Proof.
  assert (∃ w r', Router.ServeHTTP 0 0 [WaitData "par"; WaitClose]
                    example_request example_router_stream_1 = Done w r')
    as (w & r' & E).
  { vm_compute. eauto. }
  assert (Router.limiter example_router_stream_1 = Some example_limiter) as Hl
    by reflexivity.
  destruct (ServeHTTP_returns_the_stream_quota 0 0 [WaitData "par"; WaitClose]
              example_request example_router_stream_1 r' example_limiter w
              Hl example_limiter_inv E) as (l' & Hl' & _ & Hs).
  exists w, r', l'. split; [exact E|]. split; [exact Hl'|exact Hs].
Defined.

(** *** The request on the connection *)

Lemma wait_loop_closed payloads closer rest acc :
  closer = WaitClose ∨ closer = WaitDataClosed →
  Router.wait_loop ((WaitData <$> payloads) ++ closer :: rest) acc
  = Some (inr (acc +:+ joined payloads)).
Proof.
  intros Hc. revert acc.
  induction payloads as [|d ds IH]; intros acc.
  - cbn [fmap list_fmap app joined foldr]. rewrite string_app_nil_r.
    by destruct Hc as [-> | ->].
  - cbn [fmap list_fmap app joined foldr Router.wait_loop].
    fold (fmap (M := list) WaitData ds). rewrite IH.
    fold (joined ds). by rewrite string_app_assoc.
Qed.

Lemma handleRequest_served
    (payloads : list bytes) (closer : wait_event) (rest : list wait_event)
    (streamID : Z) (req : Request) (c : connection.Connection.t) :
  conn_quiescent c → connection.Connection.closed c = false →
  socket_writable c →
  is_Some (connection.Connection.streams c !! streamID) →
  Body req ≠ Some ReadFailed →
  closer = WaitClose ∨ closer = WaitDataClosed →
  ∃ c',
    Router.handleRequest ((WaitData <$> payloads) ++ closer :: rest) streamID
      ResponseWriter.empty req c
    = Done (if bool_decide (joined payloads ≠ EmptyString)
            then {| ResponseWriter.status := Some StatusOK;
                    ResponseWriter.body := joined payloads |}
            else {| ResponseWriter.status := Some StatusNoContent;
                    ResponseWriter.body := EmptyString |}, None) c'
    ∧ connection.Conn.written (connection.Connection.Conn c')
      = connection.Conn.written (connection.Connection.Conn c)
        ++ request_frames streamID req
    ∧ connection.Connection.streams c' = connection.Connection.streams c
    ∧ connection.Connection.nextStreamID c'
      = connection.Connection.nextStreamID c.
Proof.
  intros Hq Hcl Hw [p Hp] Hbody Hc.
  set (answer := (if bool_decide (joined payloads ≠ EmptyString)
                  then {| ResponseWriter.status := Some StatusOK;
                          ResponseWriter.body := joined payloads |}
                  else {| ResponseWriter.status := Some StatusNoContent;
                          ResponseWriter.body := EmptyString |})).
  assert (∀ c' : connection.Connection.t,
            Router.waitForResponse ((WaitData <$> payloads) ++ closer :: rest)
              ResponseWriter.empty c'
            = Done (answer, None) c')
    as Hwait.
  { intros c'. unfold Router.waitForResponse, answer.
    rewrite wait_loop_closed by done.
    change (EmptyString +:+ joined payloads) with (joined payloads).
    by case_bool_decide. }
  clearbody answer.
  unfold Router.handleRequest. cbv zeta.
  fold (OpenStreamFrame streamID (Router.buildRequestPayload req)).
  fold (EndStreamFrame streamID).
  set (openFrame := OpenStreamFrame streamID _).
  destruct (sent_facts openFrame c Hq Hcl) as (Hq1 & Hcl1 & Hw1 & Hs1).
  unfold mbind at 1, go_bind at 1. rewrite SendFrame_run by (done || apply Hq).
  unfold mbind at 1, go_bind at 1. rewrite GetStream_run by apply Hq1.
  rewrite Hs1, Hp. unfold request_frames. fold openFrame.
  destruct (Body req) as [[body|]|] eqn:Hb; [|done|].
  - case_bool_decide.
    + fold (DataFrame streamID body). set (dataFrame := DataFrame streamID body).
      destruct (sent_facts dataFrame _ Hq1 Hcl1) as (Hq2 & Hcl2 & Hw2 & Hs2).
      unfold mbind, go_bind. rewrite SendFrame_run by (done || apply Hq1).
      cbv beta iota. unfold mret, go_ret. cbv beta iota.
      rewrite SendFrame_run by (done || apply Hq2).
      eexists. split; [apply Hwait|]. simpl.
      rewrite <- !app_assoc. done.
    + unfold mbind, go_bind. simpl.
      rewrite SendFrame_run by (done || apply Hq1).
      eexists. split; [apply Hwait|]. simpl.
      rewrite <- !app_assoc. done.
  - unfold mbind, go_bind. simpl.
    rewrite SendFrame_run by (done || apply Hq1).
    eexists. split; [apply Hwait|]. simpl.
    rewrite <- !app_assoc. done.
Qed.

(** X25.  The request is forwarded and the agent's payloads answer it:
    with the locks of the connection free, the connection open, its socket
    writable, the stream present under the id and the body readable,
    [handleRequest] writes to the socket, in this order and behind what
    was written before, the OPEN_STREAM frame with
    the request line and headers, a DATA frame with the body when the body
    is present and not empty, and an empty DATA frame with END_STREAM; the
    stream table and the next stream id are untouched.  When the payloads
    received are followed by the close signal (or by the closing of the
    inbound channel) before the deadline, the response is 200 with the
    payloads in the order received as body, and 204 with nothing written
    when they are empty. *)
Theorem handleRequest_forwards_and_answers
    (payloads : list bytes) (closer : wait_event) (rest : list wait_event)
    (streamID : Z) (req : Request) (c : connection.Connection.t) :
  conn_quiescent c → connection.Connection.closed c = false →
  socket_writable c →
  is_Some (connection.Connection.streams c !! streamID) →
  Body req ≠ Some ReadFailed →
  closer = WaitClose ∨ closer = WaitDataClosed →
  ∃ c',
    Router.handleRequest ((WaitData <$> payloads) ++ closer :: rest) streamID
      ResponseWriter.empty req c
    = Done (if bool_decide (joined payloads ≠ EmptyString)
            then {| ResponseWriter.status := Some StatusOK;
                    ResponseWriter.body := joined payloads |}
            else {| ResponseWriter.status := Some StatusNoContent;
                    ResponseWriter.body := EmptyString |}, None) c'
    ∧ connection.Conn.written (connection.Connection.Conn c')
      = connection.Conn.written (connection.Connection.Conn c)
        ++ request_frames streamID req
    ∧ connection.Connection.streams c' = connection.Connection.streams c
    ∧ connection.Connection.nextStreamID c'
      = connection.Connection.nextStreamID c.
Proof. apply handleRequest_served. Qed.

Lemma handleRequest_forwards_and_answers_witness :
  ∃ c', Router.handleRequest [WaitData "HTTP/1.1 200 OK"; WaitData CRLF; WaitClose] 1
          ResponseWriter.empty
          {| Host := "example.localhost"; Method := "POST"; Path := "/upload";
             Proto := "HTTP/1.1"; Header := []; Body := Some (ReadAll "abc") |}
          conn_with_stream
        = Done ({| ResponseWriter.status := Some StatusOK;
                   ResponseWriter.body := "HTTP/1.1 200 OK" +:+ CRLF |}, None) c'
    ∧ connection.Conn.written (connection.Connection.Conn c')
      = [OpenStreamFrame 1 ("POST /upload HTTP/1.1" +:+ CRLF +:+ CRLF);
         DataFrame 1 "abc"; EndStreamFrame 1].
Proof.
  destruct (handleRequest_forwards_and_answers
              ["HTTP/1.1 200 OK"; CRLF] WaitClose [] 1
              {| Host := "example.localhost"; Method := "POST"; Path := "/upload";
                 Proto := "HTTP/1.1"; Header := []; Body := Some (ReadAll "abc") |}
              conn_with_stream)
    as (c' & E & Hwr & _).
  - split; reflexivity.
  - reflexivity.
  - split; reflexivity.
  - vm_compute. eauto.
  - discriminate.
  - by left.
  - exists c'. split; [exact E|exact Hwr].
Defined.

(** X26.  A request whose body cannot be read has already opened a
    stream at the agent: with the socket writable and the stream present,
    [handleRequest] sends the OPEN_STREAM frame, fails on the read with
    "failed to read request body", and sends neither the END_STREAM frame
    nor a CLOSE frame; the response writer is untouched, so [ServeHTTP]
    answers 500. *)
Theorem unreadable_body_leaves_the_stream_open
    (events : list wait_event) (streamID : Z) (w : ResponseWriter.t)
    (req : Request) (c : connection.Connection.t) :
  conn_quiescent c → connection.Connection.closed c = false →
  socket_writable c →
  is_Some (connection.Connection.streams c !! streamID) →
  Body req = Some ReadFailed →
  Router.handleRequest events streamID w req c
  = Done (w, Some ErrReadBody)
      (sent (OpenStreamFrame streamID (Router.buildRequestPayload req)) c).
Proof.
  intros Hq Hcl Hw [p Hp] Hbody.
  unfold Router.handleRequest. cbv zeta.
  fold (OpenStreamFrame streamID (Router.buildRequestPayload req)).
  set (openFrame := OpenStreamFrame streamID _).
  destruct (sent_facts openFrame c Hq Hcl) as (Hq1 & Hcl1 & Hw1 & Hs1).
  unfold mbind at 1, go_bind at 1. rewrite SendFrame_run by (done || apply Hq).
  unfold mbind at 1, go_bind at 1. rewrite GetStream_run by apply Hq1.
  rewrite Hs1, Hp, Hbody. reflexivity.
Qed.

Lemma unreadable_body_leaves_the_stream_open_witness :
  connection.Conn.written
    (connection.Connection.Conn
       (final (Router.handleRequest [WaitClose] 1 ResponseWriter.empty
                 {| Host := "example.localhost"; Method := "POST";
                    Path := "/upload"; Proto := "HTTP/1.1"; Header := [];
                    Body := Some ReadFailed |} conn_with_stream)))
  = [OpenStreamFrame 1 ("POST /upload HTTP/1.1" +:+ CRLF +:+ CRLF)].
Proof.
  rewrite (unreadable_body_leaves_the_stream_open [WaitClose] 1
             ResponseWriter.empty
             {| Host := "example.localhost"; Method := "POST";
                Path := "/upload"; Proto := "HTTP/1.1"; Header := [];
                Body := Some ReadFailed |} conn_with_stream).
  - reflexivity.
  - split; reflexivity.
  - reflexivity.
  - split; reflexivity.
  - vm_compute. eauto.
  - reflexivity.
Defined.

(** X27.  A request served: for a request routed to a connection that
    holds the stream under the allocated id, with a writable socket and a
    readable body, whose wait receives the payloads and then the close
    signal (or finds the inbound channel closed) before the deadline,
    [ServeHTTP] returns status 200 with the payloads, in the order
    received, as body, and status 204 with an empty body when no payload
    byte arrived. *)
Theorem close_signal_answers_200_or_204
    (r : Router.t) (now1 now2 : Time) (conn : addr)
    (c : connection.Connection.t)
    (payloads : list bytes) (closer : wait_event) (rest : list wait_event)
    (req : Request) :
  routed r now1 now2 req conn c →
  conn_quiescent c → connection.Connection.closed c = false →
  socket_writable c →
  is_Some (connection.Connection.streams c !! connection.Connection.nextStreamID c) →
  Body req ≠ Some ReadFailed →
  closer = WaitClose ∨ closer = WaitDataClosed →
  ∃ r', Router.ServeHTTP now1 now2 ((WaitData <$> payloads) ++ closer :: rest)
          req r
        = Done (if bool_decide (joined payloads ≠ EmptyString)
                then {| ResponseWriter.status := Some StatusOK;
                        ResponseWriter.body := joined payloads |}
                else {| ResponseWriter.status := Some StatusNoContent;
                        ResponseWriter.body := EmptyString |}) r'.
Proof.
  intros Hr Hq Hcl Hw Hs Hbody Hc.
  pose proof Hr as (_ & _ & _ & Hconn & _).
  set (c1 := connection.Connection.set_nextStreamID
               (wrap_uint32 (connection.Connection.nextStreamID c + 1)) c).
  destruct (handleRequest_served payloads closer rest
              (connection.Connection.nextStreamID c) req c1)
    as (c' & Hh & _); [by destruct Hq|done|done|done|done|done|].
  apply (ServeHTTP_routed r now1 now2 _ req conn c _
           (λ r1, Router.set_connManager
                    (connection.Manager.set_mem
                       (<[conn := c']>
                          (connection.Manager.mem (Router.connManager r)))
                       (Router.connManager r)) r1) Hr).
  - intros r1 E.
    rewrite (serve_on_connection_run r1 conn c)
      by (rewrite ?E; done || apply Hq).
    cbv zeta. fold c1. rewrite Hh, E. reflexivity.
  - intros r1. by destruct r1.
Qed.

Lemma close_signal_answers_200_or_204_witness :
  ∃ r', Router.ServeHTTP 0 0 [WaitData "par"; WaitData "t"; WaitClose]
          example_request example_router_stream_1
        = Done {| ResponseWriter.status := Some StatusOK;
                  ResponseWriter.body := "part" |} r'.
Proof.
  apply (close_signal_answers_200_or_204 example_router_stream_1 0 0
           example_conn _ ["par"; "t"] WaitClose [] example_request
           example_routed).
  - split; reflexivity.
  - reflexivity.
  - split; reflexivity.
  - vm_compute. eauto.
  - discriminate.
  - by left.
Defined.

(** ** Handshake *)

Import handshake.

(** The merge loop [for k, v := range req.Metadata { metadata[k] = v }]:
    whatever the iteration order, the entries of the request override
    those collected before. *)
Lemma merge_lookup (base m : gmap string string) (k : string) :
  map_fold (λ k v acc, <[k := v]> acc) base m !! k
  = match m !! k with Some v => Some v | None => base !! k end.
Proof.
  revert m.
  apply (map_fold_weak_ind
           (λ r m, r !! k = match m !! k with Some v => Some v | None => base !! k end)).
  - by rewrite lookup_empty.
  - intros i x m r Hi IH. destruct (decide (i = k)) as [->|Hne].
    + by rewrite !lookup_insert_eq.
    + by rewrite !lookup_insert_ne.
Qed.

(** X28.  What a successful handshake establishes: when [HandleAuth]
    returns no error, the frame is an AUTH frame on the control stream,
    its payload parsed as a request, a validator is configured and accepted
    the token, and the agent id returned is the validator's, not the
    [agent_id] the client sent.  In the metadata an entry of the client's
    own [metadata] map wins over the keys the server derives
    ([client_agent_id], [client_version], [capabilities]); every other key
    is absent. *)
Theorem HandleAuth_success {value : Type} `{!JSON value}
    (a : Authenticator.t) (frame : v1.Frame)
    (agentID : string) (metadata : gmap string string) :
  HandleAuth a frame = inr (agentID, metadata) →
  v1.Type_ frame = v1.FrameAuth
  ∧ v1.StreamID frame = v1.StreamIDControl
  ∧ ∃ req validate,
      Unmarshal (v1.Payload frame) = Some req
      ∧ Authenticator.validateToken a = Some validate
      ∧ validate (AuthRequest.Token req) = (agentID, None)
      ∧ ∀ k, metadata !! k
             = match AuthRequest.Metadata req !! k with
               | Some v => Some v
               | None => derived_metadata req k
               end.
Proof.
  unfold HandleAuth.
  destruct (v1.Type_ frame) eqn:Hty; simpl; try done.
  unfold v1.IsControlFrame.
  destruct (v1.StreamID frame =? v1.StreamIDControl) eqn:Hid; simpl; [|done].
  apply Z.eqb_eq in Hid.
  destruct (Unmarshal (v1.Payload frame)) as [req|] eqn:Hreq; [|done].
  destruct (Authenticator.validateToken a) as [validate|] eqn:Hv; [|done].
  destruct (validate (AuthRequest.Token req)) as [id [err|]] eqn:Hval; [done|].
  intros [= <- <-]. split; [done|]. split; [done|].
  exists req, validate. split; [done|]. split; [done|]. split; [done|].
  intros k. rewrite merge_lookup.
  destruct (AuthRequest.Metadata req !! k) as [v|]; [done|].
  unfold derived_metadata.
  repeat case_bool_decide; subst;
    rewrite ?lookup_insert_eq, ?lookup_insert_ne, ?lookup_empty by done; done.
Qed.

Lemma HandleAuth_success_witness :
  ∃ metadata,
    HandleAuth (value := unit) example_authenticator (AuthFrame 0 "request")
    = inr ("agent-1", metadata)
    ∧ metadata !! "client_agent_id" = Some "spoofed"
    ∧ metadata !! "client_version" = Some "1.0"
    ∧ metadata !! "capabilities" = None.
Proof.
  destruct (HandleAuth (value := unit) example_authenticator
              (AuthFrame 0 "request")) as [e|[agentID metadata]] eqn:E;
    [by vm_compute in E|].
  destruct (HandleAuth_success _ _ _ _ E)
    as (_ & _ & req & validate & Hreq & Hv & Hval & Hmeta).
  change (Unmarshal (v1.Payload (AuthFrame 0 "request")))
    with (Some example_auth_request) in Hreq.
  injection Hreq as <-.
  injection Hv as <-. injection Hval as <-.
  exists metadata. split; [reflexivity|].
  rewrite !Hmeta. repeat split; reflexivity.
Defined.

(** X29.  Every frame [HandleAuth] does not accept is refused with the
    error of the first check it fails, in this order: the frame type, the
    control stream, the payload, the presence of a validator, the
    validator's verdict; the validator is not consulted for a frame that
    fails an earlier check. *)
Theorem HandleAuth_refusals {value : Type} `{!JSON value}
    (a : Authenticator.t) (frame : v1.Frame) (e : error) :
  HandleAuth a frame = inl e →
  (v1.Type_ frame ≠ v1.FrameAuth ∧ e = ErrInvalidFrameType)
  ∨ (v1.Type_ frame = v1.FrameAuth ∧ v1.StreamID frame ≠ v1.StreamIDControl
     ∧ e = ErrAuthMustBeControlFrame)
  ∨ (v1.Type_ frame = v1.FrameAuth ∧ v1.StreamID frame = v1.StreamIDControl
     ∧ ((Unmarshal (v1.Payload frame) = None ∧ e = ErrInvalidAuthPayload)
        ∨ ∃ req, Unmarshal (v1.Payload frame) = Some req
            ∧ ((Authenticator.validateToken a = None ∧ e = ErrNoTokenValidator)
               ∨ ∃ validate, Authenticator.validateToken a = Some validate
                   ∧ (validate (AuthRequest.Token req)).2 = Some e))).
Proof.
  unfold HandleAuth.
  destruct (v1.Type_ frame) eqn:Hty; simpl;
    try (intros [= <-]; left; split; [discriminate|reflexivity]).
  intros H. right. unfold v1.IsControlFrame in H.
  destruct (v1.StreamID frame =? v1.StreamIDControl) eqn:Hid; simpl in H.
  2: { apply Z.eqb_neq in Hid. injection H as <-. by left. }
  apply Z.eqb_eq in Hid. right. split; [done|]. split; [done|].
  destruct (Unmarshal (v1.Payload frame)) as [req|] eqn:Hreq.
  2: { injection H as <-. by left. }
  right. exists req. split; [done|].
  destruct (Authenticator.validateToken a) as [validate|] eqn:Hv.
  2: { injection H as <-. by left. }
  right. exists validate. split; [done|].
  destruct (validate (AuthRequest.Token req)) as [id [err|]] eqn:Hval; [|done].
  injection H as <-. done.
Qed.

Lemma HandleAuth_refusals_witness :
  HandleAuth (value := unit) example_authenticator (AuthFrame 3 "request")
  = inl ErrAuthMustBeControlFrame
  ∧ HandleAuth (value := unit) (NewAuthenticator None (5 * Second))
      (AuthFrame 0 "request")
    = inl ErrNoTokenValidator.
Proof.
  split.
  - destruct (HandleAuth (value := unit) example_authenticator
                (AuthFrame 3 "request")) as [e|[agentID metadata]] eqn:E;
      [|by vm_compute in E].
    destruct (HandleAuth_refusals _ _ _ E)
      as [[Hty _]|[(_ & _ & ->)|(_ & Hid & _)]]; done.
  - reflexivity.
Defined.
